(** * UTXOracle test vectors (tests/gen_vectors.py) and the share
      test rig (tools/share-test.py)

    A shallow embedding of [calc_price] with its inner function [fco],
    of [filter_block] and the collection loop that feeds it, and of the
    manifest computations of the share test rig.

    The Python code computes on [float] and [int]; the embedding keeps
    [int] as [Z] and is written once over an arithmetic interface
    [PyNum] for [float], so that the same program text runs

    - on IEEE binary64 ([Binary64], the arithmetic CPython uses),
    - on exact rationals ([Exact]), the arithmetic in which the
      numerical statements of the specification are meant, and
    - on the real numbers ([Ideal]), with the functions of [math] as
      analysis defines them.

    Exceptions are values of an error monad; Python's list indexing
    (negative indices wrap, out of range raises [IndexError]), its
    division ([ZeroDivisionError]) and the lookup of a key that a JSON
    object lacks ([KeyError]) are written out. *)

From Stdlib Require Import ZArith List Bool Lia Uint63 Floats QArith Qabs
  Qreduction Qround Reals Lra Qreals Permutation Sorted.
From Stdlib Require String Ascii.
Import ListNotations.
Import String.StringSyntax Ascii.AsciiSyntax.
Delimit Scope string_scope with string.
Delimit Scope char_scope with char.

(* ================================================================== *)
(** ** Exceptions *)

Inductive exn : Type :=
| ZeroDivisionError
| IndexError
| ValueError
| OverflowError
| Divergence.  (* a [while] loop that used up the model's iteration budget *)

Inductive result (A : Type) : Type :=
| Ret (a : A)
| Raise (e : exn).

Arguments Ret {A} a.
Arguments Raise {A} e.

Definition bind {A B} (m : result A) (k : A -> result B) : result B :=
  match m with
  | Ret a => k a
  | Raise e => Raise e
  end.

Declare Scope py_scope.
Delimit Scope py_scope with py.
Notation "'do' x <- m ; k" := (bind m (fun x => k))
  (at level 10, x name, m at level 100, k at level 200) : py_scope.
Notation "'do' ' p <- m ; k" := (bind m (fun x => match x with p => k end))
  (at level 10, p pattern, m at level 100, k at level 200) : py_scope.

(* ================================================================== *)
(** ** The arithmetic interface

    One field per operation the program performs on a [float]. [fquo]
    is the quotient for a divisor that compares different from zero:
    the program divides by a computed value through [fdiv] below, which
    raises as Python does, and uses [fquo] itself only to divide by a
    nonzero literal. [flt_inf x] is [x < float('inf')]. *)

Class PyNum (F : Type) : Type := {
  fadd : F -> F -> F;
  fsub : F -> F -> F;
  fmul : F -> F -> F;
  fquo : F -> F -> F;
  fabs : F -> F;
  flt : F -> F -> bool;
  fle : F -> F -> bool;
  feq : F -> F -> bool;
  of_Z : Z -> F;              (* float(n), and int operands of mixed arithmetic *)
  ftrunc : F -> result Z;     (* int(x) *)
  flt_inf : F -> bool
}.

(** The three functions of Python's [math] module used by the code
    ([10**y] with a float exponent is C's [pow]). They belong to the
    platform's C library, not to the repository. *)
Record Libm (F : Type) : Type := {
  m_log10 : F -> F;
  m_exp : F -> F;
  m_pow : F -> F -> F
}.

Arguments m_log10 {F} _ _.
Arguments m_exp {F} _ _.
Arguments m_pow {F} _ _ _.

Declare Scope num_scope.
Delimit Scope num_scope with num.
Notation "x + y" := (fadd x y) : num_scope.
Notation "x - y" := (fsub x y) : num_scope.
Notation "x * y" := (fmul x y) : num_scope.
Notation "x <? y" := (flt x y) : num_scope.
Notation "x <=? y" := (fle x y) : num_scope.
Notation "x =? y" := (feq x y) : num_scope.

(* ================================================================== *)
(** ** Python lists *)

Definition range (lo hi : Z) : list Z :=
  map (fun i => (lo + Z.of_nat i)%Z) (seq 0 (Z.to_nat (hi - lo))).

(** [l[i]] resolves a possibly negative index. *)
Definition py_index {A} (l : list A) (i : Z) : result nat :=
  let n := Z.of_nat (length l) in
  if ((0 <=? i) && (i <? n))%Z then Ret (Z.to_nat i)
  else if ((- n <=? i) && (i <? 0))%Z then Ret (Z.to_nat (n + i))
  else Raise IndexError.

Fixpoint upd {A} (k : nat) (v : A) (l : list A) : list A :=
  match l, k with
  | [], _ => []
  | _ :: t, O => v :: t
  | x :: t, S k' => x :: upd k' v t
  end.

Definition getitem {A} (l : list A) (i : Z) : result A :=
  (do k <- py_index l i;
   match nth_error l k with
   | Some x => Ret x
   | None => Raise IndexError
   end)%py.

Definition setitem {A} (l : list A) (i : Z) (v : A) : result (list A) :=
  (do k <- py_index l i; Ret (upd k v l))%py.

(** [l[lo:hi]] for [0 <= lo <= hi]. *)
Definition slice {A} (l : list A) (lo hi : nat) : list A :=
  firstn (hi - lo) (skipn lo l).

(** [for x in xs: s = body(s, x)] where the body may raise. *)
Fixpoint for_each {A S} (xs : list A) (body : S -> A -> result S) (s : S)
  : result S :=
  match xs with
  | [] => Ret s
  | x :: xs' => (do s' <- body s x; for_each xs' body s')%py
  end.

(* ================================================================== *)
(** ** The program *)

Section Program.

Context {F : Type} {N : PyNum F} (L : Libm F).
Local Open Scope num_scope.
Local Open Scope py_scope.

(** The float literal [m]e-[k], e.g. [lit 8 3] for [0.008]: the
    quotient of two exactly representable integers, which on binary64
    is the correctly rounded value Python's parser produces. *)
Definition lit (m : Z) (k : nat) : F :=
  match k with
  | O => of_Z m
  | _ => fquo (of_Z m) (of_Z (10 ^ Z.of_nat k))
  end.

Definition zero : F := of_Z 0.

(** [x / y] *)
Definition fdiv (x y : F) : result F :=
  if y =? zero then Raise ZeroDivisionError else Ret (fquo x y).

(** [sum(l)]: a left fold from the integer 0. *)
Definition sum (l : list F) : F := fold_left fadd l zero.

(** [math.log10(a)]: a domain error for [a <= 0]. *)
Definition log10 (a : F) : result F :=
  if a <=? zero then Raise ValueError else Ret (m_log10 L a).

(** *** Histogram builder (lines 39-46) *)

(** [bins]: 0.0, then [10**(ex+b/200.0)] for [ex] in -6..5, [b] in 0..199. *)
Definition bins : list F :=
  zero ::
  flat_map (fun ex =>
    map (fun b => m_pow L (of_Z 10) (of_Z ex + fquo (of_Z b) (lit 200 0)))
        (range 0 200))
    (range (-6) 6).

(** [while bins[be] <= a: be += 1], by recursion on the number of
    indices left before the end of the list. *)
Fixpoint scan (edges : list F) (a : F) (left : nat) (be : Z) : result Z :=
  match left with
  | O => Raise IndexError
  | S left' =>
      do e <- getitem edges be;
      if e <=? a then scan edges a left' (be + 1)%Z else Ret be
  end.

(** The body of [for a in raw_outputs] (lines 44-46). *)
Definition hist_step (edges : list F) (bc : list F) (a : F) : result (list F) :=
  let nb := Z.of_nat (length edges) in
  do al <- log10 a;
  let p := fquo (al - of_Z (-6)) (lit 12 0) in
  do be <- ftrunc (p * of_Z nb);
  do be' <- scan edges a (Z.to_nat (nb - be)) be;
  do c <- getitem bc (be' - 1);
  setitem bc (be' - 1) (c + lit 1 0).

Definition histogram (edges : list F) (raw_outputs : list F) : result (list F) :=
  for_each raw_outputs (hist_step edges) (repeat zero (length edges)).

(** *** Histogram conditioner (lines 48-56) *)

Definition repaired_bins : list Z :=
  [201;401;461;496;540;601;661;696;740;801;861;896;940;1001;1061;1096;1140;1201]%Z.

Definition zero_bin (bc : list F) (n : Z) : result (list F) :=
  setitem bc n zero.

(** [bc[r]=0.5*(bc[r+1]+bc[r-1])] *)
Definition repair (bc : list F) (r : Z) : result (list F) :=
  do up <- getitem bc (r + 1);
  do dn <- getitem bc (r - 1);
  setitem bc r (lit 5 1 * (up + dn)).

(** Lines 49-52: zero the tails, then repair the listed bins. *)
Definition prepare (bc : list F) : result (list F) :=
  let nb := Z.of_nat (length bc) in
  do bc <- for_each (range 0 201) zero_bin bc;
  do bc <- for_each (range 1601 nb) zero_bin bc;
  for_each repaired_bins repair bc.

(** [bc[n]/=cs; if bc[n]>0.008: bc[n]=0.008] *)
Definition normalize_bin (cs : F) (bc : list F) (n : Z) : result (list F) :=
  do c <- getitem bc n;
  do q <- fdiv c cs;
  do bc <- setitem bc n q;
  do c' <- getitem bc n;
  if lit 8 3 <? c' then setitem bc n (lit 8 3) else Ret bc.

(** Lines 49-56; returns the conditioned array and [cs]. *)
Definition condition (bc : list F) : result (list F * F) :=
  do bc <- prepare bc;
  let cs := sum (slice bc 201 1601) in
  do bc <- for_each (range 201 1601) (normalize_bin cs) bc;
  Ret (bc, cs).

(** *** Shift detector (lines 58-91) *)

Definition ne : Z := 803.
Definition mn : Z := 411.
Definition sd : Z := 201.

(** [ss]: the smooth shape of the reference kernel. *)
Definition ss : list F :=
  map (fun x =>
         lit 150 5 *
           m_exp L (fquo (of_Z (- ((x - mn) ^ 2))) (lit 2 0 * of_Z (sd ^ 2)))
         + lit 5 7 * of_Z x)
      (range 0 ne).

(** [sp]: the surcharges at the known payment points. *)
Definition sp : list F :=
  fold_left (fun sp iv => upd (fst iv) (snd iv) sp)
    [(40%nat, lit 1300198324984352 18); (141%nat, lit 1676746949820743 18);
     (201%nat, lit 3468805546942046 18); (202%nat, lit 1991977522512513 18);
     (236%nat, lit 1905066647961839 18); (261%nat, lit 3341772718156079 18);
     (262%nat, lit 2588902624584287 18); (296%nat, lit 2577893841190244 18);
     (297%nat, lit 2733728814200412 18); (340%nat, lit 3076117748975647 18);
     (341%nat, lit 5613067550103145 18); (342%nat, lit 3088253178535568 18);
     (400%nat, lit 2918457489366139 18); (401%nat, lit 6174500465286022 18);
     (402%nat, lit 4417068070043504 18); (403%nat, lit 2628663628020371 18);
     (436%nat, lit 2858828161543839 18); (461%nat, lit 4097463611984264 18);
     (462%nat, lit 3345917406120509 18); (496%nat, lit 2521467726855856 18);
     (497%nat, lit 2784125730361008 18); (541%nat, lit 3792850444811335 18);
     (601%nat, lit 3688240815848247 18); (602%nat, lit 2392400117402263 18);
     (636%nat, lit 1280993059008106 18); (661%nat, lit 1654665137536031 18);
     (662%nat, lit 1395501347054946 18); (741%nat, lit 1154279140906312 18);
     (801%nat, lit 832244504868709 18)]
    (repeat zero (Z.to_nat ne)).

Definition cp : Z := 601.

(** [for n in range(ne): acc += bc[base+n]*w[n]] *)
Definition weighted (bc w : list F) (base : Z) (acc : F) (n : Z) : result F :=
  do cv <- getitem bc (base + n);
  do k <- getitem w n;
  Ret (acc + cv * k).

(** The kernel arrays and [lp] are computed once, before the loops, and
    are arguments of the loop bodies. *)
Section Kernel.

Variables (ss sp : list F) (lp : Z).

(** The inner loop of line 77, which accumulates [sss] and [sco] together. *)
Definition kernel_step (bc : list F) (sl : Z) (st : F * F) (n : Z)
  : result (F * F) :=
  let '(sss, sco) := st in
  do cv <- getitem bc (lp + sl + n);
  do s <- getitem ss n;
  do p <- getitem sp n;
  Ret (sss + cv * s, sco + cv * p).

(** The body of [for sl in range(-141,201)]; the state is [(bsl, bss, ts)]. *)
Definition shift_step (bc : list F) (st : Z * F * F) (sl : Z)
  : result (Z * F * F) :=
  let '(bsl, bss, ts) := st in
  do '(sss, sco) <- for_each (range 0 ne) (kernel_step bc sl) (zero, zero);
  let sco := if (sl <? 150)%Z then sco + sss * lit 65 2 else sco in
  let '(bss, bsl) := if bss <? sco then (sco, sl) else (bss, bsl) in
  Ret (bsl, bss, ts + sco).

Definition best_shift (bc : list F) : result (Z * F * F) :=
  for_each (range (-141) 201) (shift_step bc) (0%Z, zero, zero).

(** [nus] and [nds] (lines 83-86). *)
Definition neighbor_scores (bc : list F) (bsl : Z) : result (F * F) :=
  do nus <- for_each (range 0 ne) (weighted bc sp (lp + bsl + 1)) zero;
  do nds <- for_each (range 0 ne) (weighted bc sp (lp + bsl - 1)) zero;
  Ret (nus, nds).

End Kernel.

(** [bn2=-1 if nds>nus else 1] *)
Definition bn2 (nus nds : F) : Z := if nus <? nds then (-1)%Z else 1%Z.

(** [max(nus,nds)] *)
Definition fmax (nus nds : F) : F := if nus <? nds then nds else nus.

(** Lines 89-91: the blend of the two anchors. *)
Definition blend (bss ts ns bu1 bu2 : F) : result Z :=
  let avs := fquo ts (of_Z (201 - (-141))) in
  let a1 := bss - avs in
  let a2 := fabs (ns - avs) in
  do w1 <- fdiv a1 (a1 + a2);
  do w2 <- fdiv a2 (a1 + a2);
  ftrunc (w1 * bu1 + w2 * bu2).

(** Lines 73-91 for given kernel arrays; returns [rough]. *)
Definition anchor (ss sp edges bc : list F) : result Z :=
  let hs := ((Z.of_nat (length sp) + 1) / 2)%Z in
  let lp := (cp - hs)%Z in
  do '(bsl, bss, ts) <- best_shift ss sp lp bc;
  do u1 <- getitem edges (cp + bsl);
  do bu1 <- fdiv (lit 100 0) u1;
  do '(nus, nds) <- neighbor_scores sp lp bc bsl;
  do u2 <- getitem edges (cp + bsl + bn2 nus nds);
  do bu2 <- fdiv (lit 100 0) u2;
  blend bss ts (fmax nus nds) bu1 bu2.

(** Lines 58-91. *)
Definition shift_detect (edges bc : list F) : result Z :=
  anchor ss sp edges bc.

(** *** Denomination voter (lines 93-115) *)

Definition usds : list Z := [5;10;15;20;25;30;40;50;100;150;200;300;500;1000]%Z.
Definition prw : F := lit 25 2.
Definition pmr : F := lit 1 4.

(** [while ii<hi: mr.append(ii); ii+=step], at most [budget] rounds. *)
Fixpoint while_lt (budget : nat) (ii hi step : F) (mr : list F)
  : result (list F) :=
  match budget with
  | O => Raise Divergence
  | S budget' =>
      if ii <? hi then while_lt budget' (ii + step) hi step (mr ++ [ii])
      else Ret mr
  end.

(** [mr]: the round-BTC reference points (lines 94-104). *)
Definition mr : result (list F) :=
  do mr <- while_lt 1000 (lit 5 5) (lit 1 4) (lit 1 5) [];
  do mr <- while_lt 1000 (lit 1 4) (lit 1 3) (lit 1 5) mr;
  do mr <- while_lt 1000 (lit 1 3) (lit 1 2) (lit 1 4) mr;
  do mr <- while_lt 1000 (lit 1 2) (lit 1 1) (lit 1 3) mr;
  while_lt 1000 (lit 1 1) (lit 1 0) (lit 1 2) mr.

(** [n>r-pmr*r and n<r+pmr*r] *)
Definition near_round (n r : F) : bool :=
  (r - pmr * r <? n) && (n <? r + pmr * r).

(** The value of [ok] after [for r in mr] (lines 112-114). *)
Definition ok (mr : list F) (n : F) : bool := negb (existsb (near_round n) mr).

(** [u/rough] on two ints. *)
Definition int_truediv (u rough : Z) : result F :=
  if (rough =? 0)%Z then Raise ZeroDivisionError
  else Ret (fquo (of_Z u) (of_Z rough)).

(** The body of [for u in usds] (lines 110-115). *)
Definition vote (rough : Z) (mr : list F) (n : F) (op : list F) (u : Z)
  : result (list F) :=
  do av <- int_truediv u rough;
  let up := av + prw * av in
  let dn := av - prw * av in
  if (dn <? n) && (n <? up) then
    if ok mr n then
      do q <- fdiv (of_Z u) n;
      Ret (op ++ [q])
    else Ret op
  else Ret op.

Definition voter (rough : Z) (mr : list F) (raw_outputs : list F)
  : result (list F) :=
  for_each raw_outputs (fun op n => for_each usds (vote rough mr n) op) [].

(** *** Refiner (lines 117-137) *)

(** [sorted(l)]: a stable sort that compares with [<] only. *)
Fixpoint insert (x : F) (l : list F) : list F :=
  match l with
  | [] => [x]
  | y :: t => if x <? y then x :: y :: t else y :: insert x t
  end.

Definition sorted (l : list F) : list F :=
  fold_left (fun acc x => insert x acc) l [].

(** Lines 120-121: [(ps, t)]. *)
Definition prefix_sums (f : list F) : list F * F :=
  fold_left (fun st i =>
               let '(ps, t) := st in
               let t := t + nth i f zero in
               (upd i t ps, t))
            (seq 0 (length f)) (repeat zero (length f), zero).

(** Line 124-125: [d] at index [i]. *)
Definition score (f ps : list F) (t : F) (i : nat) : F :=
  let nn := length f in
  let ls := if (0 <? i)%nat then nth (i - 1) ps zero else zero in
  let rs := t - nth i ps zero in
  (nth i f zero * of_Z (Z.of_nat i) - ls)
  + (rs - nth i f zero * of_Z (Z.of_nat nn - Z.of_nat i - 1)).

(** [d<md], where [md = None] stands for [float('inf')]. *)
Definition below (d : F) (md : option F) : bool :=
  match md with
  | None => flt_inf d
  | Some m => d <? m
  end.

(** Lines 122-126: the index [bi]. *)
Definition best_index (f ps : list F) (t : F) : nat :=
  snd (fold_left (fun st i =>
                    let '(md, bi) := st in
                    let d := score f ps t i in
                    if below d md then (Some d, i) else (md, bi))
                 (seq 0 (length f)) (None, O)).

(** Lines 127-128. *)
Definition mad (f : list F) (bo : F) : F :=
  let dv := sorted (map (fun p => fabs (p - bo)) f) in
  let m := length dv in
  if (m mod 2 =? 0)%nat
  then fquo (nth (m / 2 - 1) dv zero + nth (m / 2) dv zero) (lit 2 0)
  else nth (m / 2) dv zero.

Definition window (prices : list F) (pmin pmax : F) : list F :=
  sorted (filter (fun p => (pmin <? p) && (p <? pmax)) prices).

Definition fco (rough : Z) (prices : list F) (pmin pmax : F) : F * F :=
  let f := window prices pmin pmax in
  if (length f =? 0)%nat then (of_Z rough, zero)
  else
    let '(ps, t) := prefix_sums f in
    let bo := nth (best_index f ps t) f zero in
    (bo, mad f bo).

Definition prt : F := lit 5 2.

(** [np2 in avset] *)
Definition seen (np2 : F) (avset : list F) : bool := existsb (feq np2) avset.

(** One pass of the loop body: the window around [cp2] and its split. *)
Definition resplit (rough : Z) (op : list F) (cp2 : F) : F :=
  let pu := cp2 + prt * cp2 in
  let pd := cp2 - prt * cp2 in
  fst (fco rough op pd pu).

(** [for _ in range(100)] (lines 133-137), by recursion on the rounds left. *)
Fixpoint converge (rough : Z) (op : list F) (rounds : nat) (cp2 : F)
  (avset : list F) : F :=
  match rounds with
  | O => cp2
  | S rounds' =>
      let np2 := resplit rough op cp2 in
      if seen np2 avset then np2
      else converge rough op rounds' np2 (np2 :: avset)
  end.

(** Lines 131-132: the split of the window around [rough]. *)
Definition first_split (rough : Z) (op : list F) : F :=
  let pu := of_Z rough + prt * of_Z rough in
  let pd := of_Z rough - prt * of_Z rough in
  fst (fco rough op pd pu).

(** Lines 131-137: the value of [cp2] at the [return]. *)
Definition refine (rough : Z) (op : list F) : F :=
  let cp2 := first_split rough op in
  converge rough op 100 cp2 [cp2].

(** [int(cp2)] of line 139. *)
Definition final_price (rough : Z) (op : list F) : result Z :=
  ftrunc (refine rough op).

(** *** [calc_price] *)

Definition calc_price (raw_outputs : list F) (block_heights block_times : list Z)
  : result (Z * Z * nat * F * F) :=
  let edges := bins in
  do bc <- histogram edges raw_outputs;
  let s5sum := sum bc in
  do '(bc, cs) <- condition bc;
  do rough <- shift_detect edges bc;
  do mr <- mr;
  do op <- voter rough mr raw_outputs;
  do final <- final_price rough op;
  Ret (final, rough, length op, s5sum, cs).

End Program.

(* ================================================================== *)
(** ** IEEE binary64, the arithmetic of CPython's [float] *)

Module Binary64.

(** [float(n)]: round to nearest, ties to even. Below 2^62 the
    primitive conversion of a 63-bit integer computes the same value. *)
Definition of_int (z : Z) : float :=
  if (Z.abs z <? 4611686018427387904)%Z then
    let x := PrimFloat.of_uint63 (Uint63.of_Z (Z.abs z)) in
    if (z <? 0)%Z then PrimFloat.opp x else x
  else SF2Prim (binary_normalize prec emax z 0 false).

(** [int(x)]: truncation toward zero; infinities and NaN raise. *)
Definition trunc (x : float) : result Z :=
  match Prim2SF x with
  | S754_zero _ => Ret 0%Z
  | S754_finite s m e =>
      let v := if (0 <=? e)%Z then (Z.pos m * 2 ^ e)%Z
               else (Z.pos m / 2 ^ (- e))%Z in
      Ret (if s then (- v)%Z else v)
  | S754_infinity _ => Raise OverflowError
  | S754_nan => Raise ValueError
  end.

#[global] Instance num : PyNum float := {|
  fadd := PrimFloat.add;
  fsub := PrimFloat.sub;
  fmul := PrimFloat.mul;
  fquo := PrimFloat.div;
  fabs := PrimFloat.abs;
  flt := PrimFloat.ltb;
  fle := PrimFloat.leb;
  feq := PrimFloat.eqb;
  of_Z := of_int;
  ftrunc := trunc;
  flt_inf := fun x => PrimFloat.ltb x infinity
|}.

Local Open Scope float_scope.

(** A software [libm], so that the model runs end to end. It stands in
    for the platform's C library; no theorem depends on its accuracy. *)

Definition to_Z (x : float) : Z :=
  match trunc x with Ret k => k | Raise _ => 0%Z end.

Definition ln2 : float := of_int 6243314768165359 / of_int (2 ^ 53).
Definition ln2_lo : float := of_int 7525737178955839 / of_int (2 ^ 108).

(** [e^x] by halving the argument range and a Taylor polynomial. *)
Definition soft_exp (x : float) : float :=
  let k := to_Z (x / ln2 + (if x <? of_int 0 then of_int (-1) else of_int 1) / of_int 2) in
  let r := x - of_int k * ln2 - of_int k * ln2_lo in
  let p := fold_right (fun i acc => of_int 1 + r / of_int i * acc) (of_int 1)
             (range 1 14) in
  Z.ldexp p k.

(** [ln x] for [x > 0] from [x = m * 2^e] and the series of [atanh]. *)
Definition soft_ln (x : float) : float :=
  let '(m, e) := Z.frexp x in
  let '(m, e) := if m <? of_int 7071 / of_int 10000
                 then (m * of_int 2, (e - 1)%Z) else (m, e) in
  let s := (m - of_int 1) / (m + of_int 1) in
  let t := s * s in
  let q := fold_right (fun i acc => of_int 1 / of_int i + t * acc) 0
             (map (fun i => (2 * i + 1)%Z) (range 0 14)) in
  of_int e * ln2 + (of_int e * ln2_lo + of_int 2 * s * q).

Definition soft_libm : Libm float := {|
  m_log10 := fun x => soft_ln x / soft_ln (of_int 10);
  m_exp := soft_exp;
  m_pow := fun b y => soft_exp (y * soft_ln b)
|}.

End Binary64.

(* ================================================================== *)
(** ** Exact rational arithmetic *)

Module Exact.

Definition trunc (x : Q) : result Z := Ret (Z.quot (Qnum x) (Z.pos (Qden x))).

Definition is0 (x : Q) : bool := (Qnum x =? 0)%Z.

(** Sums, differences and products are kept in lowest terms; a zero
    operand is passed over without reducing. *)
Definition add (x y : Q) : Q :=
  if is0 y then x else if is0 x then y else Qred (x + y).
Definition sub (x y : Q) : Q := if is0 y then x else Qred (x - y).
Definition mul (x y : Q) : Q := if is0 x || is0 y then 0 else Qred (x * y).
Definition quo (x y : Q) : Q := Qred (x / y).

#[global] Instance num : PyNum Q := {|
  fadd := add;
  fsub := sub;
  fmul := mul;
  fquo := quo;
  fabs := Qabs.Qabs;
  flt := fun x y => negb (Qle_bool y x);
  fle := Qle_bool;
  feq := Qeq_bool;
  of_Z := inject_Z;
  ftrunc := trunc;
  flt_inf := fun _ => true
|}.

(** The value of a finite binary64 number. *)
Definition of_float (x : float) : Q :=
  match Prim2SF x with
  | S754_finite s m e =>
      let v := if (0 <=? e)%Z then inject_Z (Z.pos m * 2 ^ e)
               else Qred (Z.pos m # Pos.pow 2 (Z.to_pos (- e))) in
      if s then Qopp v else v
  | _ => 0
  end.

Definition to_float (x : Q) : float :=
  (Binary64.of_int (Qnum x) / Binary64.of_int (Z.pos (Qden x)))%float.

(** The software [libm] read on rationals. *)
Definition soft_libm : Libm Q := {|
  m_log10 := fun x => of_float (m_log10 Binary64.soft_libm (to_float x));
  m_exp := fun x => of_float (m_exp Binary64.soft_libm (to_float x));
  m_pow := fun b y => of_float (m_pow Binary64.soft_libm (to_float b) (to_float y))
|}.

End Exact.

(* ================================================================== *)
(** ** The kernel loops over aligned slices

    The loops of lines 77, 84 and 86 read [bc[base+n]], [ss[n]] and
    [sp[n]] for [n] in [range(ne)]. When the three arrays are long
    enough this is a fold over the slice [bc[base:base+ne]] zipped with
    the kernel; the definitions below take that route when the lengths
    allow it and the indexed loop otherwise. *)

Section Aligned.

Context {F : Type} {N : PyNum F}.
Local Open Scope num_scope.
Local Open Scope py_scope.

Definition aligned (w bc : list F) (base : Z) : bool :=
  (length w =? Z.to_nat ne)%nat && (0 <=? base)%Z
  && (base + ne <=? Z.of_nat (length bc))%Z.

Definition cut (bc : list F) (base : Z) : list F :=
  slice bc (Z.to_nat base) (Z.to_nat (base + ne)).

Definition dot_step (acc : F) (x : F * F) : F := acc + fst x * snd x.

Definition dot2_step (st : F * F) (x : F * (F * F)) : F * F :=
  (fst st + fst x * fst (snd x), snd st + fst x * snd (snd x)).

Definition weighted_loop (bc w : list F) (base : Z) : result F :=
  if aligned w bc base
  then Ret (fold_left dot_step (combine (cut bc base) w) zero)
  else for_each (range 0 ne) (weighted bc w base) zero.

Definition kernel_loop (ss sp : list F) (lp : Z) (bc : list F) (sl : Z)
  : result (F * F) :=
  if aligned ss bc (lp + sl) && aligned sp bc (lp + sl)
  then Ret (fold_left dot2_step (combine (cut bc (lp + sl)) (combine ss sp))
              (zero, zero))
  else for_each (range 0 ne) (kernel_step ss sp lp bc sl) (zero, zero).

Definition shift_step' (ss sp : list F) (lp : Z) (bc : list F)
  (st : Z * F * F) (sl : Z) : result (Z * F * F) :=
  let '(bsl, bss, ts) := st in
  do '(sss, sco) <- kernel_loop ss sp lp bc sl;
  let sco := if (sl <? 150)%Z then sco + sss * lit 65 2 else sco in
  let '(bss, bsl) := if bss <? sco then (sco, sl) else (bss, bsl) in
  Ret (bsl, bss, ts + sco).

Definition best_shift' (ss sp : list F) (lp : Z) (bc : list F)
  : result (Z * F * F) :=
  for_each (range (-141) 201) (shift_step' ss sp lp bc) (0%Z, zero, zero).

Definition neighbor_scores' (sp : list F) (lp : Z) (bc : list F) (bsl : Z)
  : result (F * F) :=
  do nus <- weighted_loop bc sp (lp + bsl + 1);
  do nds <- weighted_loop bc sp (lp + bsl - 1);
  Ret (nus, nds).

Definition anchor' (ss sp edges bc : list F) : result Z :=
  let hs := ((Z.of_nat (length sp) + 1) / 2)%Z in
  let lp := (cp - hs)%Z in
  do '(bsl, bss, ts) <- best_shift' ss sp lp bc;
  do u1 <- getitem edges (cp + bsl);
  do bu1 <- fdiv (lit 100 0) u1;
  do '(nus, nds) <- neighbor_scores' sp lp bc bsl;
  do u2 <- getitem edges (cp + bsl + bn2 nus nds);
  do bu2 <- fdiv (lit 100 0) u2;
  blend bss ts (fmax nus nds) bu1 bu2.

Definition calc_price' (L : Libm F) (raw_outputs : list F)
  (block_heights block_times : list Z) : result (Z * Z * nat * F * F) :=
  let edges := bins L in
  do bc <- histogram L edges raw_outputs;
  let s5sum := sum bc in
  do '(bc, cs) <- condition bc;
  do rough <- anchor' (ss L) sp edges bc;
  do mr <- mr;
  do op <- voter rough mr raw_outputs;
  do final <- final_price rough op;
  Ret (final, rough, length op, s5sum, cs).

End Aligned.

(* ================================================================== *)
(** ** Exact arithmetic, read in the reals

    An arithmetic is exact when its operations are those of the real
    numbers under a reading [toR]. The rationals are; binary64 is not. *)

Class RealView (F : Type) : Type := toR : F -> R.

Class ExactLaws (F : Type) {N : PyNum F} {V : RealView F} : Prop := {
  toR_add : forall x y : F, toR (fadd x y) = (toR x + toR y)%R;
  toR_sub : forall x y : F, toR (fsub x y) = (toR x - toR y)%R;
  toR_mul : forall x y : F, toR (fmul x y) = (toR x * toR y)%R;
  toR_quo : forall x y : F, toR y <> 0%R -> toR (fquo x y) = (toR x / toR y)%R;
  toR_abs : forall x : F, toR (fabs x) = Rabs (toR x);
  toR_of_Z : forall z : Z, toR (of_Z z) = IZR z;
  flt_spec : forall x y : F, flt x y = true <-> (toR x < toR y)%R;
  fle_spec : forall x y : F, fle x y = true <-> (toR x <= toR y)%R;
  feq_spec : forall x y : F, feq x y = true <-> toR x = toR y;
  flt_inf_spec : forall x : F, flt_inf x = true;
  ftrunc_spec : forall x : F, exists z : Z,
      ftrunc x = Ret z
      /\ ((0 <= toR x)%R -> (IZR z <= toR x < IZR z + 1)%R)
      /\ ((toR x <= 0)%R -> (IZR z - 1 < toR x <= IZR z)%R)
}.

#[global] Instance Q_view : RealView Q := Q2R.

(** The real numbers themselves, with the functions of [math] as
    analysis defines them. Nothing here computes; it is the arithmetic
    in which the specification's formulas are read. *)
Module Ideal.

Definition trunc (x : R) : result Z :=
  Ret (if Rle_dec 0 x then Int_part x else (- Int_part (- x))%Z).

#[global] Instance num : PyNum R := {|
  fadd := Rplus;
  fsub := Rminus;
  fmul := Rmult;
  fquo := Rdiv;
  fabs := Rabs;
  flt := fun x y => if Rlt_dec x y then true else false;
  fle := fun x y => if Rle_dec x y then true else false;
  feq := fun x y => if Req_dec_T x y then true else false;
  of_Z := IZR;
  ftrunc := trunc;
  flt_inf := fun _ => true
|}.

#[global] Instance view : RealView R := fun x => x.

Definition libm : Libm R := {|
  m_log10 := fun x => (ln x / ln 10)%R;
  m_exp := exp;
  m_pow := Rpower
|}.

End Ideal.

(* ================================================================== *)
(** ** Notions the statements use *)

Definition Rsum (l : list R) : R := fold_right Rplus 0%R l.

Section Notions.

Context {F : Type} {N : PyNum F}.

(** The sequence of split results: [splits 0] is the split of the
    window around [rough], [splits (k+1)] the split of the window around
    [splits k]. *)
Fixpoint splits (rough : Z) (op : list F) (k : nat) : F :=
  match k with
  | O => first_split rough op
  | S k' => resplit rough op (splits rough op k')
  end.

(** The results seen before round [k], latest first. *)
Fixpoint history (rough : Z) (op : list F) (k : nat) : list F :=
  match k with
  | O => []
  | S k' => splits rough op k' :: history rough op k'
  end.

(** The test of line 111. *)
Definition in_band (rough : Z) (n : F) (u : Z) : bool :=
  let av := fquo (of_Z u) (of_Z rough) in
  flt (fsub av (fmul prw av)) n && flt n (fadd av (fmul prw av)).

(** The (value, denomination) pairs that pass both filters, in the
    order the loops visit them. *)
Definition survivors (rough : Z) (mr : list F) (raw_outputs : list F)
  : list (F * Z) :=
  filter (fun nu => in_band rough (fst nu) (snd nu) && ok mr (fst nu))
         (list_prod raw_outputs usds).

(** The price a surviving pair contributes (line 115). *)
Definition price (nu : F * Z) : F := fquo (of_Z (snd nu)) (fst nu).

(** The cap of line 56. *)
Definition cap (q : F) : F := if flt (lit 8 3) q then lit 8 3 else q.

Context {V : RealView F}.

(** Total absolute deviation of the points of [f] from [x]. *)
Definition tad (f : list F) (x : F) : R :=
  Rsum (map (fun y => Rabs (toR y - toR x)) f).

(** The order of the values read. *)
Definition le_F (x y : F) : Prop := (toR x <= toR y)%R.

End Notions.

(* ================================================================== *)
(** ** The block filter ([filter_block] of tests/gen_vectors.py)

    The node answers [getblock] with a JSON object. Its objects are
    records here, one field per key the code reads, with the type the
    node gives the value (a number for [value], hexadecimal strings for
    the witness items, whose [len] is their number of characters); a
    field is [None] when the key is absent, and reading an absent key
    with [d[k]] raises [KeyError]. *)

Inductive access (A : Type) : Type :=
| Got (a : A)
| KeyError (k : String.string).

Arguments Got {A} a.
Arguments KeyError {A} k%_string.

Definition and_then {A B} (m : access A) (k : A -> access B) : access B :=
  match m with
  | Got a => k a
  | KeyError s => KeyError s
  end.

Notation "'get' x <- m ; k" := (and_then m (fun x => k))
  (at level 10, x name, m at level 100, k at level 200) : py_scope.
Notation "'get' ' p <- m ; k" := (and_then m (fun x => match x with p => k end))
  (at level 10, p pattern, m at level 100, k at level 200) : py_scope.

(** [d[k]] *)
Definition key {A} (k : String.string) (v : option A) : access A :=
  match v with
  | Some a => Got a
  | None => KeyError k
  end.

Arguments key {A} k%_string v.

(** [k in d] *)
Definition has {A} (v : option A) : bool :=
  match v with
  | Some _ => true
  | None => false
  end.

(** [d.get(k, default)] *)
Definition get_or {A} (v : option A) (default : A) : A :=
  match v with
  | Some a => a
  | None => default
  end.

(** [for x in xs: s = body(s, x)] where the body may raise [KeyError]. *)
Fixpoint for_all {A S} (xs : list A) (body : S -> A -> access S) (s : S)
  : access S :=
  match xs with
  | [] => Got s
  | x :: xs' => (get s' <- body s x; for_all xs' body s')%py
  end.

Record txin : Type := {
  in_coinbase : option String.string;
  in_txid : option String.string;
  in_txinwitness : option (list String.string)
}.

Record script : Type := { spk_type : option String.string }.

Record txout (F : Type) : Type := {
  out_value : option F;
  out_scriptPubKey : option script
}.

Arguments out_value {F} _.
Arguments out_scriptPubKey {F} _.

Record tx (F : Type) : Type := {
  tx_txid : option String.string;
  tx_vin : option (list txin);
  tx_vout : option (list (txout F))
}.

Arguments tx_txid {F} _.
Arguments tx_vin {F} _.
Arguments tx_vout {F} _.

Record block (F : Type) : Type := { blk_tx : option (list (tx F)) }.

Arguments blk_tx {F} _.

(** A Python [set] of txids: a list without repetition. *)
Definition mem (t : String.string) (s : list String.string) : bool :=
  existsb (String.eqb t) s.

(** [s.add(t)] *)

Definition add (t : String.string) (s : list String.string) : list String.string :=
  if mem t s then s else t :: s.

(** [s.update(ts)] *)
Definition update (s ts : list String.string) : list String.string :=
  fold_left (fun s t => add t s) ts s.

Section Filter.

Context {F : Type} {N : PyNum F}.
Local Open Scope num_scope.
Local Open Scope py_scope.

(** [ic > 0 and "coinbase" in vin[0]] *)
Definition is_cb (vin : list txin) : bool :=
  (0 <? Z.of_nat (length vin))%Z
  && match vin with
     | inp :: _ => has (in_coinbase inp)
     | [] => false
     end.

(** [[inp["txid"] for inp in vin if "txid" in inp]] *)
Definition input_txids (vin : list txin) : list String.string :=
  flat_map (fun inp => match in_txid inp with
                       | Some t => [t]
                       | None => []
                       end) vin.

(** [o.get("scriptPubKey",{}).get("type")=="nulldata"] *)
Definition is_nulldata (o : txout F) : bool :=
  match get_or (out_scriptPubKey o) {| spk_type := None |} with
  | {| spk_type := Some t |} => String.eqb t "nulldata"%string
  | {| spk_type := None |} => false
  end.

Definition has_opr (vout : list (txout F)) : bool := existsb is_nulldata vout.

(** [[o["value"] for o in vout if o["value"]>1e-5 and o["value"]<1e5]] *)
Fixpoint vals (vout : list (txout F)) : access (list F) :=
  match vout with
  | [] => Got []
  | o :: vout' =>
      get v <- key "value" (out_value o);
      get rest <- vals vout';
      Got (if (lit 1 5 <? v) && (v <? lit 100000 0) then v :: rest else rest)
  end.

(** The loop over the witness items of one input (lines 26-29); returns
    whether it set [wit_exc]. *)
Fixpoint witness_scan (ws : list String.string) (tw : Z) : bool :=
  match ws with
  | [] => false
  | w :: ws' =>
      let il := (Z.of_nat (String.length w) / 2)%Z in
      let tw := (tw + il)%Z in
      if (500 <? il)%Z || (500 <? tw)%Z then true else witness_scan ws' tw
  end.

(** Lines 24-30. *)
Definition wit_exc (vin : list txin) : bool :=
  existsb (fun inp => witness_scan (get_or (in_txinwitness inp) []) 0) vin.

(** [any(t in existing_txids or t in block_txids for t in input_txids)] *)
Definition same_day (existing_txids block_txids input_txids : list String.string)
  : bool :=
  existsb (fun t => mem t existing_txids || mem t block_txids) input_txids.

(** The test of line 33. *)
Definition passes (ic oc : Z) (is_cb has_opr wit_exc same_day : bool) : bool :=
  (ic <=? 5)%Z && (oc =? 2)%Z && negb is_cb && negb has_opr && negb wit_exc
  && negb same_day.

(** The body of [for tx in txs] (lines 18-34); the state is
    [(filtered, block_txids)]. *)
Definition filter_tx (existing_txids : list String.string)
  (st : list F * list String.string) (t : tx F)
  : access (list F * list String.string) :=
  let '(filtered, block_txids) := st in
  get txid <- key "txid" (tx_txid t);
  get vin <- key "vin" (tx_vin t);
  get vout <- key "vout" (tx_vout t);
  let ic := Z.of_nat (length vin) in
  let oc := Z.of_nat (length vout) in
  get vs <- vals vout;
  let block_txids := add txid block_txids in
  if passes ic oc (is_cb vin) (has_opr vout) (wit_exc vin)
       (same_day existing_txids block_txids (input_txids vin))
  then Got (filtered ++ vs, block_txids)
  else Got (filtered, block_txids).

Definition filter_block (block_json : block F) (existing_txids : list String.string)
  : access (list F * list String.string) :=
  get txs <- key "tx" (blk_tx block_json);
  for_all txs (filter_tx existing_txids) ([], []).

(** *** The collection loop of the script (lines 151-157)

    [getblock bh] is the node's answer to [rpc("getblock",[bh,2])]. *)

Section Main.

Variable getblock : String.string -> block F.

(** [outs.append(v); heights.append(bn); btimes.append(bt)] *)
Definition record (bn bt : Z) (st : list F * list Z * list Z) (v : F)
  : list F * list Z * list Z :=
  let '(outs, heights, btimes) := st in
  (outs ++ [v], heights ++ [bn], btimes ++ [bt]).

(** The body of [for i,(bn,bh,bt) in enumerate(zip(nums,hashes,times))];
    the state is [(outs, heights, btimes, etx)]. *)
Definition collect_step (st : list F * list Z * list Z * list String.string)
  (x : Z * String.string * Z)
  : access (list F * list Z * list Z * list String.string) :=
  let '(outs, heights, btimes, etx) := st in
  let '(bn, bh, bt) := x in
  let blk := getblock bh in
  get '(f, btxids) <- filter_block blk etx;
  let etx := update etx btxids in
  let '(outs, heights, btimes) :=
    fold_left (record bn bt) f (outs, heights, btimes) in
  Got (outs, heights, btimes, etx).

Definition collect (nums : list Z) (hashes : list String.string) (times : list Z)
  : access (list F * list Z * list Z * list String.string) :=
  for_all (combine (combine nums hashes) times) collect_step ([], [], [], []).

End Main.

End Filter.

(** *** Notions the statements about the filter use *)

Section FilterNotions.

Context {F : Type} {N : PyNum F}.

(** The test of line 23 on one value. *)
Definition in_range (v : F) : bool := flt (lit 1 5) v && flt v (lit 100000 0).

(** The values of the outputs that carry one. *)
Definition values (vout : list (txout F)) : list F :=
  flat_map (fun o => match out_value o with
                     | Some v => [v]
                     | None => []
                     end) vout.

(** The txids of the transactions that carry one. *)
Definition txids (txs : list (tx F)) : list String.string :=
  flat_map (fun t => match tx_txid t with
                     | Some i => [i]
                     | None => []
                     end) txs.

(** Every key that [filter_block] reads with [d[k]] is present. *)
Definition tx_complete (t : tx F) : bool :=
  has (tx_txid t) && has (tx_vin t)
  && match tx_vout t with
     | Some vout => forallb (fun o => has (out_value o)) vout
     | None => false
     end.

Definition block_complete (b : block F) : bool :=
  match blk_tx b with
  | Some txs => forallb tx_complete txs
  | None => false
  end.

(** What one transaction adds, given the txids of the block so far. *)
Definition selected (ex before : list String.string) (t : tx F) (v : F) : Prop :=
  exists txid vin vout o,
    tx_txid t = Some txid /\ tx_vin t = Some vin /\ tx_vout t = Some vout
    /\ (length vin <= 5)%nat /\ length vout = 2%nat
    /\ is_cb vin = false /\ has_opr vout = false /\ wit_exc vin = false
    /\ (forall i, In i (input_txids vin) ->
          mem i ex = false /\ i <> txid /\ ~ In i before)
    /\ In o vout /\ out_value o = Some v /\ in_range v = true.

(** The transactions of a block. *)
Definition txs_of (b : block F) : list (tx F) := get_or (blk_tx b) [].

(** A recorded triple: the value stands next to the height and the time
    of a block whose filter returned it. *)
Definition recorded (getblock : String.string -> block F)
  (xs : list (Z * String.string * Z)) (e : F * Z * Z) : Prop :=
  let '(v, h, t) := e in
  exists bh ex f ids,
    In (h, bh, t) xs /\ filter_block (getblock bh) ex = Got (f, ids) /\ In v f.

End FilterNotions.

(* ================================================================== *)
(** ** The manifest of the share server (tools/share-test.py)

    [GET /manifest] answers with a JSON object whose key [files] lists
    objects with the keys [path] and [size]. *)

Record entry : Type := {
  e_path : option String.string;
  e_size : option Z
}.

Record manifest : Type := {
  m_files : option (list entry);
  m_totalSize : option Z
}.

(** [path.split("/")[0]] *)
Fixpoint first_component (path : String.string) : String.string :=
  match path with
  | String.EmptyString => String.EmptyString
  | String.String c rest =>
      if Ascii.eqb c "/"%char then String.EmptyString
      else String.String c (first_component rest)
  end.

(** A [dict] with string keys, in insertion order. *)
Fixpoint dict_get {V} (d : list (String.string * V)) (k : String.string)
  : option V :=
  match d with
  | [] => None
  | (k', v) :: d' => if String.eqb k k' then Some v else dict_get d' k
  end.

(** [d[k] = v] *)
Fixpoint dict_set {V} (d : list (String.string * V)) (k : String.string) (v : V)
  : list (String.string * V) :=
  match d with
  | [] => [(k, v)]
  | (k', v') :: d' =>
      if String.eqb k k' then (k, v) :: d' else (k', v') :: dict_set d' k v
  end.

(** The body of the loop of [cmd_manifest] (lines 110-116); an entry of
    [dirs] is the pair of its [count] and its [size]. *)
Definition group_step (dirs : list (String.string * (Z * Z))) (f : entry)
  : access (list (String.string * (Z * Z))) :=
  (get path <- key "path" (e_path f);
   let d := first_component path in
   let dirs := if has (dict_get dirs d) then dirs else dict_set dirs d (0, 0)%Z in
   get info <- key d (dict_get dirs d);
   let dirs := dict_set dirs d (fst info + 1, snd info)%Z in
   get info <- key d (dict_get dirs d);
   get size <- key "size" (e_size f);
   Got (dict_set dirs d (fst info, snd info + size)%Z))%py.

(** [dirs] at the end of the loop of [cmd_manifest]. *)
Definition group_by_directory (m : manifest)
  : access (list (String.string * (Z * Z))) :=
  for_all (get_or (m_files m) []) group_step [].

(** The body of the first loop of [cmd_download] (lines 140-146); the
    state is [(download_list, total_size)]. *)
Definition plan_step (include_filters : bool)
  (st : list (String.string * Z) * Z) (f : entry)
  : access (list (String.string * Z) * Z) :=
  (let '(download_list, total_size) := st in
   get path <- key "path" (e_path f);
   get size <- key "size" (e_size f);
   if negb include_filters && String.prefix "indexes/"%string path then Got st
   else Got (download_list ++ [(path, size)], total_size + size)%Z)%py.

Definition download_plan (m : manifest) (include_filters : bool)
  : access (list (String.string * Z) * Z) :=
  for_all (get_or (m_files m) []) (plan_step include_filters) ([], 0%Z).

(** The second loop of [cmd_download] (lines 156-160), where
    [download_file path] tells whether the transfer of [path] succeeded. *)
Definition downloaded_total (download_file : String.string -> bool)
  (download_list : list (String.string * Z)) : Z :=
  fold_left (fun acc ps => if download_file (fst ps) then (acc + snd ps)%Z else acc)
            download_list 0%Z.

(** [sorted(files, key=lambda f: f["size"])]: the keys are read first,
    then a stable sort compares them with [<]. *)
Fixpoint size_keys (files : list entry) : access (list (Z * entry)) :=
  match files with
  | [] => Got []
  | f :: files' =>
      (get size <- key "size" (e_size f);
       get rest <- size_keys files';
       Got ((size, f) :: rest))%py
  end.

Fixpoint insert_by_key (x : Z * entry) (l : list (Z * entry)) : list (Z * entry) :=
  match l with
  | [] => [x]
  | y :: t => if (fst x <? fst y)%Z then x :: y :: t else y :: insert_by_key x t
  end.

Definition sorted_by_key (l : list (Z * entry)) : list (Z * entry) :=
  fold_left (fun acc x => insert_by_key x acc) l [].

(** [small_files] of [cmd_receive] (lines 188-190). *)
Definition small_files (m : manifest) : access (list entry) :=
  (get keyed <- size_keys (get_or (m_files m) []);
   Got (map snd (firstn 3 (sorted_by_key keyed))))%py.

(** *** Notions the statements about the manifest use *)

(** The files of a manifest whose path lies under the directory [d]. *)
Definition under (d : String.string) (files : list entry) : list entry :=
  filter (fun f => match e_path f with
                   | Some p => String.eqb (first_component p) d
                   | None => false
                   end) files.

Definition size_of (f : entry) : Z := get_or (e_size f) 0%Z.

Definition total_size (files : list entry) : Z :=
  fold_right Z.add 0%Z (map size_of files).

(** The sums of the [count] and of the [size] fields of [dirs]. *)
Definition counts (dirs : list (String.string * (Z * Z))) : Z :=
  fold_right Z.add 0%Z (map (fun kv => fst (snd kv)) dirs).

Definition volumes (dirs : list (String.string * (Z * Z))) : Z :=
  fold_right Z.add 0%Z (map (fun kv => snd (snd kv)) dirs).

(** Whether the plan of [cmd_download] lists a file, and the pair it lists. *)
Definition listed (include_filters : bool) (f : entry) : bool :=
  match e_path f with
  | Some p => negb (negb include_filters && String.prefix "indexes/"%string p)
  | None => false
  end.

Definition pair_of (f : entry) : String.string * Z :=
  (get_or (e_path f) String.EmptyString, size_of f).

(** The order of the sort keys. *)
Definition by_key (x y : Z * entry) : Prop := (fst x <= fst y)%Z.

(* ================================================================== *)
(** ** Notions of the statements about whole runs *)

(** Two runs agree when both return the same value or both raise. *)
Definition agree {A : Type} (x y : result A) : Prop :=
  match x, y with
  | Ret a, Ret b => a = b
  | Raise _, Raise _ => True
  | _, _ => False
  end.

(** The values the window 201..1600 does not count. *)
Definition outside_window (v : R) : Prop :=
  (1 / 1000000 <= v < 1 / 100000 \/ 100 <= v < Rpower 10 (5995 / 1000))%R.

(** The values whose bins the shift detector never reads: below 10^-5,
    or from 10^0.01 (the edge of bin 1203) upwards. *)
Definition out_of_reach (v : R) : Prop :=
  (1 / 1000000 <= v < 1 / 100000
   \/ Rpower 10 (1 / 100) <= v < Rpower 10 (5995 / 1000))%R.

(** Counts that leave the bins from [lo] to 1202 empty, none of them
    negative. *)
Definition unreached (lo : nat) (l : list R) : Prop :=
  length l = 2401%nat
  /\ (forall n, (lo <= n < 1203)%nat -> nth n l 0%R = 0%R)
  /\ (forall n, (0 <= nth n l 0)%R).

(* ================================================================== *)
(** ** Inputs of the worked examples *)

(** One output of 0.565 coin, six outputs, and their histograms. *)
Definition one_output : list Q := [lit 565 3].
Definition six_outputs : list Q :=
  [lit 565 3; lit 57 2; lit 1 3; lit 11 4; lit 105 5; lit 52 5].
Definition one_spike : list Q := upd 1151 (lit 1 0) (repeat zero 2401).
Definition tie_density : list Q := upd 1151 (lit 8 3) (repeat zero 2401).
Definition tie_histogram : list float := upd 1151 (lit 8 3) (repeat zero 2401).

(** The round-amount list in exact arithmetic. *)
Definition mr_exact : list Q :=
  match mr with Ret l => l | Raise _ => [] end.

(** Two blocks, the node that serves them, and a manifest. *)
Definition spend (t : String.string) : txin :=
  {| in_coinbase := None; in_txid := Some t; in_txinwitness := None |}.

Arguments spend t%_string.

Definition pay (v : Q) : txout Q :=
  {| out_value := Some v;
     out_scriptPubKey := Some {| spk_type := Some "witness_v0_keyhash"%string |} |}.

Definition transfer (txid : String.string) (vin : list txin) (vout : list (txout Q))
  : tx Q :=
  {| tx_txid := Some txid; tx_vin := Some vin; tx_vout := Some vout |}.

Arguments transfer txid%_string vin vout.

(** A block of three transactions: the coinbase, a payment of 0.565
    with a dust change, and a payment that spends the previous one. *)
Definition block_a : block Q :=
  {| blk_tx := Some
       [transfer "cb"
          [{| in_coinbase := Some "03a1"%string; in_txid := None;
              in_txinwitness := None |}]
          [pay (lit 3125 3); pay zero];
        transfer "t1" [spend "p0"] [pay (lit 565 3); pay (lit 1 6)];
        transfer "t2" [spend "t1"] [pay (lit 1 1); pay (lit 2 1)]] |}.

(** The next block: a payment that spends an output of [block_a], and
    an independent one. *)
Definition block_b : block Q :=
  {| blk_tx := Some
       [transfer "t3" [spend "t2"] [pay (lit 57 2); pay (lit 3 1)];
        transfer "t4" [spend "p1"; spend "p2"] [pay (lit 1 3); pay (lit 11 4)]] |}.

Definition node (bh : String.string) : block Q :=
  if String.eqb bh "ha" then block_a
  else if String.eqb bh "hb" then block_b
  else {| blk_tx := None |}.

(** A manifest of four files in three directories. *)
Definition file (path : String.string) (size : Z) : entry :=
  {| e_path := Some path; e_size := Some size |}.

Arguments file path%_string size%_Z.

Definition manifest_a : manifest :=
  {| m_files := Some [file "blocks/blk0.dat" 100; file "indexes/filter/0.dat" 40;
                      file "chainstate/1.ldb" 7; file "blocks/rev0.dat" 3];
     m_totalSize := Some 150%Z |}.

(* ================================================================== *)
(** * Theorems *)

(* ================================================================== *)
(** * Lists, indices and loops *)

Lemma range_length lo hi : length (range lo hi) = Z.to_nat (hi - lo).
Proof. unfold range. now rewrite length_map, length_seq. Qed.

Lemma In_range x lo hi : In x (range lo hi) <-> (lo <= x < hi)%Z.
Proof.
  unfold range. rewrite in_map_iff. split.
  - intros (i & <- & Hi). apply in_seq in Hi. lia.
  - intros H. exists (Z.to_nat (x - lo)). split; [lia|]. apply in_seq. lia.
Qed.

Lemma range_nth lo hi i d :
  (i < Z.to_nat (hi - lo))%nat -> nth i (range lo hi) d = (lo + Z.of_nat i)%Z.
Proof.
  intros H. unfold range.
  rewrite nth_indep with (d' := (lo + Z.of_nat O)%Z)
    by now rewrite length_map, length_seq.
  rewrite (map_nth (fun i => (lo + Z.of_nat i)%Z)), seq_nth by assumption.
  reflexivity.
Qed.

Lemma upd_length {A} k (v : A) l : length (upd k v l) = length l.
Proof.
  revert k. induction l as [|x l IH]; intros [|k]; simpl; auto.
Qed.

Lemma nth_upd_same {A} k (v d : A) l :
  (k < length l)%nat -> nth k (upd k v l) d = v.
Proof.
  revert k. induction l as [|x l IH]; intros [|k] H; simpl in *; try lia; auto.
  apply IH. lia.
Qed.

Lemma nth_upd_other {A} k j (v d : A) l :
  j <> k -> nth j (upd k v l) d = nth j l d.
Proof.
  revert k j. induction l as [|x l IH]; intros [|k] [|j] H; simpl; auto; try lia.
Qed.

Lemma nth_upd {A} k j (v d : A) l :
  (k < length l)%nat ->
  nth j (upd k v l) d = if Nat.eqb j k then v else nth j l d.
Proof.
  intros H. destruct (Nat.eqb_spec j k) as [->|Hn].
  - now apply nth_upd_same.
  - now apply nth_upd_other.
Qed.

Lemma upd_out {A} k (v : A) l : (length l <= k)%nat -> upd k v l = l.
Proof.
  revert k. induction l as [|x l IH]; intros [|k] H; simpl in *; auto; try lia.
  f_equal. apply IH. lia.
Qed.

Lemma py_index_ok {A} (l : list A) i :
  (0 <= i < Z.of_nat (length l))%Z -> py_index l i = Ret (Z.to_nat i).
Proof.
  intros H. unfold py_index.
  replace ((0 <=? i) && (i <? Z.of_nat (length l)))%Z with true; auto.
  symmetry. apply andb_true_iff. split; [apply Z.leb_le | apply Z.ltb_lt]; lia.
Qed.

Lemma getitem_ok {A} (l : list A) i d :
  (0 <= i < Z.of_nat (length l))%Z -> getitem l i = Ret (nth (Z.to_nat i) l d).
Proof.
  intros H. unfold getitem. rewrite py_index_ok by assumption. simpl.
  destruct (nth_error l (Z.to_nat i)) as [x|] eqn:E.
  - now rewrite (nth_error_nth _ _ d E).
  - apply nth_error_None in E. lia.
Qed.

Lemma setitem_ok {A} (l : list A) i v :
  (0 <= i < Z.of_nat (length l))%Z -> setitem l i v = Ret (upd (Z.to_nat i) v l).
Proof.
  intros H. unfold setitem. now rewrite py_index_ok by assumption.
Qed.

(** Past the end of the list every index raises. *)
Lemma getitem_past_end {A} (l : list A) i :
  (Z.of_nat (length l) <= i)%Z -> getitem l i = Raise IndexError.
Proof.
  intros H. unfold getitem, py_index.
  replace ((0 <=? i) && (i <? Z.of_nat (length l)))%Z with false.
  2:{ symmetry. apply andb_false_iff. right. apply Z.ltb_ge. lia. }
  replace ((- Z.of_nat (length l) <=? i) && (i <? 0))%Z with false; auto.
  symmetry. apply andb_false_iff. right. apply Z.ltb_ge. lia.
Qed.

Lemma for_each_ext {A S} (xs : list A) (f g : S -> A -> result S) s :
  (forall s x, In x xs -> f s x = g s x) ->
  for_each xs f s = for_each xs g s.
Proof.
  revert s. induction xs as [|x xs IH]; intros s H; simpl; auto.
  rewrite H by now left. destruct (g s x); simpl; auto.
  apply IH. intros. apply H. now right.
Qed.

Lemma for_each_app {A S} (xs ys : list A) (f : S -> A -> result S) s :
  for_each (xs ++ ys) f s = bind (for_each xs f s) (for_each ys f).
Proof.
  revert s. induction xs as [|x xs IH]; intros s; simpl; auto.
  destruct (f s x); simpl; auto.
Qed.

(** A loop whose body preserves an invariant ends in a state that has it. *)
Lemma for_each_inv {A S} (P : S -> Prop) (xs : list A) (f : S -> A -> result S) :
  (forall s x s', In x xs -> P s -> f s x = Ret s' -> P s') ->
  forall s s', P s -> for_each xs f s = Ret s' -> P s'.
Proof.
  induction xs as [|x xs IH]; intros H s s' Hs E; simpl in E.
  - now inversion E; subst.
  - destruct (f s x) as [s1|e] eqn:E1; simpl in E; [|discriminate].
    apply (IH (fun s x s' Hin => H s x s' (or_intror Hin)) s1 s'); auto.
    apply (H s x s1); auto. now left.
Qed.

Lemma skipn_nth_cons {A} (l : list A) k d :
  (k < length l)%nat -> skipn k l = nth k l d :: skipn (S k) l.
Proof.
  revert k. induction l as [|x l IH]; intros [|k] H; simpl in *; try lia; auto.
  apply IH. lia.
Qed.

(* ================================================================== *)
(** * The kernel loops are folds over aligned slices *)

Section AlignedLoops.

Context {F : Type} {N : PyNum F}.

Lemma weighted_fold (bc w : list F) (base : Z) :
  (0 <= base)%Z ->
  forall m k acc,
    (k + m <= length w)%nat ->
    (Z.to_nat base + k + m <= length bc)%nat ->
    for_each (map (fun i => (0 + Z.of_nat i)%Z) (seq k m)) (weighted bc w base) acc
    = Ret (fold_left dot_step
             (combine (firstn m (skipn (Z.to_nat base + k) bc))
                      (firstn m (skipn k w))) acc).
Proof.
  intros Hb. induction m as [|m IH]; intros k acc Hw Hbc; [reflexivity|].
  cbn [seq map for_each]. unfold weighted at 1.
  rewrite (getitem_ok bc (base + (0 + Z.of_nat k)) zero) by lia.
  rewrite (getitem_ok w (0 + Z.of_nat k) zero) by lia.
  cbn [bind].
  rewrite (skipn_nth_cons bc (Z.to_nat base + k) zero) by lia.
  rewrite (skipn_nth_cons w k zero) by lia.
  cbn [firstn combine fold_left].
  rewrite IH by lia.
  replace (Z.to_nat base + S k)%nat with (S (Z.to_nat base + k)) by lia.
  replace (Z.to_nat (base + (0 + Z.of_nat k))) with (Z.to_nat base + k)%nat by lia.
  replace (Z.to_nat (0 + Z.of_nat k)) with k by lia.
  reflexivity.
Qed.

Lemma kernel_fold (ss sp bc : list F) (lp sl : Z) :
  (0 <= lp + sl)%Z ->
  forall m k st,
    (k + m <= length ss)%nat -> (k + m <= length sp)%nat ->
    (Z.to_nat (lp + sl) + k + m <= length bc)%nat ->
    for_each (map (fun i => (0 + Z.of_nat i)%Z) (seq k m))
             (kernel_step ss sp lp bc sl) st
    = Ret (fold_left dot2_step
             (combine (firstn m (skipn (Z.to_nat (lp + sl) + k) bc))
                      (combine (firstn m (skipn k ss)) (firstn m (skipn k sp))))
             st).
Proof.
  intros Hb. induction m as [|m IH]; intros k st Hss Hsp Hbc; [reflexivity|].
  cbn [seq map for_each]. unfold kernel_step at 1. destruct st as [sss sco].
  rewrite (getitem_ok bc (lp + sl + (0 + Z.of_nat k)) zero) by lia.
  rewrite (getitem_ok ss (0 + Z.of_nat k) zero) by lia.
  rewrite (getitem_ok sp (0 + Z.of_nat k) zero) by lia.
  cbn [bind].
  rewrite (skipn_nth_cons bc (Z.to_nat (lp + sl) + k) zero) by lia.
  rewrite (skipn_nth_cons ss k zero) by lia.
  rewrite (skipn_nth_cons sp k zero) by lia.
  cbn [firstn combine fold_left].
  rewrite IH by lia.
  replace (Z.to_nat (lp + sl) + S k)%nat with (S (Z.to_nat (lp + sl) + k)) by lia.
  replace (Z.to_nat (lp + sl + (0 + Z.of_nat k)))
    with (Z.to_nat (lp + sl) + k)%nat by lia.
  replace (Z.to_nat (0 + Z.of_nat k)) with k by lia.
  reflexivity.
Qed.

Lemma aligned_spec (w bc : list F) (base : Z) :
  aligned w bc base = true ->
  length w = Z.to_nat ne /\ (0 <= base)%Z
  /\ (Z.to_nat base + Z.to_nat ne <= length bc)%nat.
Proof.
  unfold aligned. rewrite !andb_true_iff, Nat.eqb_eq, !Z.leb_le.
  intros [[H1 H2] H3]. assert (0 <= ne)%Z by (unfold ne; lia). lia.
Qed.

Lemma cut_firstn (bc : list F) (base : Z) :
  (0 <= base)%Z ->
  cut bc base = firstn (Z.to_nat ne) (skipn (Z.to_nat base + 0) bc).
Proof.
  intros H. unfold cut, slice. rewrite Nat.add_0_r. f_equal.
  assert (0 <= ne)%Z by (unfold ne; lia). lia.
Qed.

Lemma range_0_ne :
  range 0 ne = map (fun i => (0 + Z.of_nat i)%Z) (seq 0 (Z.to_nat ne)).
Proof. unfold range. now rewrite Z.sub_0_r. Qed.

Lemma weighted_loop_eq (bc w : list F) (base : Z) :
  for_each (range 0 ne) (weighted bc w base) zero = weighted_loop bc w base.
Proof.
  unfold weighted_loop. destruct (aligned w bc base) eqn:E; [|reflexivity].
  apply aligned_spec in E. destruct E as (Hw & Hb & Hbc).
  rewrite range_0_ne, weighted_fold by lia.
  rewrite <- cut_firstn by assumption.
  cbn [skipn]. rewrite firstn_all2 by lia. reflexivity.
Qed.

Lemma kernel_loop_eq (ss sp : list F) (lp : Z) (bc : list F) (sl : Z) :
  for_each (range 0 ne) (kernel_step ss sp lp bc sl) (zero, zero)
  = kernel_loop ss sp lp bc sl.
Proof.
  unfold kernel_loop.
  destruct (aligned ss bc (lp + sl)) eqn:E1; [|reflexivity].
  destruct (aligned sp bc (lp + sl)) eqn:E2; [|reflexivity].
  apply aligned_spec in E1, E2.
  destruct E1 as (Hss & Hb & Hbc), E2 as (Hsp & _ & _).
  cbn [andb]. rewrite range_0_ne, kernel_fold by lia.
  rewrite <- cut_firstn by assumption.
  cbn [skipn]. rewrite !firstn_all2 by lia. reflexivity.
Qed.

Lemma shift_step_eq (ss sp : list F) (lp : Z) (bc : list F) st sl :
  shift_step ss sp lp bc st sl = shift_step' ss sp lp bc st sl.
Proof.
  unfold shift_step, shift_step'. destruct st as [[bsl bss] ts].
  now rewrite kernel_loop_eq.
Qed.

Lemma best_shift_eq (ss sp : list F) (lp : Z) (bc : list F) :
  best_shift ss sp lp bc = best_shift' ss sp lp bc.
Proof.
  unfold best_shift, best_shift'. apply for_each_ext.
  intros. apply shift_step_eq.
Qed.

Lemma neighbor_scores_eq (sp : list F) (lp : Z) (bc : list F) (bsl : Z) :
  neighbor_scores sp lp bc bsl = neighbor_scores' sp lp bc bsl.
Proof.
  unfold neighbor_scores, neighbor_scores'. now rewrite !weighted_loop_eq.
Qed.

Lemma anchor_eq (ss sp edges bc : list F) :
  anchor ss sp edges bc = anchor' ss sp edges bc.
Proof.
  unfold anchor, anchor'. rewrite best_shift_eq.
  destruct (best_shift' _ _ _ _) as [[[bsl bss] ts]|]; [|reflexivity].
  cbn [bind]. destruct (getitem edges (cp + bsl)); [|reflexivity].
  cbn [bind]. destruct (fdiv _ _); [|reflexivity].
  cbn [bind]. now rewrite neighbor_scores_eq.
Qed.

Lemma calc_price_eq (L : Libm F) raw hs ts :
  calc_price L raw hs ts = calc_price' L raw hs ts.
Proof.
  unfold calc_price, calc_price', shift_detect.
  destruct (histogram _ _ _) as [bc|]; [|reflexivity].
  cbn [bind]. destruct (condition bc) as [[bc' cs]|]; [|reflexivity].
  cbn [bind]. now rewrite anchor_eq.
Qed.

End AlignedLoops.

(* ================================================================== *)
(** * The refinement loop *)

Section Refiner.

Context {F : Type} {N : PyNum F}.

Lemma converge_spec (rough : Z) (op : list F) :
  forall rounds j,
  exists k,
    (j <= k <= j + rounds)%nat
    /\ converge rough op rounds (splits rough op j) (history rough op (S j))
       = splits rough op k
    /\ (forall i, (j < i < k)%nat ->
          seen (splits rough op i) (history rough op i) = false)
    /\ ((k < j + rounds)%nat ->
          (j < k)%nat /\ seen (splits rough op k) (history rough op k) = true)
    /\ ((0 < rounds)%nat -> (j < k)%nat).
Proof.
  induction rounds as [|rounds IH]; intros j.
  - exists j. cbn [converge]. repeat split; try lia.
  - cbn [converge].
    change (resplit rough op (splits rough op j)) with (splits rough op (S j)).
    destruct (seen (splits rough op (S j)) (history rough op (S j))) eqn:E.
    + exists (S j). repeat split; try lia. assumption.
    + change (splits rough op (S j) :: history rough op (S j))
        with (history rough op (S (S j))).
      destruct (IH (S j)) as (k & Hk & Hres & Hfresh & Hstop & _).
      exists k. repeat split; try lia; try assumption.
      * intros i Hi. destruct (Nat.eq_dec i (S j)) as [->|Hne]; [assumption|].
        apply Hfresh. lia.
      * apply Hstop. lia.
Qed.

End Refiner.

(** C5. The refiner runs [k <= 100] rounds of its loop. Round [i]
    computes [splits i], the split of the 5% window around [splits (i-1)];
    [splits 0] is the split of the 5% window around [rough]. It stops at
    the first round whose result equals one seen before, or after round
    100, and the final price is [int] of the last result. *)
Theorem refine_stops_at_first_repeat {F : Type} {N : PyNum F}
  (rough : Z) (op : list F) :
  prt = lit 5 2
  /\ splits rough op 0
     = fst (fco rough op (fsub (of_Z rough) (fmul prt (of_Z rough)))
                         (fadd (of_Z rough) (fmul prt (of_Z rough))))
  /\ (forall i,
        splits rough op (S i)
        = fst (fco rough op
                 (fsub (splits rough op i) (fmul prt (splits rough op i)))
                 (fadd (splits rough op i) (fmul prt (splits rough op i)))))
  /\ exists k,
       (1 <= k <= 100)%nat
       /\ refine rough op = splits rough op k
       /\ final_price rough op = ftrunc (splits rough op k)
       /\ (forall i, (1 <= i < k)%nat ->
             seen (splits rough op i) (history rough op i) = false)
       /\ ((k < 100)%nat ->
             seen (splits rough op k) (history rough op k) = true).
Proof.
  split; [reflexivity|]. split; [reflexivity|]. split; [reflexivity|].
  destruct (converge_spec rough op 100 0) as (k & Hk & Hres & Hfresh & Hstop & Hpos).
  exists k. unfold final_price, refine.
  change (first_split rough op) with (splits rough op 0).
  change [splits rough op 0] with (history rough op 1).
  rewrite Hres. repeat split; try lia.
  - intros i Hi. apply Hfresh. lia.
  - intros Hlt. apply Hstop. lia.
Qed.

(* ================================================================== *)
(** * The round-amount filter *)

Section Voter.

Context {F : Type} {N : PyNum F}.

Lemma ok_false (mr : list F) (n r : F) :
  In r mr -> near_round n r = true -> ok mr n = false.
Proof.
  intros Hin Hnear. unfold ok. apply negb_false_iff, existsb_exists.
  now exists r.
Qed.

(** A value that passes the test of line 114 for some reference point
    adds nothing, whatever the denomination and the band. *)
Lemma vote_near_round (rough : Z) (mr : list F) (n : F) (op : list F) (u : Z)
  (r : F) :
  In r mr -> near_round n r = true ->
  forall op', vote rough mr n op u = Ret op' -> op' = op.
Proof.
  intros Hin Hnear op'. unfold vote.
  destruct (int_truediv u rough) as [av|]; cbn [bind]; [|discriminate].
  rewrite (ok_false mr n r Hin Hnear).
  destruct (_ && _); intros E; now inversion E.
Qed.

End Voter.

(* ================================================================== *)
(** * Binary64 comparisons *)

Lemma b64_eq_not_lt (x y : float) :
  PrimFloat.eqb x y = true -> PrimFloat.ltb x y = false.
Proof.
  rewrite FloatAxioms.eqb_spec, ltb_spec. unfold SFeqb, SFltb.
  destruct (SFcompare (Prim2SF x) (Prim2SF y)) as [[]|]; congruence.
Qed.

(* ================================================================== *)
(** * The tie between the two neighbour shifts *)

(** C2, as the code has it. When [nus] and [nds] compare equal the test
    [nds>nus] fails, so [bn2] is [+1]: rough price #2 is read at
    [bins[cp+bsl+1]], the neighbour of higher index, and [ns] is [nus]. *)
Theorem tie_takes_upper_neighbor {F : Type} {N : PyNum F}
  (Hord : forall a b : F, feq a b = true -> flt a b = false)
  (ss sp edges bc : list F) (bsl : Z) (bss ts nus nds : F) :
  let lp := (cp - (Z.of_nat (length sp) + 1) / 2)%Z in
  best_shift ss sp lp bc = Ret (bsl, bss, ts) ->
  neighbor_scores sp lp bc bsl = Ret (nus, nds) ->
  feq nus nds = true ->
  bn2 nus nds = 1%Z
  /\ fmax nus nds = nus
  /\ anchor ss sp edges bc
     = bind (getitem edges (cp + bsl)) (fun u1 =>
       bind (fdiv (lit 100 0) u1) (fun bu1 =>
       bind (getitem edges (cp + bsl + 1)) (fun u2 =>
       bind (fdiv (lit 100 0) u2) (fun bu2 =>
       blend bss ts nus bu1 bu2)))).
Proof.
  intros lp Hbest Hnb Htie.
  assert (Hlt : flt nus nds = false) by now apply Hord.
  assert (Hbn : bn2 nus nds = 1%Z) by (unfold bn2; now rewrite Hlt).
  assert (Hmax : fmax nus nds = nus) by (unfold fmax; now rewrite Hlt).
  repeat split; try assumption.
  unfold anchor. fold lp. rewrite Hbest. cbn [bind].
  destruct (getitem edges (cp + bsl)) as [u1|]; [|reflexivity]. cbn [bind].
  destruct (fdiv (lit 100 0) u1) as [bu1|]; [|reflexivity]. cbn [bind].
  rewrite Hnb. cbn [bind]. now rewrite Hbn, Hmax.
Qed.

(* ================================================================== *)
(** * The rationals and the reals are exact *)

Lemma Q2R_Qred (q : Q) : Q2R (Qred q) = Q2R q.
Proof. apply Qeq_eqR, Qred_correct. Qed.

Lemma Q2R_is0 (q : Q) : Exact.is0 q = true -> Q2R q = 0%R.
Proof.
  unfold Exact.is0. rewrite Z.eqb_eq. intros H. unfold Q2R. rewrite H. lra.
Qed.

Lemma Q2R_nonzero (q : Q) : Q2R q <> 0%R -> ~ q == 0.
Proof.
  intros H E. apply H. rewrite (Qeq_eqR _ _ E). apply RMicromega.Q2R_0.
Qed.

Lemma Q2R_abs (q : Q) : Q2R (Qabs q) = Rabs (Q2R q).
Proof.
  destruct (Qlt_le_dec q 0) as [Hneg|Hpos].
  - rewrite (Qeq_eqR _ _ (Qabs_neg q (Qlt_le_weak _ _ Hneg))), Q2R_opp.
    apply Qlt_Rlt in Hneg. rewrite RMicromega.Q2R_0 in Hneg.
    rewrite Rabs_left; lra.
  - rewrite (Qeq_eqR _ _ (Qabs_pos q Hpos)).
    apply Qle_Rle in Hpos. rewrite RMicromega.Q2R_0 in Hpos.
    rewrite Rabs_right; lra.
Qed.

Lemma Q2R_inject_Z (z : Z) : Q2R (inject_Z z) = IZR z.
Proof. unfold Q2R, inject_Z. simpl. lra. Qed.

Lemma Q_trunc_spec (x : Q) :
  exists z : Z,
    Exact.trunc x = Ret z
    /\ ((0 <= Q2R x)%R -> (IZR z <= Q2R x < IZR z + 1)%R)
    /\ ((Q2R x <= 0)%R -> (IZR z - 1 < Q2R x <= IZR z)%R).
Proof.
  destruct x as [n d]. unfold Exact.trunc. cbn [Qnum Qden].
  exists (Z.quot n (Z.pos d)). split; [reflexivity|].
  assert (Hd : (0 < IZR (Z.pos d))%R) by (apply IZR_lt; lia).
  assert (Hx : Q2R (n # d) = (IZR n / IZR (Z.pos d))%R) by reflexivity.
  assert (Hsign : forall m : Z, (0 <= m)%Z ->
            (IZR (m / Z.pos d) <= IZR m / IZR (Z.pos d) < IZR (m / Z.pos d) + 1)%R).
  { intros m Hm.
    pose proof (Z.mul_div_le m (Z.pos d) ltac:(lia)) as Hlo.
    pose proof (Z.mul_succ_div_gt m (Z.pos d) ltac:(lia)) as Hhi.
    apply IZR_le in Hlo. apply IZR_lt in Hhi.
    rewrite mult_IZR in Hlo. rewrite mult_IZR, succ_IZR in Hhi.
    split.
    - apply Rmult_le_reg_r with (IZR (Z.pos d)); [assumption|].
      unfold Rdiv. rewrite Rmult_assoc, Rinv_l by lra. lra.
    - apply Rmult_lt_reg_r with (IZR (Z.pos d)); [assumption|].
      unfold Rdiv. rewrite Rmult_assoc, Rinv_l by lra. lra. }
  rewrite Hx. split; intros H.
  - assert (0 <= n)%Z.
    { apply le_IZR. apply Rmult_le_reg_r with (/ IZR (Z.pos d))%R.
      - now apply Rinv_0_lt_compat.
      - rewrite Rmult_0_l. exact H. }
    rewrite Z.quot_div_nonneg by lia. now apply Hsign.
  - assert (n <= 0)%Z.
    { apply le_IZR. apply Rmult_le_reg_r with (/ IZR (Z.pos d))%R.
      - now apply Rinv_0_lt_compat.
      - rewrite Rmult_0_l. exact H. }
    replace n with (- - n)%Z by lia.
    rewrite Z.quot_opp_l by lia. rewrite Z.quot_div_nonneg by lia.
    rewrite !opp_IZR.
    specialize (Hsign (- n)%Z ltac:(lia)). rewrite opp_IZR in Hsign.
    unfold Rdiv in *. lra.
Qed.

#[global] Instance Q_exact : ExactLaws Q.
Proof.
  constructor; unfold toR, Q_view; cbn [fadd fsub fmul fquo fabs flt fle feq
    of_Z ftrunc flt_inf Exact.num].
  - intros x y. unfold Exact.add.
    destruct (Exact.is0 y) eqn:Ey; [rewrite (Q2R_is0 _ Ey); lra|].
    destruct (Exact.is0 x) eqn:Ex; [rewrite (Q2R_is0 _ Ex); lra|].
    now rewrite Q2R_Qred, Q2R_plus.
  - intros x y. unfold Exact.sub.
    destruct (Exact.is0 y) eqn:Ey; [rewrite (Q2R_is0 _ Ey); lra|].
    now rewrite Q2R_Qred, Q2R_minus.
  - intros x y. unfold Exact.mul.
    destruct (Exact.is0 x) eqn:Ex; cbn [orb].
    { rewrite (Q2R_is0 _ Ex), RMicromega.Q2R_0. lra. }
    destruct (Exact.is0 y) eqn:Ey.
    { rewrite (Q2R_is0 _ Ey), RMicromega.Q2R_0. lra. }
    now rewrite Q2R_Qred, Q2R_mult.
  - intros x y Hy. unfold Exact.quo.
    rewrite Q2R_Qred. apply Q2R_div. now apply Q2R_nonzero.
  - apply Q2R_abs.
  - apply Q2R_inject_Z.
  - intros x y. rewrite negb_true_iff. split.
    + intros H. apply Qlt_Rlt. apply Qnot_le_lt. intros Hle.
      apply Qle_bool_iff in Hle. congruence.
    + intros H. apply Rlt_Qlt in H.
      destruct (Qle_bool y x) eqn:E; [|reflexivity].
      apply Qle_bool_iff in E. exfalso. now apply (Qlt_not_le _ _ H).
  - intros x y. rewrite Qle_bool_iff. split; [apply Qle_Rle | apply Rle_Qle].
  - intros x y. rewrite Qeq_bool_iff. split; [apply Qeq_eqR | apply eqR_Qeq].
  - reflexivity.
  - apply Q_trunc_spec.
Qed.

Lemma R_trunc_spec (x : R) :
  exists z : Z,
    Ideal.trunc x = Ret z
    /\ ((0 <= x)%R -> (IZR z <= x < IZR z + 1)%R)
    /\ ((x <= 0)%R -> (IZR z - 1 < x <= IZR z)%R).
Proof.
  unfold Ideal.trunc. eexists. split; [reflexivity|].
  destruct (Rle_dec 0 x) as [Hpos|Hneg].
  - pose proof (base_Int_part x) as [H1 H2]. split; intros H; [lra|].
    assert (Hz : Int_part x = 0%Z).
    { assert (-1 < Int_part x)%Z by (apply lt_IZR; lra).
      assert (Int_part x <= 0)%Z by (apply le_IZR; lra). lia. }
    rewrite Hz. lra.
  - pose proof (base_Int_part (- x)) as [H1 H2]. rewrite opp_IZR.
    split; intros H; lra.
Qed.

#[global] Instance R_exact : ExactLaws R.
Proof.
  constructor; unfold toR, Ideal.view; cbn [fadd fsub fmul fquo fabs flt fle feq
    of_Z ftrunc flt_inf Ideal.num]; try reflexivity.
  - intros x y. destruct (Rlt_dec x y); split; auto; discriminate.
  - intros x y. destruct (Rle_dec x y); split; auto; discriminate.
  - intros x y. destruct (Req_dec_T x y); split; auto; discriminate.
  - apply R_trunc_spec.
Qed.

(* ================================================================== *)
(** * The error monad *)

Lemma bind_ret_inv {A B} (m : result A) (k : A -> result B) (b : B) :
  bind m k = Ret b -> exists a, m = Ret a /\ k a = Ret b.
Proof. destruct m as [a|e]; cbn; [eauto | discriminate]. Qed.

Ltac bind_inv H :=
  let a := fresh "a" in
  let Ha := fresh "H" a in
  apply bind_ret_inv in H; destruct H as (a & Ha & H).

Tactic Notation "unbind" hyp(H) "as" ident(x) ident(Hx) :=
  apply bind_ret_inv in H; destruct H as (x & Hx & H).

Lemma getitem_inv {A} (l : list A) (i : Z) (x d : A) :
  getitem l i = Ret x ->
  exists k, py_index l i = Ret k /\ (k < length l)%nat /\ x = nth k l d.
Proof.
  unfold getitem. intros H. bind_inv H. exists a. split; [assumption|].
  destruct (nth_error l a) as [y|] eqn:E; [|discriminate].
  inversion H; subst. split.
  - apply nth_error_Some. congruence.
  - symmetry. now apply nth_error_nth.
Qed.

Lemma setitem_inv {A} (l l' : list A) (i : Z) (v : A) :
  setitem l i v = Ret l' -> exists k, py_index l i = Ret k /\ l' = upd k v l.
Proof.
  unfold setitem. intros H. bind_inv H. exists a. split; [assumption|].
  now inversion H.
Qed.

(* ================================================================== *)
(** * Exact arithmetic: basic facts *)

Lemma Rsum_app (l1 l2 : list R) : Rsum (l1 ++ l2) = (Rsum l1 + Rsum l2)%R.
Proof.
  unfold Rsum. induction l1 as [|x l IH]; cbn [app fold_right]; lra.
Qed.

Lemma Rsum_cons (x : R) (l : list R) : Rsum (x :: l) = (x + Rsum l)%R.
Proof. reflexivity. Qed.

Section ExactFacts.

Context {F : Type} {N : PyNum F} {V : RealView F} {E : ExactLaws F}.

Lemma toR_zero : toR (zero : F) = 0%R.
Proof. unfold zero. now rewrite toR_of_Z. Qed.

Lemma toR_lit (m : Z) (k : nat) :
  toR (lit m k : F) = (IZR m / IZR (10 ^ Z.of_nat k))%R.
Proof.
  assert (Hp : (0 < 10 ^ Z.of_nat k)%Z) by (apply Z.pow_pos_nonneg; lia).
  unfold lit. destruct k as [|k].
  - rewrite toR_of_Z. change (10 ^ Z.of_nat 0)%Z with 1%Z. lra.
  - rewrite toR_quo; rewrite !toR_of_Z; [reflexivity|].
    apply not_0_IZR. lia.
Qed.

Lemma toR_prw : toR (prw : F) = (25 / 100)%R.
Proof. unfold prw. now rewrite toR_lit. Qed.

Lemma toR_pmr : toR (pmr : F) = (1 / 10000)%R.
Proof. unfold pmr. now rewrite toR_lit. Qed.

Lemma toR_prt : toR (prt : F) = (5 / 100)%R.
Proof. unfold prt. now rewrite toR_lit. Qed.

Lemma fdiv_ret (x y q : F) :
  fdiv x y = Ret q -> toR y <> 0%R /\ q = fquo x y /\ toR q = (toR x / toR y)%R.
Proof.
  unfold fdiv. destruct (feq y zero) eqn:Ey; [discriminate|].
  intros H. inversion H; subst.
  assert (Hy : toR y <> 0%R).
  { intros Hz. rewrite <- toR_zero in Hz. apply feq_spec in Hz. congruence. }
  repeat split; [assumption|]. now apply toR_quo.
Qed.

Lemma fdiv_ok (x y : F) : toR y <> 0%R -> fdiv x y = Ret (fquo x y).
Proof.
  intros Hy. unfold fdiv. destruct (feq y zero) eqn:Ey; [|reflexivity].
  apply feq_spec in Ey. rewrite toR_zero in Ey. contradiction.
Qed.

Lemma fdiv_zero (x y : F) : toR y = 0%R -> fdiv x y = Raise ZeroDivisionError.
Proof.
  intros Hy. unfold fdiv. rewrite <- toR_zero in Hy. apply feq_spec in Hy.
  now rewrite Hy.
Qed.

Lemma toR_fold_add (l : list F) (a : F) :
  toR (fold_left fadd l a) = (toR a + Rsum (map toR l))%R.
Proof.
  revert a. induction l as [|x l IH]; intros a; cbn [fold_left map].
  - cbn. lra.
  - rewrite IH, toR_add, Rsum_cons. lra.
Qed.

Lemma toR_sum (l : list F) : toR (sum l) = Rsum (map toR l).
Proof. unfold sum. rewrite toR_fold_add, toR_zero. lra. Qed.

Lemma ftrunc_of_Z (z : Z) : ftrunc (of_Z z : F) = Ret z.
Proof.
  destruct (ftrunc_spec (of_Z z : F)) as (t & Ht & Hpos & Hneg).
  rewrite Ht. f_equal. rewrite toR_of_Z in Hpos, Hneg.
  destruct (Z_le_gt_dec 0 z) as [Hz|Hz].
  - destruct (Hpos (IZR_le _ _ Hz)) as [H1 H2].
    apply le_IZR in H1. rewrite <- plus_IZR in H2. apply lt_IZR in H2. lia.
  - assert (Hz' : (z <= 0)%Z) by lia.
    destruct (Hneg (IZR_le _ _ Hz')) as [H1 H2].
    apply le_IZR in H2. rewrite <- minus_IZR in H1. apply lt_IZR in H1. lia.
Qed.

Lemma feq_refl (x : F) : feq x x = true.
Proof. now apply feq_spec. Qed.

End ExactFacts.

(* ================================================================== *)
(** * The denomination voter *)

Section VoterLoop.

Context {F : Type} {N : PyNum F}.

Lemma vote_ret (rough : Z) (mr : list F) (n : F) (op op' : list F) (u : Z) :
  vote rough mr n op u = Ret op' ->
  rough <> 0%Z
  /\ op' = op ++ map price
             (filter (fun nu => in_band rough (fst nu) (snd nu) && ok mr (fst nu))
                     [(n, u)]).
Proof.
  unfold vote, int_truediv. destruct (Z.eqb_spec rough 0) as [|Hr]; [discriminate|].
  cbn [bind filter fst snd]. unfold in_band.
  destruct (_ && _); cbn [andb].
  - destruct (ok mr n); cbn [map app].
    + unfold fdiv. destruct (feq n zero); [discriminate|].
      intros H. inversion H. now split.
    + intros H. inversion H. rewrite app_nil_r. now split.
  - intros H. inversion H. cbn [map]. rewrite app_nil_r. now split.
Qed.

Lemma votes_ret (rough : Z) (mr : list F) (n : F) :
  forall us op op',
    for_each us (vote rough mr n) op = Ret op' ->
    op' = op ++ map price
            (filter (fun nu => in_band rough (fst nu) (snd nu) && ok mr (fst nu))
                    (map (pair n) us)).
Proof.
  induction us as [|u us IH]; intros op op' H; cbn [for_each] in H.
  - inversion H. cbn. now rewrite app_nil_r.
  - bind_inv H. apply vote_ret in Ha. destruct Ha as [_ ->].
    apply IH in H. rewrite H, <- app_assoc. f_equal.
    cbn [map filter fst snd].
    destruct (_ && _); reflexivity.
Qed.

(** The voter's output is the list of prices of the surviving pairs. *)
Lemma voter_ret (rough : Z) (mr : list F) :
  forall raw op0 op,
    for_each raw (fun op n => for_each usds (vote rough mr n) op) op0 = Ret op ->
    op = op0 ++ map price (survivors rough mr raw).
Proof.
  unfold survivors.
  induction raw as [|n raw IH]; intros op0 op H; cbn [for_each] in H.
  - inversion H. cbn. now rewrite app_nil_r.
  - bind_inv H. apply votes_ret in Ha. apply IH in H.
    rewrite H, Ha, <- app_assoc. f_equal.
    cbn [list_prod]. now rewrite filter_app, map_app.
Qed.

Lemma voter_survivors (rough : Z) (mr raw op : list F) :
  voter rough mr raw = Ret op -> op = map price (survivors rough mr raw).
Proof. intros H. now apply voter_ret in H. Qed.

Lemma voter_rough_nonzero (rough : Z) (mr raw op : list F) :
  voter rough mr raw = Ret op -> raw <> [] -> rough <> 0%Z.
Proof.
  unfold voter. destruct raw as [|n raw]; [congruence|]. intros H _.
  cbn [for_each] in H. bind_inv H. unfold usds in Ha. cbn [for_each] in Ha.
  bind_inv Ha. now apply vote_ret in Ha0.
Qed.

End VoterLoop.

Section VoterExact.

Context {F : Type} {N : PyNum F} {V : RealView F} {E : ExactLaws F}.

Lemma near_round_spec (n r : F) :
  near_round n r = true
  <-> (toR r * (1 - 1 / 10000) < toR n < toR r * (1 + 1 / 10000))%R.
Proof.
  unfold near_round. rewrite andb_true_iff, !flt_spec.
  rewrite toR_sub, toR_add, toR_mul, toR_pmr. split; intros [H1 H2]; lra.
Qed.

Lemma usds_pos (u : Z) : In u usds -> (0 < u)%Z.
Proof. unfold usds. cbn [In]. intuition lia. Qed.

(** A pair inside the band has a positive value when [rough] is not zero. *)
Lemma in_band_pos (rough : Z) (n : F) (u : Z) :
  rough <> 0%Z -> (0 < u)%Z -> in_band rough n u = true -> (0 < toR n)%R.
Proof.
  intros Hr Hu. unfold in_band. rewrite andb_true_iff, !flt_spec.
  rewrite toR_sub, toR_add, toR_mul, toR_prw.
  rewrite toR_quo by (rewrite toR_of_Z; now apply not_0_IZR).
  rewrite !toR_of_Z. intros [Hlo Hhi].
  assert (Hu' : (0 < IZR u)%R) by now apply IZR_lt.
  destruct (Z_lt_le_dec 0 rough) as [Hpos|Hneg].
  - assert (0 < IZR rough)%R by now apply IZR_lt.
    assert (0 < IZR u / IZR rough)%R by now apply Rdiv_lt_0_compat.
    lra.
  - assert (IZR rough < 0)%R by (apply IZR_lt; lia).
    assert (IZR u / IZR rough < 0)%R.
    { unfold Rdiv. apply Rmult_pos_neg; [assumption|].
      now apply Rinv_lt_0_compat. }
    lra.
Qed.

Lemma survivors_positive (rough : Z) (mr raw : list F) :
  rough <> 0%Z ->
  Forall (fun p => (0 < toR p)%R) (map price (survivors rough mr raw)).
Proof.
  intros Hr. apply Forall_forall. intros p Hp.
  apply in_map_iff in Hp. destruct Hp as ([n u] & <- & Hin).
  unfold survivors in Hin. apply filter_In in Hin. destruct Hin as [Hin Hf].
  apply in_prod_iff in Hin. destruct Hin as [_ Hu]. apply usds_pos in Hu.
  cbn [fst snd] in Hf. apply andb_true_iff in Hf. destruct Hf as [Hband _].
  pose proof (in_band_pos rough n u Hr Hu Hband) as Hn.
  unfold price. cbn [fst snd]. rewrite toR_quo by lra. rewrite toR_of_Z.
  apply Rdiv_lt_0_compat; [now apply IZR_lt | assumption].
Qed.

Lemma voter_positive (rough : Z) (mr raw op : list F) :
  voter rough mr raw = Ret op -> Forall (fun p => (0 < toR p)%R) op.
Proof.
  intros H. destruct raw as [|n raw].
  - inversion H. constructor.
  - pose proof (voter_rough_nonzero _ _ _ _ H ltac:(discriminate)) as Hr.
    rewrite (voter_survivors _ _ _ _ H). now apply survivors_positive.
Qed.

(** With no candidate every window is empty and the refiner returns
    [float(rough)], whose integer part is [rough]. *)
Lemma fco_nil (rough : Z) (pmin pmax : F) :
  fco rough [] pmin pmax = (of_Z rough, zero).
Proof. reflexivity. Qed.

Lemma converge_S (rough : Z) (op : list F) (rounds : nat) (cp2 : F)
  (avset : list F) :
  converge rough op (S rounds) cp2 avset
  = if seen (resplit rough op cp2) avset then resplit rough op cp2
    else converge rough op rounds (resplit rough op cp2)
           (resplit rough op cp2 :: avset).
Proof. reflexivity. Qed.

Lemma refine_nil (rough : Z) : refine rough ([] : list F) = of_Z rough.
Proof.
  unfold refine, first_split. rewrite fco_nil. cbn [fst].
  rewrite converge_S. unfold resplit. rewrite fco_nil. cbn [fst seen existsb].
  now rewrite feq_refl.
Qed.

Lemma final_price_nil (rough : Z) : final_price rough ([] : list F) = Ret rough.
Proof. unfold final_price. rewrite refine_nil. apply ftrunc_of_Z. Qed.

End VoterExact.


Lemma calc_price_ret {F : Type} {N : PyNum F} (L : Libm F) (raw : list F)
  (hs ts : list Z) (r : Z * Z * nat * F * F) :
  calc_price L raw hs ts = Ret r ->
  exists h bc cs rough mr0 op final,
    histogram L (bins L) raw = Ret h
    /\ condition h = Ret (bc, cs)
    /\ shift_detect L (bins L) bc = Ret rough
    /\ mr = Ret mr0
    /\ voter rough mr0 raw = Ret op
    /\ final_price rough op = Ret final
    /\ r = (final, rough, length op, sum h, cs).
Proof.
  unfold calc_price. cbv zeta.
  destruct (histogram L (bins L) raw) as [h|] eqn:Eh; cbn [bind]; [|discriminate 1].
  destruct (condition h) as [[bc cs]|] eqn:Ec; cbn [bind]; [|discriminate 1].
  destruct (shift_detect L (bins L) bc) as [rough|] eqn:Es; cbn [bind];
    [|discriminate 1].
  destruct mr as [mr0|] eqn:Em; cbn [bind]; [|discriminate 1].
  destruct (voter rough mr0 raw) as [op|] eqn:Ev; cbn [bind]; [|discriminate 1].
  destruct (final_price rough op) as [final|] eqn:Ef; cbn [bind]; [|discriminate 1].
  intros H. injection H as <-.
  exists h, bc, cs, rough, mr0, op, final. repeat split; assumption.
Qed.


(* ================================================================== *)
(** * The histogram builder counts every value once *)

Section Counting.

Context {F : Type} {N : PyNum F}.

(** A step that returns has added 1.0 to one bin and left the others. *)
Lemma hist_step_ret (L : Libm F) (edges bc bc' : list F) (a : F) :
  hist_step L edges bc a = Ret bc' ->
  exists k, (k < length bc)%nat
            /\ bc' = upd k (fadd (nth k bc zero) (lit 1 0)) bc.
Proof.
  unfold hist_step. cbv zeta. intros H.
  unbind H as al Hal. unbind H as be Hbe. unbind H as be' Hscan.
  unbind H as c Hc.
  apply (getitem_inv _ _ _ zero) in Hc. destruct Hc as (k & Hk & Hlt & ->).
  apply setitem_inv in H. destruct H as (k' & Hk' & ->).
  rewrite Hk in Hk'. injection Hk' as <-. now exists k.
Qed.

Lemma histogram_length (L : Libm F) (edges : list F) :
  forall raw bc0 bc,
    for_each raw (hist_step L edges) bc0 = Ret bc -> length bc = length bc0.
Proof.
  induction raw as [|a raw IH]; intros bc0 bc H; cbn [for_each] in H.
  - now injection H as <-.
  - unbind H as bc1 Hstep. apply hist_step_ret in Hstep. destruct Hstep as (k & _ & ->).
    rewrite (IH _ _ H). apply upd_length.
Qed.

Context {V : RealView F} {E : ExactLaws F}.

Lemma Rsum_upd (k : nat) (v : F) (l : list F) :
  (k < length l)%nat ->
  Rsum (map toR (upd k v l))
  = (Rsum (map toR l) - toR (nth k l zero) + toR v)%R.
Proof.
  revert k. induction l as [|x l IH]; intros [|k] H; cbn [length] in H; try lia.
  - cbn [upd map nth]. rewrite !Rsum_cons. lra.
  - cbn [upd map nth]. rewrite !Rsum_cons, IH by lia. lra.
Qed.

Lemma Rsum_repeat_zero (n : nat) : Rsum (map toR (repeat (zero : F) n)) = 0%R.
Proof.
  induction n as [|n IH]; cbn [repeat map]; [reflexivity|].
  rewrite Rsum_cons, IH, toR_zero. lra.
Qed.

Lemma histogram_sum (L : Libm F) (edges : list F) :
  forall raw bc0 bc,
    for_each raw (hist_step L edges) bc0 = Ret bc ->
    Rsum (map toR bc) = (Rsum (map toR bc0) + INR (length raw))%R.
Proof.
  induction raw as [|a raw IH]; intros bc0 bc H; cbn [for_each] in H.
  - injection H as <-. cbn [length INR]. lra.
  - unbind H as bc1 Hstep. apply hist_step_ret in Hstep. destruct Hstep as (k & Hk & ->).
    rewrite (IH _ _ H), Rsum_upd by assumption.
    rewrite toR_add, toR_lit. change (length (a :: raw)) with (S (length raw)).
    rewrite S_INR. change (10 ^ Z.of_nat 0)%Z with 1%Z. lra.
Qed.

Lemma nonneg_upd (k : nat) (v : F) (l : list F) :
  (0 <= toR v)%R ->
  Forall (fun x => (0 <= toR x)%R) l ->
  Forall (fun x => (0 <= toR x)%R) (upd k v l).
Proof.
  intros Hv Hl. revert k. induction Hl as [|x l Hx Hl IH]; intros [|k];
    cbn [upd]; constructor; auto.
Qed.

Lemma nonneg_nth (k : nat) (l : list F) :
  Forall (fun x => (0 <= toR x)%R) l -> (0 <= toR (nth k l zero))%R.
Proof.
  intros Hl. destruct (Nat.lt_ge_cases k (length l)) as [Hk|Hk].
  - rewrite Forall_forall in Hl. apply Hl. now apply nth_In.
  - rewrite nth_overflow by assumption. rewrite toR_zero. lra.
Qed.

Lemma histogram_nonneg (L : Libm F) (edges : list F) :
  forall raw bc0 bc,
    for_each raw (hist_step L edges) bc0 = Ret bc ->
    Forall (fun x => (0 <= toR x)%R) bc0 ->
    Forall (fun x => (0 <= toR x)%R) bc.
Proof.
  induction raw as [|a raw IH]; intros bc0 bc H H0; cbn [for_each] in H.
  - now injection H as <-.
  - unbind H as bc1 Hstep. apply hist_step_ret in Hstep. destruct Hstep as (k & Hk & ->).
    apply (IH _ _ H). apply nonneg_upd; [|assumption].
    rewrite toR_add, toR_lit. pose proof (nonneg_nth k bc0 H0).
    change (10 ^ Z.of_nat 0)%Z with 1%Z. lra.
Qed.

Lemma nonneg_repeat_zero (n : nat) :
  Forall (fun x => (0 <= toR x)%R) (repeat (zero : F) n).
Proof.
  apply Forall_forall. intros x Hx. apply repeat_spec in Hx. subst.
  rewrite toR_zero. lra.
Qed.

End Counting.


(* ================================================================== *)
(** * Loops that always return *)

Lemma for_each_total {A S} (P : S -> Prop) (xs : list A)
  (f : S -> A -> result S) :
  (forall s x, In x xs -> P s -> exists s', f s x = Ret s' /\ P s') ->
  forall s, P s -> exists s', for_each xs f s = Ret s' /\ P s'.
Proof.
  induction xs as [|x xs IH]; intros H s Hs; cbn [for_each].
  - now exists s.
  - destruct (H s x (or_introl eq_refl) Hs) as (s1 & E1 & H1).
    rewrite E1. cbn [bind]. apply IH; [|assumption].
    intros s0 y Hy. apply H. now right.
Qed.

Lemma range_snoc (lo hi : Z) :
  (lo <= hi)%Z -> range lo (hi + 1) = range lo hi ++ [hi].
Proof.
  intros H. unfold range.
  replace (Z.to_nat (hi + 1 - lo)) with (Z.to_nat (hi - lo) + 1)%nat by lia.
  rewrite seq_app, map_app. cbn [seq map]. do 2 f_equal. lia.
Qed.

Lemma upd_upd {A} (k : nat) (x y : A) (l : list A) :
  upd k x (upd k y l) = upd k x l.
Proof.
  revert k. induction l as [|z l IH]; intros [|k]; cbn [upd]; auto.
  now rewrite IH.
Qed.

Lemma nth_slice {A} (l : list A) (lo hi i : nat) (d : A) :
  (i < hi - lo)%nat -> nth i (slice l lo hi) d = nth (lo + i) l d.
Proof.
  intros H. unfold slice. rewrite nth_firstn.
  replace (i <? hi - lo)%nat with true by (symmetry; now apply Nat.ltb_lt).
  apply nth_skipn.
Qed.

Lemma length_slice {A} (l : list A) (lo hi : nat) :
  (hi <= length l)%nat -> length (slice l lo hi) = (hi - lo)%nat.
Proof.
  intros H. unfold slice. rewrite length_firstn, length_skipn. lia.
Qed.

Lemma Rsum_le_nth (l1 l2 : list R) :
  length l1 = length l2 ->
  (forall i, (i < length l1)%nat -> (nth i l1 0 <= nth i l2 0)%R) ->
  (Rsum l1 <= Rsum l2)%R.
Proof.
  revert l2. induction l1 as [|x l1 IH]; intros [|y l2] Hlen H;
    cbn [length] in Hlen; try discriminate.
  - apply Rle_refl.
  - rewrite !Rsum_cons.
    pose proof (H O ltac:(cbn; lia)) as H0. cbn [nth] in H0.
    assert (Rsum l1 <= Rsum l2)%R.
    { apply IH; [lia|]. intros i Hi. apply (H (S i)). cbn. lia. }
    lra.
Qed.

Lemma Rsum_scale (c : R) (l : list R) :
  Rsum (map (fun x => x / c)%R l) = (Rsum l / c)%R.
Proof.
  induction l as [|x l IH]; cbn [map].
  - unfold Rsum. cbn. lra.
  - rewrite !Rsum_cons, IH. lra.
Qed.

(* ================================================================== *)
(** * The conditioner *)

Section Conditioner.

Context {F : Type} {N : PyNum F} {V : RealView F} {E : ExactLaws F}.

Let nonneg (l : list F) : Prop := Forall (fun x => (0 <= toR x)%R) l.

Lemma repaired_bins_range (r : Z) : In r repaired_bins -> (201 <= r <= 1201)%Z.
Proof. unfold repaired_bins. cbn [In]. intuition lia. Qed.

Lemma zero_bin_total (bc : list F) (n : Z) :
  (0 <= n < Z.of_nat (length bc))%Z -> nonneg bc ->
  exists bc', zero_bin bc n = Ret bc'
              /\ length bc' = length bc /\ nonneg bc'.
Proof.
  intros Hn Hbc. unfold zero_bin. rewrite setitem_ok by assumption.
  eexists. split; [reflexivity|]. split; [apply upd_length|].
  apply nonneg_upd; [rewrite toR_zero; lra | assumption].
Qed.

Lemma repair_total (bc : list F) (r : Z) :
  (1 <= r)%Z -> (r + 1 < Z.of_nat (length bc))%Z -> nonneg bc ->
  exists bc', repair bc r = Ret bc'
              /\ length bc' = length bc /\ nonneg bc'.
Proof.
  intros H1 H2 Hbc. unfold repair.
  rewrite (getitem_ok bc (r + 1) zero) by lia. cbn [bind].
  rewrite (getitem_ok bc (r - 1) zero) by lia. cbn [bind].
  rewrite setitem_ok by lia.
  eexists. split; [reflexivity|]. split; [apply upd_length|].
  apply nonneg_upd; [|assumption].
  rewrite toR_mul, toR_add, toR_lit.
  pose proof (nonneg_nth (Z.to_nat (r + 1)) bc Hbc).
  pose proof (nonneg_nth (Z.to_nat (r - 1)) bc Hbc).
  change (IZR 5 / IZR (10 ^ Z.of_nat 1))%R with (5 / 10)%R.
  apply Rmult_le_pos; lra.
Qed.

Lemma prepare_total (bc : list F) :
  length bc = 2401%nat -> nonneg bc ->
  exists rep, prepare bc = Ret rep /\ length rep = 2401%nat /\ nonneg rep.
Proof.
  intros Hlen Hbc. unfold prepare. cbv zeta.
  set (P := fun l : list F => length l = 2401%nat /\ nonneg l).
  assert (H1 : exists bc1, for_each (range 0 201) zero_bin bc = Ret bc1 /\ P bc1).
  { apply for_each_total; [|now split].
    intros s x Hx [Hs1 Hs2]. apply In_range in Hx.
    destruct (zero_bin_total s x) as (s' & E' & L' & N'); [lia|assumption|].
    exists s'. split; [assumption|]. split; [congruence|assumption]. }
  destruct H1 as (bc1 & E1 & P1). rewrite E1. cbn [bind].
  assert (H2 : exists bc2, for_each (range 1601 (Z.of_nat (length bc))) zero_bin bc1
                           = Ret bc2 /\ P bc2).
  { apply for_each_total; [|assumption].
    intros s x Hx [Hs1 Hs2]. apply In_range in Hx.
    destruct (zero_bin_total s x) as (s' & E' & L' & N'); [lia|assumption|].
    exists s'. split; [assumption|]. split; [congruence|assumption]. }
  destruct H2 as (bc2 & E2 & P2). rewrite E2. cbn [bind].
  assert (H3 : exists bc3, for_each repaired_bins repair bc2 = Ret bc3 /\ P bc3).
  { apply for_each_total; [|assumption].
    intros s x Hx [Hs1 Hs2]. apply repaired_bins_range in Hx.
    destruct (repair_total s x) as (s' & E' & L' & N'); [lia|lia|assumption|].
    exists s'. split; [assumption|]. split; [congruence|assumption]. }
  destruct H3 as (bc3 & E3 & P3 & P3'). now exists bc3.
Qed.

Lemma toR_cap (q : F) : toR (cap q) = Rmin (toR q) (8 / 1000).
Proof.
  unfold cap. destruct (flt (lit 8 3) q) eqn:Eq.
  - apply flt_spec in Eq. rewrite toR_lit in *.
    change (IZR (10 ^ Z.of_nat 3)) with 1000%R in *.
    rewrite Rmin_right; lra.
  - assert (~ (toR (lit 8 3 : F) < toR q)%R).
    { intros H. apply flt_spec in H. congruence. }
    rewrite toR_lit in H. change (IZR (10 ^ Z.of_nat 3)) with 1000%R in H.
    rewrite Rmin_left; lra.
Qed.

Lemma normalize_bin_ok (cs : F) (bc : list F) (n : Z) :
  toR cs <> 0%R -> (0 <= n < Z.of_nat (length bc))%Z ->
  normalize_bin cs bc n
  = Ret (upd (Z.to_nat n) (cap (fquo (nth (Z.to_nat n) bc zero) cs)) bc).
Proof.
  intros Hcs Hn. unfold normalize_bin.
  rewrite (getitem_ok bc n zero) by assumption. cbn [bind].
  rewrite fdiv_ok by assumption. cbn [bind].
  rewrite setitem_ok by assumption. cbn [bind].
  rewrite (getitem_ok _ n zero) by (rewrite upd_length; assumption). cbn [bind].
  rewrite nth_upd_same by lia. unfold cap.
  destruct (flt (lit 8 3) _).
  - rewrite setitem_ok by (rewrite upd_length; assumption). now rewrite upd_upd.
  - reflexivity.
Qed.

(** The loop of lines 54-56 over [lo, hi): the bins in the range are
    divided by [cs] and capped, the others are untouched. *)
Lemma normalize_loop (cs : F) (rep : list F) (lo : Z) :
  toR cs <> 0%R -> (0 <= lo)%Z ->
  forall k : nat,
    (lo + Z.of_nat k <= Z.of_nat (length rep))%Z ->
    exists bc,
      for_each (range lo (lo + Z.of_nat k)) (normalize_bin cs) rep = Ret bc
      /\ length bc = length rep
      /\ forall j : nat,
           nth j bc zero
           = if ((lo <=? Z.of_nat j) && (Z.of_nat j <? lo + Z.of_nat k))%Z
             then cap (fquo (nth j rep zero) cs)
             else nth j rep zero.
Proof.
  intros Hcs Hlo. induction k as [|k IH]; intros Hk.
  - exists rep. replace (lo + Z.of_nat 0)%Z with lo by lia.
    unfold range. rewrite Z.sub_diag. cbn [Z.to_nat seq map for_each].
    split; [reflexivity|]. split; [reflexivity|].
    intros j. replace ((lo <=? Z.of_nat j) && (Z.of_nat j <? lo))%Z with false;
      [reflexivity|].
    symmetry. apply andb_false_iff.
    destruct (Z.leb_spec lo (Z.of_nat j)); [right; apply Z.ltb_ge; lia | now left].
  - destruct IH as (bc & Ebc & Lbc & Hbc); [lia|].
    replace (lo + Z.of_nat (S k))%Z with (lo + Z.of_nat k + 1)%Z by lia.
    rewrite range_snoc by lia. rewrite for_each_app, Ebc. cbn [bind for_each].
    rewrite normalize_bin_ok by (try assumption; lia). cbn [bind].
    eexists. split; [reflexivity|]. split; [now rewrite upd_length|].
    intros j. rewrite nth_upd by lia.
    destruct (Nat.eqb_spec j (Z.to_nat (lo + Z.of_nat k))) as [->|Hne].
    + rewrite Hbc.
      replace ((lo <=? Z.of_nat (Z.to_nat (lo + Z.of_nat k)))
               && (Z.of_nat (Z.to_nat (lo + Z.of_nat k)) <? lo + Z.of_nat k))%Z
        with false
        by (symmetry; apply andb_false_iff; right; apply Z.ltb_ge; lia).
      replace ((lo <=? Z.of_nat (Z.to_nat (lo + Z.of_nat k)))
               && (Z.of_nat (Z.to_nat (lo + Z.of_nat k)) <? lo + Z.of_nat k + 1))%Z
        with true
        by (symmetry; apply andb_true_iff; split;
            [apply Z.leb_le | apply Z.ltb_lt]; lia).
      reflexivity.
    + rewrite Hbc.
      replace (Z.of_nat j <? lo + Z.of_nat k + 1)%Z
        with (Z.of_nat j <? lo + Z.of_nat k)%Z; [reflexivity|].
      destruct (Z.ltb_spec (Z.of_nat j) (lo + Z.of_nat k));
        destruct (Z.ltb_spec (Z.of_nat j) (lo + Z.of_nat k + 1)); auto; lia.
Qed.

End Conditioner.

Lemma bins_length {F : Type} {N : PyNum F} (L : Libm F) :
  length (bins L) = 2401%nat.
Proof. reflexivity. Qed.


(* ================================================================== *)
(** * The rough price is at least 1 *)

Lemma py_index_nonneg_inv {A} (l : list A) (i : Z) (k : nat) :
  (0 <= i)%Z -> py_index l i = Ret k -> k = Z.to_nat i /\ (k < length l)%nat.
Proof.
  intros Hi. unfold py_index.
  destruct ((0 <=? i) && (i <? Z.of_nat (length l)))%Z eqn:E1.
  - apply andb_true_iff in E1. destruct E1 as [_ E1]. apply Z.ltb_lt in E1.
    intros H. injection H as <-. lia.
  - replace ((- Z.of_nat (length l) <=? i) && (i <? 0))%Z with false;
      [discriminate|].
    symmetry. apply andb_false_iff. right. apply Z.ltb_ge. lia.
Qed.

Lemma slice_In {A} (l : list A) (lo hi k : nat) (d : A) :
  (lo <= k < hi)%nat -> (k < length l)%nat -> In (nth k l d) (slice l lo hi).
Proof.
  intros Hk Hl. unfold slice.
  replace (nth k l d) with (nth (k - lo) (firstn (hi - lo) (skipn lo l)) d).
  - apply nth_In. rewrite length_firstn, length_skipn. lia.
  - rewrite nth_firstn.
    replace (k - lo <? hi - lo)%nat with true by (symmetry; apply Nat.ltb_lt; lia).
    rewrite nth_skipn. f_equal. lia.
Qed.

Section RoughPrice.

Context {F : Type} {N : PyNum F} {V : RealView F} {E : ExactLaws F}.

(** After any number of shifts, [bss] is at least every score added to
    [ts], and [bsl] is 0 or one of the shifts visited. *)
Lemma shift_loop_inv (ss sp : list F) (lp : Z) (bc : list F) :
  forall xs bsl bss ts bsl' bss' ts',
    (forall x, In x xs -> (-141 <= x <= 200)%Z) ->
    for_each xs (shift_step ss sp lp bc) (bsl, bss, ts) = Ret (bsl', bss', ts') ->
    ((-141 <= bsl <= 200)%Z -> (-141 <= bsl' <= 200)%Z)
    /\ (toR bss <= toR bss')%R
    /\ (toR ts' <= toR ts + INR (length xs) * toR bss')%R.
Proof.
  induction xs as [|x xs IH]; intros bsl bss ts bsl' bss' ts' Hxs H;
    cbn [for_each] in H.
  - injection H as <- <- <-. cbn [length INR]. split; [auto|]. split; lra.
  - unbind H as st1 Hstep. destruct st1 as [[bsl1 bss1] ts1].
    unfold shift_step in Hstep. unbind Hstep as k Hk. destruct k as [sss sco].
    set (sco' := if (x <? 150)%Z then fadd sco (fmul sss (lit 65 2)) else sco)
      in Hstep.
    destruct (flt bss sco') eqn:Elt; injection Hstep as <- <- <-.
    + apply flt_spec in Elt.
      destruct (IH _ _ _ _ _ _ (fun y Hy => Hxs y (or_intror Hy)) H)
        as (Hb & Hs & Ht).
      change (length (x :: xs)) with (S (length xs)). rewrite S_INR.
      rewrite toR_add in Ht. pose proof (pos_INR (length xs)).
      split; [intros _; apply Hb; apply Hxs; now left|]. split; nra.
    + assert (toR sco' <= toR bss)%R.
      { apply Rnot_lt_le. intros Hc. apply flt_spec in Hc. congruence. }
      destruct (IH _ _ _ _ _ _ (fun y Hy => Hxs y (or_intror Hy)) H)
        as (Hb & Hs & Ht).
      change (length (x :: xs)) with (S (length xs)). rewrite S_INR.
      rewrite toR_add in Ht. pose proof (pos_INR (length xs)).
      split; [assumption|]. split; nra.
Qed.

Lemma best_shift_inv (ss sp : list F) (lp : Z) (bc : list F) (bsl : Z)
  (bss ts : F) :
  best_shift ss sp lp bc = Ret (bsl, bss, ts) ->
  (-141 <= bsl <= 200)%Z /\ (0 <= toR bss)%R /\ (toR ts <= 342 * toR bss)%R.
Proof.
  unfold best_shift. intros H.
  apply shift_loop_inv in H; [|intros x Hx; apply In_range in Hx; lia].
  destruct H as (Hb & Hs & Ht). rewrite toR_zero in Hs, Ht.
  rewrite range_length in Ht.
  change (INR (Z.to_nat (201 - -141))) with (INR 342) in Ht.
  replace (INR 342) with 342%R in Ht by (rewrite INR_IZR_INZ; reflexivity).
  split; [apply Hb; lia|]. split; lra.
Qed.

Lemma blend_ge_1 (bss ts ns bu1 bu2 : F) (rough : Z) :
  (toR ts <= 342 * toR bss)%R -> (1 <= toR bu1)%R -> (1 <= toR bu2)%R ->
  blend bss ts ns bu1 bu2 = Ret rough -> (1 <= rough)%Z.
Proof.
  intros Hts H1 H2. unfold blend. cbv zeta.
  set (avs := fquo ts (of_Z (201 - -141))).
  set (a1 := fsub bss avs). set (a2 := fabs (fsub ns avs)).
  intros H. unbind H as w1 Hw1. unbind H as w2 Hw2.
  apply fdiv_ret in Hw1, Hw2.
  destruct Hw1 as (Hden & _ & Ew1), Hw2 as (_ & _ & Ew2).
  assert (Havs : toR avs = (toR ts / 342)%R).
  { unfold avs. rewrite toR_quo; rewrite toR_of_Z; [reflexivity|].
    apply not_0_IZR. lia. }
  assert (Ha1 : (0 <= toR a1)%R).
  { unfold a1. rewrite toR_sub, Havs. lra. }
  assert (Ha2 : (0 <= toR a2)%R).
  { unfold a2. rewrite toR_abs. apply Rabs_pos. }
  rewrite toR_add in Hden, Ew1, Ew2.
  assert (Hsum : (0 < toR a1 + toR a2)%R) by lra.
  assert (Hw1 : (0 <= toR w1)%R).
  { rewrite Ew1. apply Rmult_le_pos; [assumption|].
    apply Rlt_le. now apply Rinv_0_lt_compat. }
  assert (Hw2 : (0 <= toR w2)%R).
  { rewrite Ew2. apply Rmult_le_pos; [assumption|].
    apply Rlt_le. now apply Rinv_0_lt_compat. }
  assert (Hone : (toR w1 + toR w2 = 1)%R).
  { rewrite Ew1, Ew2. field. lra. }
  destruct (ftrunc_spec (fadd (fmul w1 bu1) (fmul w2 bu2))) as (z & Ez & Hpos & _).
  rewrite Ez in H. injection H as <-.
  rewrite toR_add, !toR_mul in Hpos.
  assert (Hval : (1 <= toR w1 * toR bu1 + toR w2 * toR bu2)%R) by nra.
  destruct (Hpos ltac:(lra)) as [_ Hhi].
  assert (0 < z)%Z; [|lia].
  apply lt_IZR. lra.
Qed.

Lemma anchor_quote (edges : list F) (i : Z) (u bu : F) :
  forallb (fun e => flt zero e && fle e (lit 100 0)) (slice edges 459 803) = true ->
  (459 <= i <= 802)%Z ->
  getitem edges i = Ret u -> fdiv (lit 100 0) u = Ret bu -> (1 <= toR bu)%R.
Proof.
  intros Hall Hi Hu Hbu.
  apply (getitem_inv _ _ _ zero) in Hu. destruct Hu as (k & Hk & Hlt & ->).
  apply py_index_nonneg_inv in Hk; [|lia]. destruct Hk as [-> _].
  rewrite forallb_forall in Hall.
  specialize (Hall _ (slice_In edges 459 803 (Z.to_nat i) zero ltac:(lia) Hlt)).
  apply andb_true_iff in Hall. destruct Hall as [Hlo Hhi].
  apply flt_spec in Hlo. apply fle_spec in Hhi.
  rewrite toR_zero in Hlo. rewrite toR_lit in Hhi.
  apply fdiv_ret in Hbu. destruct Hbu as (_ & _ & ->). rewrite toR_lit.
  change (IZR (10 ^ Z.of_nat 0)) with 1%R in *.
  set (x := toR (nth (Z.to_nat i) edges zero)) in *.
  apply Rmult_le_reg_r with x; [assumption|].
  replace (100 / 1 / x * x)%R with 100%R by (field; lra). lra.
Qed.

End RoughPrice.


(* ================================================================== *)
(** * [sorted] *)

Section Sorting.

Context {F : Type} {N : PyNum F}.

Lemma insert_perm (x : F) (l : list F) : Permutation (insert x l) (x :: l).
Proof.
  induction l as [|y l IH]; cbn [insert]; [reflexivity|].
  destruct (flt x y); [reflexivity|].
  rewrite IH. apply perm_swap.
Qed.

Lemma sorted_fold_perm (l acc : list F) :
  Permutation (fold_left (fun acc x => insert x acc) l acc) (l ++ acc).
Proof.
  revert acc. induction l as [|x l IH]; intros acc; cbn [fold_left app].
  - reflexivity.
  - rewrite IH, insert_perm. symmetry. apply Permutation_middle.
Qed.

Lemma sorted_perm (l : list F) : Permutation (sorted l) l.
Proof. unfold sorted. rewrite sorted_fold_perm. now rewrite app_nil_r. Qed.

Context {V : RealView F} {E : ExactLaws F}.

Lemma insert_sorted (x : F) (l : list F) :
  StronglySorted le_F l -> StronglySorted le_F (insert x l).
Proof.
  induction 1 as [|y l Hl IH Hy]; cbn [insert].
  - repeat constructor.
  - destruct (flt x y) eqn:Exy.
    + apply flt_spec in Exy. constructor; [now constructor|].
      constructor; [unfold le_F; lra|].
      eapply Forall_impl; [|exact Hy]. unfold le_F. intros z Hz. lra.
    + assert (Hyx : le_F y x).
      { unfold le_F. apply Rnot_lt_le. intros Hc. apply flt_spec in Hc.
        congruence. }
      constructor; [assumption|].
      apply (Permutation_Forall (x := x :: l)).
      * symmetry. apply insert_perm.
      * now constructor.
Qed.

Lemma sorted_fold_sorted (l acc : list F) :
  StronglySorted le_F acc ->
  StronglySorted le_F (fold_left (fun acc x => insert x acc) l acc).
Proof.
  revert acc. induction l as [|x l IH]; intros acc Hacc; cbn [fold_left].
  - assumption.
  - apply IH. now apply insert_sorted.
Qed.

Lemma sorted_sorted (l : list F) : StronglySorted le_F (sorted l).
Proof. apply sorted_fold_sorted. constructor. Qed.

(** In a sorted list the points before a position are below it and
    the points after it above. *)
Lemma sorted_split (l1 l2 : list F) (x : F) :
  StronglySorted le_F (l1 ++ x :: l2) ->
  Forall (fun y => le_F y x) l1 /\ Forall (fun y => le_F x y) l2.
Proof.
  induction l1 as [|y l1 IH]; cbn [app]; intros H; inversion H; subst.
  - split; [constructor | assumption].
  - destruct (IH H2) as [H1 H1']. split; [|assumption].
    constructor; [|assumption].
    rewrite Forall_forall in H3. apply H3. apply in_or_app. right. now left.
Qed.

End Sorting.

(* ================================================================== *)
(** * The split *)

Section Split.

Context {F : Type} {N : PyNum F} {V : RealView F} {E : ExactLaws F}.

Lemma dev_below (x : F) (l : list F) :
  Forall (fun y => le_F y x) l ->
  Rsum (map (fun y => Rabs (toR y - toR x)) l)
  = (INR (length l) * toR x - Rsum (map toR l))%R.
Proof.
  induction 1 as [|y l Hy Hl IH]; cbn [map length].
  - unfold Rsum. cbn. lra.
  - rewrite !Rsum_cons, IH, S_INR. unfold le_F in Hy.
    rewrite Rabs_left1 by lra. lra.
Qed.

Lemma dev_above (x : F) (l : list F) :
  Forall (fun y => le_F x y) l ->
  Rsum (map (fun y => Rabs (toR y - toR x)) l)
  = (Rsum (map toR l) - INR (length l) * toR x)%R.
Proof.
  induction 1 as [|y l Hy Hl IH]; cbn [map length].
  - unfold Rsum. cbn. lra.
  - rewrite !Rsum_cons, IH, S_INR. unfold le_F in Hy.
    rewrite Rabs_right by lra. lra.
Qed.

(** The prefix sums, read in the reals. *)
Lemma prefix_fold (f : list F) :
  forall k,
    (k <= length f)%nat ->
    let st := fold_left (fun st i =>
                 let '(ps, t) := st in
                 let t := fadd t (nth i f zero) in (upd i t ps, t))
                (seq 0 k) (repeat zero (length f), zero) in
    length (fst st) = length f
    /\ toR (snd st) = Rsum (map toR (firstn k f))
    /\ forall i, (i < k)%nat ->
         toR (nth i (fst st) zero) = Rsum (map toR (firstn (S i) f)).
Proof.
  induction k as [|k IH]; intros Hk; cbv zeta.
  - cbn [seq fold_left fst snd firstn map]. rewrite repeat_length, toR_zero.
    split; [reflexivity|]. split; [reflexivity|]. intros i Hi. lia.
  - rewrite seq_S, fold_left_app. cbn [fold_left Nat.add].
    specialize (IH ltac:(lia)). cbv zeta in IH.
    destruct (fold_left _ (seq 0 k) _) as [ps t]. cbn [fst snd] in *.
    destruct IH as (Hlen & Ht & Hps).
    assert (Hk1 : firstn (S k) f = firstn k f ++ [nth k f zero]).
    { rewrite <- (firstn_skipn k f) at 1.
      rewrite (skipn_nth_cons f k zero) by lia.
      rewrite firstn_app, firstn_firstn, length_firstn.
      replace (Nat.min (S k) k) with k by lia.
      replace (S k - Nat.min k (length f))%nat with 1%nat by lia.
      reflexivity. }
    assert (Hsum : toR (fadd t (nth k f zero)) = Rsum (map toR (firstn (S k) f))).
    { rewrite toR_add, Ht, Hk1, map_app, Rsum_app. cbn [map].
      rewrite Rsum_cons. change (Rsum []) with 0%R. lra. }
    split; [now rewrite upd_length|]. split; [exact Hsum|].
    intros i Hi. rewrite nth_upd by lia.
    destruct (Nat.eqb_spec i k) as [->|Hne]; [exact Hsum|].
    apply Hps. lia.
Qed.

Lemma prefix_sums_spec (f ps : list F) (t : F) :
  prefix_sums f = (ps, t) ->
  length ps = length f
  /\ toR t = Rsum (map toR f)
  /\ forall i, (i < length f)%nat ->
       toR (nth i ps zero) = Rsum (map toR (firstn (S i) f)).
Proof.
  intros H. pose proof (prefix_fold f (length f) (Nat.le_refl _)) as P.
  cbv zeta in P. unfold prefix_sums in H. rewrite H in P. cbn [fst snd] in P.
  now rewrite firstn_all in P.
Qed.

(** The scoring quantity of line 125 is the total absolute deviation. *)
Lemma score_is_tad (f ps : list F) (t : F) (i : nat) :
  StronglySorted le_F f -> prefix_sums f = (ps, t) -> (i < length f)%nat ->
  toR (score f ps t i) = tad f (nth i f zero).
Proof.
  intros Hs Hp Hi. apply prefix_sums_spec in Hp. destruct Hp as (Hlen & Ht & Hps).
  set (x := nth i f zero).
  assert (Hf : f = firstn i f ++ x :: skipn (S i) f).
  { rewrite <- (firstn_skipn i f) at 1. now rewrite (skipn_nth_cons f i zero). }
  set (l1 := firstn i f) in *. set (l2 := skipn (S i) f) in *.
  assert (Hl1 : length l1 = i) by (unfold l1; rewrite length_firstn; lia).
  assert (Hl2 : length l2 = (length f - i - 1)%nat)
    by (unfold l2; rewrite length_skipn; lia).
  rewrite Hf in Hs. apply sorted_split in Hs. destruct Hs as [Hlow Hhigh].
  assert (Htad : tad f x
                 = (INR i * toR x - Rsum (map toR l1)
                    + (Rsum (map toR l2) - INR (length f - i - 1) * toR x))%R).
  { unfold tad. rewrite Hf at 1. rewrite map_app, Rsum_app. cbn [map].
    rewrite Rsum_cons, (dev_below x l1 Hlow), (dev_above x l2 Hhigh).
    rewrite Rminus_diag, Rabs_R0, Hl1, Hl2. lra. }
  rewrite Htad.
  (* the program's side *)
  assert (Hall : Rsum (map toR f)
                 = (Rsum (map toR l1) + (toR x + Rsum (map toR l2)))%R).
  { rewrite Hf at 1. rewrite map_app, Rsum_app. cbn [map]. now rewrite Rsum_cons. }
  assert (Hpre : toR (nth i ps zero) = (Rsum (map toR l1) + toR x)%R).
  { rewrite (Hps i Hi).
    replace (firstn (S i) f) with (l1 ++ [x]).
    - rewrite map_app, Rsum_app. cbn [map]. rewrite Rsum_cons.
      change (Rsum []) with 0%R. lra.
    - rewrite Hf at 1. rewrite firstn_app, Hl1.
      replace (S i - i)%nat with 1%nat by lia.
      change (firstn 1 (x :: l2)) with [x].
      rewrite firstn_all2 by lia. reflexivity. }
  assert (Hls : toR (if (0 <? i)%nat then nth (i - 1) ps zero else zero)
                = Rsum (map toR l1)).
  { destruct i as [|i'].
    - cbn [Nat.ltb Nat.leb]. rewrite toR_zero. unfold l1. cbn. reflexivity.
    - replace (0 <? S i')%nat with true by reflexivity.
      replace (S i' - 1)%nat with i' by lia.
      rewrite (Hps i') by lia. reflexivity. }
  unfold score. cbv zeta. fold x.
  rewrite toR_add, !toR_sub, !toR_mul, !toR_of_Z, Hls, Hpre, Ht, Hall.
  rewrite <- !INR_IZR_INZ.
  replace (IZR (Z.of_nat (length f) - Z.of_nat i - 1))
    with (INR (length f - i - 1)).
  - lra.
  - rewrite INR_IZR_INZ. f_equal. lia.
Qed.

(** The loop of lines 122-126 ends on an index of least score. *)
Lemma best_index_fold (f ps : list F) (t : F) :
  forall k,
    let st := fold_left (fun st i =>
                 let '(md, bi) := st in
                 let d := score f ps t i in
                 if below d md then (Some d, i) else (md, bi))
                (seq 0 (S k)) (None, O) in
    fst st = Some (score f ps t (snd st))
    /\ (snd st <= k)%nat
    /\ forall j, (j <= k)%nat ->
         (toR (score f ps t (snd st)) <= toR (score f ps t j))%R.
Proof.
  induction k as [|k IH]; cbv zeta.
  - cbn [seq fold_left below]. rewrite flt_inf_spec. cbn [fst snd].
    split; [reflexivity|]. split; [lia|]. intros j Hj.
    replace j with O by lia. apply Rle_refl.
  - rewrite seq_S, fold_left_app. cbn [fold_left Nat.add].
    cbv zeta in IH. destruct (fold_left _ (seq 0 (S k)) _) as [md bi].
    cbn [fst snd] in IH. destruct IH as (-> & Hbi & Hmin).
    cbn [below]. destruct (flt _ _) eqn:Elt; cbn [fst snd].
    + apply flt_spec in Elt. split; [reflexivity|]. split; [lia|].
      intros j Hj. destruct (Nat.eq_dec j (S k)) as [->|Hne]; [apply Rle_refl|].
      specialize (Hmin j ltac:(lia)). lra.
    + assert (toR (score f ps t bi) <= toR (score f ps t (S k)))%R.
      { apply Rnot_lt_le. intros Hc. apply flt_spec in Hc. congruence. }
      split; [reflexivity|]. split; [lia|].
      intros j Hj. destruct (Nat.eq_dec j (S k)) as [->|Hne]; [assumption|].
      apply Hmin. lia.
Qed.

Lemma best_index_spec (f ps : list F) (t : F) :
  f <> [] ->
  (best_index f ps t < length f)%nat
  /\ forall j, (j < length f)%nat ->
       (toR (score f ps t (best_index f ps t)) <= toR (score f ps t j))%R.
Proof.
  intros Hf. destruct f as [|x f']; [congruence|].
  pose proof (best_index_fold (x :: f') ps t (length f')) as P. cbv zeta in P.
  unfold best_index. change (length (x :: f')) with (S (length f')).
  destruct P as (_ & Hbi & Hmin). split; [lia|].
  intros j Hj. apply Hmin. lia.
Qed.

End Split.


(* ================================================================== *)
(** * The histogram builder in real arithmetic *)

Lemma nth_flat_map_uniform {A B} (f : A -> list B) (m : nat) (d : B) (da : A) :
  (forall x, length (f x) = m) -> (0 < m)%nat ->
  forall xs k,
    (k < m * length xs)%nat ->
    nth k (flat_map f xs) d = nth (k mod m) (f (nth (k / m) xs da)) d.
Proof.
  intros Hlen Hm. induction xs as [|x xs IH]; intros k Hk; cbn [length] in Hk.
  - lia.
  - cbn [flat_map]. destruct (Nat.lt_ge_cases k m) as [Hlt|Hge].
    + rewrite app_nth1 by (rewrite Hlen; assumption).
      rewrite Nat.div_small, Nat.mod_small by assumption. reflexivity.
    + rewrite app_nth2 by (rewrite Hlen; lia). rewrite Hlen.
      rewrite IH by lia.
      assert (Hk' : k = ((k - m) + 1 * m)%nat) by lia.
      assert (Hd : (k / m = S ((k - m) / m))%nat).
      { rewrite Hk' at 1. rewrite Nat.div_add by lia. lia. }
      assert (Hmod : (k mod m = (k - m) mod m)%nat).
      { rewrite Hk' at 1. apply Nat.Div0.mod_add. }
      rewrite Hd, Hmod. reflexivity.
Qed.



Section RealHistogram.

Local Open Scope R_scope.

Lemma ln_10_pos : 0 < ln 10.
Proof. rewrite <- ln_1. apply ln_increasing; lra. Qed.

(** [10**y <= a] exactly when [y <= log10(a)]. *)
Lemma pow10_le (a y : R) : 0 < a -> y <= ln a / ln 10 -> Rpower 10 y <= a.
Proof.
  intros Ha Hy. pose proof ln_10_pos as H10. unfold Rpower.
  assert (H : y * ln 10 <= ln a).
  { apply Rmult_le_compat_r with (r := ln 10) in Hy; [|lra].
    unfold Rdiv in Hy. rewrite Rmult_assoc, Rinv_l in Hy; lra. }
  apply Rle_trans with (exp (ln a)); [|rewrite exp_ln; lra].
  destruct (Rle_lt_or_eq_dec _ _ H) as [Hlt|Heq].
  - left. now apply exp_increasing.
  - right. now rewrite Heq.
Qed.

Lemma pow10_gt (a y : R) : 0 < a -> ln a / ln 10 < y -> a < Rpower 10 y.
Proof.
  intros Ha Hy. pose proof ln_10_pos as H10. unfold Rpower.
  apply Rle_lt_trans with (exp (ln a)); [rewrite exp_ln; lra|].
  apply exp_increasing.
  apply Rmult_lt_compat_r with (r := ln 10) in Hy; [|lra].
  unfold Rdiv in Hy. rewrite Rmult_assoc, Rinv_l in Hy; lra.
Qed.

Lemma log10_ge (a y : R) : Rpower 10 y <= a -> y <= ln a / ln 10.
Proof.
  intros H. pose proof ln_10_pos as H10.
  assert (Ha : 0 < a).
  { apply Rlt_le_trans with (Rpower 10 y); [apply exp_pos | assumption]. }
  destruct (Rle_lt_dec y (ln a / ln 10)) as [Hle|Hgt]; [assumption|].
  apply pow10_gt in Hgt; [lra | assumption].
Qed.

Lemma log10_lt (a y : R) : 0 < a -> a < Rpower 10 y -> ln a / ln 10 < y.
Proof.
  intros Ha H. destruct (Rlt_le_dec (ln a / ln 10) y) as [Hlt|Hge]; [assumption|].
  apply pow10_le in Hge; [lra | assumption].
Qed.

Lemma pow10_neg6 : Rpower 10 (-6) = 1 / 1000000.
Proof.
  replace (-6) with (- INR 6) by (cbn; lra).
  rewrite Rpower_Ropp, Rpower_pow by lra. cbn [pow]. field.
Qed.

(** The edges after the sentinel are the powers of ten. *)
Lemma bins_nth (k : nat) :
  (k < 2400)%nat ->
  nth (S k) (bins Ideal.libm) 0 = Rpower 10 (INR k / 200 - 6).
Proof.
  intros Hk. unfold bins. cbn [nth].
  set (f := fun ex : Z =>
              map (fun b : Z =>
                     m_pow Ideal.libm (of_Z 10)
                       (fadd (of_Z ex) (fquo (of_Z b) (lit 200 0))))
                  (range 0 200)).
  rewrite (nth_flat_map_uniform f 200 0 0%Z).
  - unfold f.
    rewrite (nth_indep _ 0
               ((fun b : Z => m_pow Ideal.libm (of_Z 10)
                   (fadd (of_Z (nth (k / 200) (range (-6) 6) 0%Z))
                         (fquo (of_Z b) (lit 200 0)))) 0%Z)).
    2:{ rewrite length_map, range_length. change (Z.to_nat (200 - 0)) with 200%nat.
        apply Nat.mod_upper_bound. lia. }
    rewrite (map_nth (fun b : Z => m_pow Ideal.libm (of_Z 10)
                   (fadd (of_Z (nth (k / 200) (range (-6) 6) 0%Z))
                         (fquo (of_Z b) (lit 200 0))))).
    rewrite !range_nth.
    2:{ change (Z.to_nat (200 - 0)) with 200%nat. apply Nat.mod_upper_bound. lia. }
    2:{ change (Z.to_nat (6 - -6)) with 12%nat. apply Nat.Div0.div_lt_upper_bound. lia. }
    cbn [m_pow Ideal.libm of_Z fadd fquo Ideal.num lit].
    f_equal.
    rewrite !plus_IZR, <- !INR_IZR_INZ.
    pose proof (Nat.div_mod_eq k 200) as Hdm.
    apply (f_equal INR) in Hdm. rewrite plus_INR, mult_INR in Hdm.
    replace (INR 200) with 200 in Hdm by (rewrite INR_IZR_INZ; reflexivity).
    lra.
  - intros x. unfold f. now rewrite length_map, range_length.
  - lia.
  - rewrite range_length. change (Z.to_nat (6 - -6)) with 12%nat. lia.
Qed.

Lemma bins_0 : nth 0 (bins Ideal.libm) 0 = 0.
Proof. reflexivity. Qed.

(** The edges increase strictly. *)
Lemma bins_increasing (i j : nat) :
  (i < j <= 2400)%nat ->
  nth i (bins Ideal.libm) 0 < nth j (bins Ideal.libm) 0.
Proof.
  intros Hij. destruct j as [|j]; [lia|]. rewrite (bins_nth j) by lia.
  destruct i as [|i].
  - rewrite bins_0. apply exp_pos.
  - rewrite (bins_nth i) by lia. apply Rpower_lt; [lra|].
    assert (INR i < INR j) by (apply lt_INR; lia). lra.
Qed.

(** The forward scan stops just after the last edge that is at most [a]. *)
Lemma scan_finds (edges : list R) (a : R) (b : nat) :
  (S b < length edges)%nat ->
  a < nth (S b) edges 0 ->
  forall n be left,
    (be + n = S b)%nat ->
    (forall j, (be <= j <= b)%nat -> nth j edges 0 <= a) ->
    (n < left)%nat ->
    scan edges a left (Z.of_nat be) = Ret (Z.of_nat (S b)).
Proof.
  intros Hlen Htop. induction n as [|n IH]; intros be left Hbe Hlow Hleft;
    (destruct left as [|left]; [lia|]); cbn [scan].
  - replace be with (S b) by lia.
    rewrite (getitem_ok edges (Z.of_nat (S b)) 0) by lia. cbn [bind].
    rewrite Nat2Z.id. cbn [fle Ideal.num].
    destruct (Rle_dec (nth (S b) edges 0) a); [lra | reflexivity].
  - rewrite (getitem_ok edges (Z.of_nat be) 0) by lia. cbn [bind].
    rewrite Nat2Z.id. cbn [fle Ideal.num].
    destruct (Rle_dec (nth be edges 0) a) as [_|Hn].
    + replace (Z.of_nat be + 1)%Z with (Z.of_nat (S be)) by lia.
      apply IH; [lia| |lia]. intros j Hj. apply Hlow. lia.
    + exfalso. apply Hn. apply Hlow. lia.
Qed.



End RealHistogram.

Lemma In_slice {A} (l : list A) (lo hi : nat) (x d : A) :
  In x (slice l lo hi) ->
  exists k, (lo <= k < hi)%nat /\ (k < length l)%nat /\ x = nth k l d.
Proof.
  intros H. destruct (In_nth _ _ d H) as (i & Hi & <-).
  unfold slice in Hi. rewrite length_firstn, length_skipn in Hi.
  exists (lo + i)%nat. split; [lia|]. split; [lia|].
  apply nth_slice. lia.
Qed.

(** The exact powers of ten satisfy the bound that the rough price
    needs of the edges around the anchor. *)
Lemma ideal_edges_in_range :
  forallb (fun e : R => flt zero e && fle e (lit 100 0))
          (slice (bins Ideal.libm) 459 803) = true.
Proof.
  apply forallb_forall. intros e He.
  apply (In_slice _ _ _ _ 0%R) in He. destruct He as (k & Hk & _ & ->).
  destruct k as [|k]; [lia|]. rewrite bins_nth by lia.
  assert (Hk' : (INR k <= 801)%R).
  { replace 801%R with (INR 801) by (rewrite INR_IZR_INZ; reflexivity).
    apply le_INR. lia. }
  apply andb_true_iff. split.
  - apply (flt_spec (F := R)). unfold toR, Ideal.view, zero.
    cbn [of_Z Ideal.num]. apply exp_pos.
  - apply (fle_spec (F := R)). unfold toR, Ideal.view.
    cbn [lit of_Z Ideal.num].
    apply Rle_trans with (Rpower 10 (INR 2)).
    + apply Rle_Rpower; [lra|]. cbn [INR]. lra.
    + rewrite Rpower_pow by lra. cbn [pow]. lra.
Qed.

(** C1, as the code has it. On the empty input the histogram is all
    zero, the window sum [cs] is zero, and the first division of line 55
    raises [ZeroDivisionError]: no price is returned, in binary64 or in
    exact arithmetic, whatever the functions of [math] compute. *)
Theorem calc_price_empty_raises :
  (forall (L : Libm float) hs ts,
      calc_price (N := Binary64.num) L [] hs ts = Raise ZeroDivisionError)
  /\ (forall (L : Libm Q) hs ts,
      calc_price (N := Exact.num) L [] hs ts = Raise ZeroDivisionError).
Proof.
  split; intros L hs ts.
  - assert (Hh : histogram L (bins L) []
                 = Ret (repeat (zero (N := Binary64.num)) 2401)) by reflexivity.
    assert (Hc : condition (repeat (zero (N := Binary64.num)) 2401)
                 = Raise ZeroDivisionError) by (vm_compute; reflexivity).
    unfold calc_price. cbv zeta. rewrite Hh. cbn [bind]. rewrite Hc. reflexivity.
  - assert (Hh : histogram L (bins L) []
                 = Ret (repeat (zero (N := Exact.num)) 2401)) by reflexivity.
    assert (Hc : condition (repeat (zero (N := Exact.num)) 2401)
                 = Raise ZeroDivisionError) by (vm_compute; reflexivity).
    unfold calc_price. cbv zeta. rewrite Hh. cbn [bind]. rewrite Hc. reflexivity.
Qed.

Set Warnings "-inexact-float".

(** The literals of the program, written with [lit], are the doubles
    that a correctly rounding parser reads. *)
Example literals_binary64 :
  (lit 8 3 = 0.008 /\ lit 5 1 = 0.5 /\ lit 65 2 = 0.65 /\ lit 25 2 = 0.25
   /\ lit 5 2 = 0.05 /\ lit 1 4 = 0.0001 /\ lit 150 5 = 0.00150
   /\ lit 5 7 = 0.0000005
   /\ lit 1300198324984352 18 = 0.001300198324984352
   /\ lit 6174500465286022 18 = 0.006174500465286022
   /\ lit 832244504868709 18 = 0.000832244504868709)%float.
Proof. vm_compute. repeat split. Qed.

(** A run of the whole pipeline in binary64. *)
Example calc_price_binary64_run :
  calc_price Binary64.soft_libm
    [0.565; 0.57; 0.001; 0.0011; 0.00105; 0.00052]%float [] []
  = Ret (95238%Z, 99698%Z, 1%nat, 6%float, 6.5%float).
Proof. rewrite calc_price_eq. vm_compute. reflexivity. Qed.

(* ================================================================== *)
(** * The block filter *)

Lemma and_then_inv {A B} (m : access A) (k : A -> access B) (b : B) :
  and_then m k = Got b -> exists a, m = Got a /\ k a = Got b.
Proof. destruct m as [a|s]; cbn; [eauto | discriminate]. Qed.

Lemma key_inv {A} (k : String.string) (v : option A) (a : A) :
  key k v = Got a -> v = Some a.
Proof. destruct v; cbn; congruence. Qed.

Lemma for_all_app {A S} (xs ys : list A) (f : S -> A -> access S) (s : S) :
  for_all (xs ++ ys) f s = and_then (for_all xs f s) (for_all ys f).
Proof.
  revert s. induction xs as [|x xs IH]; intros s; cbn [app for_all and_then].
  - reflexivity.
  - destruct (f s x) as [s'|k]; cbn [and_then]; [apply IH | reflexivity].
Qed.

(** ** Sets of txids *)

Lemma mem_In (t : String.string) (s : list String.string) :
  mem t s = true <-> In t s.
Proof.
  unfold mem. rewrite existsb_exists. split.
  - intros (x & Hx & E). apply String.eqb_eq in E. now subst.
  - intros H. exists t. split; [assumption | apply String.eqb_refl].
Qed.

Lemma mem_add (x t : String.string) (s : list String.string) :
  mem x (add t s) = String.eqb x t || mem x s.
Proof.
  unfold add. destruct (mem t s) eqn:E; [|reflexivity].
  destruct (String.eqb_spec x t) as [->|_]; [now rewrite E | reflexivity].
Qed.

Lemma add_NoDup (t : String.string) (s : list String.string) :
  NoDup s -> NoDup (add t s).
Proof.
  intros H. unfold add. destruct (mem t s) eqn:E; [assumption|].
  constructor; [|assumption]. intros Hin. apply mem_In in Hin. congruence.
Qed.

Lemma mem_update (x : String.string) (ts s : list String.string) :
  mem x (update s ts) = mem x s || mem x ts.
Proof.
  unfold update. revert s. induction ts as [|t ts IH]; intros s; cbn [fold_left].
  - cbn. now rewrite orb_false_r.
  - rewrite IH, mem_add. cbn [mem existsb]. fold (mem x ts).
    destruct (String.eqb x t), (mem x s), (mem x ts); reflexivity.
Qed.

Lemma update_NoDup (ts s : list String.string) :
  NoDup s -> NoDup (update s ts).
Proof.
  unfold update. revert s. induction ts as [|t ts IH]; intros s H; cbn [fold_left].
  - assumption.
  - apply IH. now apply add_NoDup.
Qed.

Section FilterFacts.

Context {F : Type} {N : PyNum F}.

(** ** The value list of one transaction *)

Lemma vals_inv (vout : list (txout F)) (vs : list F) :
  vals vout = Got vs ->
  forallb (fun o => has (out_value o)) vout = true
  /\ vs = filter in_range (values vout).
Proof.
  revert vs. induction vout as [|o vout IH]; intros vs H; cbn [vals] in H.
  - injection H as <-. now split.
  - apply and_then_inv in H. destruct H as (v & Hv & H). apply key_inv in Hv.
    apply and_then_inv in H. destruct H as (rest & Hrest & H).
    destruct (IH _ Hrest) as [Hall ->]. injection H as <-.
    cbn [forallb values flat_map]. rewrite Hv. cbn [has app filter].
    split; [exact Hall|]. reflexivity.
Qed.

Lemma vals_total (vout : list (txout F)) :
  forallb (fun o => has (out_value o)) vout = true ->
  vals vout = Got (filter in_range (values vout)).
Proof.
  induction vout as [|o vout IH]; cbn [forallb vals values flat_map]; intros H.
  - reflexivity.
  - apply andb_true_iff in H. destruct H as [Ho Hall].
    destruct (out_value o) as [v|]; [|discriminate]. cbn [key and_then].
    rewrite (IH Hall). reflexivity.
Qed.

Lemma values_length (vout : list (txout F)) :
  (length (values vout) <= length vout)%nat.
Proof.
  induction vout as [|o vout IH]; cbn [values flat_map length]; [lia|].
  rewrite length_app. fold (values vout).
  destruct (out_value o); cbn [length]; lia.
Qed.

Lemma In_values (vout : list (txout F)) (v : F) :
  In v (values vout) <-> exists o, In o vout /\ out_value o = Some v.
Proof.
  unfold values. rewrite in_flat_map. split.
  - intros (o & Ho & Hv). exists o. split; [assumption|].
    destruct (out_value o) as [w|]; [|contradiction].
    destruct Hv as [->|[]]. reflexivity.
  - intros (o & Ho & Hv). exists o. split; [assumption|]. rewrite Hv. now left.
Qed.

(** ** One transaction *)

Lemma filter_tx_inv (ex : list String.string) (f ids : _) (t : tx F) f' ids' :
  filter_tx ex (f, ids) t = Got (f', ids') ->
  exists txid vin vout,
    tx_txid t = Some txid /\ tx_vin t = Some vin /\ tx_vout t = Some vout
    /\ forallb (fun o => has (out_value o)) vout = true
    /\ ids' = add txid ids
    /\ f' = f ++ (if passes (Z.of_nat (length vin)) (Z.of_nat (length vout))
                       (is_cb vin) (has_opr vout) (wit_exc vin)
                       (same_day ex (add txid ids) (input_txids vin))
                  then filter in_range (values vout) else []).
Proof.
  unfold filter_tx. intros H.
  apply and_then_inv in H. destruct H as (txid & Ht & H). apply key_inv in Ht.
  apply and_then_inv in H. destruct H as (vin & Hi & H). apply key_inv in Hi.
  apply and_then_inv in H. destruct H as (vout & Ho & H). apply key_inv in Ho.
  cbv zeta in H.
  apply and_then_inv in H. destruct H as (vs & Hvs & H).
  apply vals_inv in Hvs. destruct Hvs as [Hall ->].
  exists txid, vin, vout. repeat (split; [assumption|]).
  destruct (passes _ _ _ _ _ _); injection H as <- <-.
  - now split.
  - rewrite app_nil_r. now split.
Qed.

Lemma filter_tx_total (ex : list String.string) (f ids : _) (t : tx F) :
  tx_complete t = true -> exists st, filter_tx ex (f, ids) t = Got st.
Proof.
  unfold tx_complete, filter_tx. intros H.
  apply andb_true_iff in H. destruct H as [H Ho].
  apply andb_true_iff in H. destruct H as [Ht Hi].
  destruct (tx_txid t) as [txid|]; [|discriminate].
  destruct (tx_vin t) as [vin|]; [|discriminate].
  destruct (tx_vout t) as [vout|]; [|discriminate].
  cbn [key and_then]. cbv zeta. rewrite (vals_total _ Ho). cbn [and_then].
  destruct (passes _ _ _ _ _ _); eauto.
Qed.

Lemma filter_tx_complete (ex : list String.string) st (t : tx F) st' :
  filter_tx ex st t = Got st' -> tx_complete t = true.
Proof.
  destruct st as [f ids], st' as [f' ids']. intros H.
  apply filter_tx_inv in H.
  destruct H as (txid & vin & vout & Ht & Hi & Ho & Hall & _).
  unfold tx_complete. now rewrite Ht, Hi, Ho, Hall.
Qed.

(** The test of line 33, spelled out. *)
Lemma passes_spec (ex ids : list String.string) (txid : String.string)
  (vin : list txin) (vout : list (txout F)) :
  passes (Z.of_nat (length vin)) (Z.of_nat (length vout))
    (is_cb vin) (has_opr vout) (wit_exc vin)
    (same_day ex (add txid ids) (input_txids vin)) = true
  <-> (length vin <= 5)%nat /\ length vout = 2%nat
      /\ is_cb vin = false /\ has_opr vout = false /\ wit_exc vin = false
      /\ forall i, In i (input_txids vin) ->
           mem i ex = false /\ i <> txid /\ mem i ids = false.
Proof.
  unfold passes. rewrite !andb_true_iff, !negb_true_iff.
  rewrite Z.leb_le, Z.eqb_eq.
  assert (Hs : same_day ex (add txid ids) (input_txids vin) = false
               <-> forall i, In i (input_txids vin) ->
                     mem i ex = false /\ i <> txid /\ mem i ids = false).
  { unfold same_day. split.
    - intros H i Hi.
      assert (Hi' : mem i ex || mem i (add txid ids) = false).
      { destruct (mem i ex || mem i (add txid ids)) eqn:E; [|reflexivity].
        assert (existsb (fun t => mem t ex || mem t (add txid ids))
                  (input_txids vin) = true)
          by (apply existsb_exists; eauto).
        congruence. }
      rewrite mem_add in Hi'. apply orb_false_iff in Hi'. destruct Hi' as [H1 H2].
      apply orb_false_iff in H2. destruct H2 as [H2 H3].
      split; [assumption|]. split; [|assumption].
      intros ->. now rewrite String.eqb_refl in H2.
    - intros H. destruct (existsb _ _) eqn:E; [|reflexivity].
      apply existsb_exists in E. destruct E as (i & Hi & E).
      destruct (H i Hi) as (H1 & H2 & H3). rewrite mem_add, H1, H3 in E.
      apply String.eqb_neq in H2. rewrite H2 in E. discriminate. }
  rewrite Hs. intuition lia.
Qed.

(** ** The loop over the transactions of a block *)

Lemma filter_loop_ids (ex : list String.string) :
  forall (txs : list (tx F)) f0 ids0 f ids,
    for_all txs (filter_tx ex) (f0, ids0) = Got (f, ids) ->
    (NoDup ids0 -> NoDup ids)
    /\ forall t, mem t ids = mem t ids0 || mem t (txids txs).
Proof.
  induction txs as [|t txs IH]; intros f0 ids0 f ids H; cbn [for_all] in H.
  - injection H as <- <-. split; [auto|]. intros t. cbn. now rewrite orb_false_r.
  - apply and_then_inv in H. destruct H as ([f1 ids1] & H1 & H).
    apply filter_tx_inv in H1.
    destruct H1 as (txid & vin & vout & Ht & _ & _ & _ & -> & _).
    destruct (IH _ _ _ _ H) as [Hnd Hmem]. split.
    + intros H0. apply Hnd. now apply add_NoDup.
    + intros x. rewrite Hmem, mem_add. cbn [txids flat_map]. rewrite Ht.
      cbn [app mem existsb]. fold (txids txs). fold (mem x (txids txs)).
      destruct (String.eqb x txid), (mem x ids0), (mem x (txids txs)); reflexivity.
Qed.

Lemma filter_loop_complete (ex : list String.string) :
  forall (txs : list (tx F)) st st',
    for_all txs (filter_tx ex) st = Got st' -> forallb tx_complete txs = true.
Proof.
  induction txs as [|t txs IH]; intros st st' H; cbn [for_all] in H.
  - reflexivity.
  - apply and_then_inv in H. destruct H as (st1 & H1 & H).
    cbn [forallb]. rewrite (filter_tx_complete _ _ _ _ H1). cbn [andb].
    now apply IH with st1 st'.
Qed.

Lemma filter_loop_total (ex : list String.string) :
  forall (txs : list (tx F)) st,
    forallb tx_complete txs = true ->
    exists st', for_all txs (filter_tx ex) st = Got st'.
Proof.
  induction txs as [|t txs IH]; intros [f ids] H; cbn [forallb] in H;
    cbn [for_all].
  - eauto.
  - apply andb_true_iff in H. destruct H as [Ht Hall].
    destruct (filter_tx_total ex f ids t Ht) as (st1 & E1). rewrite E1.
    cbn [and_then]. now apply IH.
Qed.

Lemma filter_loop_values (ex : list String.string) :
  forall (txs txs0 : list (tx F)) f0 ids0 f ids,
    for_all txs (filter_tx ex) (f0, ids0) = Got (f, ids) ->
    (forall t, mem t ids0 = mem t (txids txs0)) ->
    forall v, In v f
              <-> In v f0
                  \/ exists txs1 t txs2,
                       txs = txs1 ++ t :: txs2
                       /\ selected ex (txids (txs0 ++ txs1)) t v.
Proof.
  induction txs as [|t txs IH]; intros txs0 f0 ids0 f ids H H0 v;
    cbn [for_all] in H.
  - injection H as <- <-. split; [auto|]. intros [Hv|(txs1 & t & txs2 & E & _)].
    + assumption.
    + destruct txs1; discriminate.
  - apply and_then_inv in H. destruct H as ([f1 ids1] & H1 & H).
    apply filter_tx_inv in H1.
    destruct H1 as (txid & vin & vout & Ht & Hi & Ho & Hall & -> & ->).
    assert (H0' : forall x, mem x (add txid ids0) = mem x (txids (txs0 ++ [t]))).
    { intros x. rewrite mem_add, H0. unfold txids. rewrite flat_map_app.
      cbn [flat_map]. rewrite Ht. cbn [app]. unfold mem. rewrite existsb_app.
      cbn [existsb]. rewrite orb_false_r. apply orb_comm. }
    rewrite (IH (txs0 ++ [t]) _ _ _ _ H H0' v). rewrite in_app_iff.
    assert (Hsel : In v (if passes (Z.of_nat (length vin)) (Z.of_nat (length vout))
                              (is_cb vin) (has_opr vout) (wit_exc vin)
                              (same_day ex (add txid ids0) (input_txids vin))
                         then filter in_range (values vout) else [])
                   <-> selected ex (txids (txs0 ++ [])) t v).
    { rewrite app_nil_r. unfold selected. split.
      - destruct (passes _ _ _ _ _ _) eqn:E; [|contradiction].
        apply passes_spec in E. destruct E as (E1 & E2 & E3 & E4 & E5 & E6).
        intros Hv. apply filter_In in Hv. destruct Hv as [Hv Hr].
        apply In_values in Hv. destruct Hv as (o & Hin & Hval).
        exists txid, vin, vout, o. repeat (split; [assumption|]).
        split; [|now repeat split].
        intros i Hin'. destruct (E6 i Hin') as (G1 & G2 & G3).
        split; [assumption|]. split; [assumption|].
        intros Hc. apply mem_In in Hc. rewrite <- H0 in Hc. congruence.
      - intros (txid' & vin' & vout' & o & Et & Ei & Eo & E1 & E2 & E3 & E4 & E5
                & E6 & Hin & Hval & Hr).
        rewrite Ht in Et. rewrite Hi in Ei. rewrite Ho in Eo.
        injection Et as <-. injection Ei as <-. injection Eo as <-.
        replace (passes _ _ _ _ _ _) with true.
        + apply filter_In. split; [|assumption]. apply In_values. eauto.
        + symmetry. apply passes_spec. repeat (split; [assumption|]).
          intros i Hin'. destruct (E6 i Hin') as (G1 & G2 & G3).
          split; [assumption|]. split; [assumption|].
          rewrite H0. destruct (mem i (txids txs0)) eqn:Em; [|reflexivity].
          apply mem_In in Em. contradiction. }
    split.
    + intros [[Hv|Hv]|(txs1 & t' & txs2 & E & Hs)].
      * now left.
      * right. exists [], t, txs. split; [reflexivity|]. now apply Hsel.
      * right. exists (t :: txs1), t', txs2. split; [now rewrite E|].
        now rewrite <- app_assoc in Hs.
    + intros [Hv|(txs1 & t' & txs2 & E & Hs)].
      * left. now left.
      * destruct txs1 as [|t1 txs1]; cbn [app] in E; injection E as <- ->.
        -- left. right. now apply Hsel.
        -- right. exists txs1, t', txs2. split; [reflexivity|].
           now rewrite <- app_assoc.
Qed.

Lemma filter_loop_length (ex : list String.string) :
  forall (txs : list (tx F)) f0 ids0 f ids,
    for_all txs (filter_tx ex) (f0, ids0) = Got (f, ids) ->
    (length f <= length f0 + 2 * length txs)%nat.
Proof.
  induction txs as [|t txs IH]; intros f0 ids0 f ids H; cbn [for_all] in H.
  - injection H as <- <-. lia.
  - apply and_then_inv in H. destruct H as ([f1 ids1] & H1 & H).
    apply filter_tx_inv in H1.
    destruct H1 as (txid & vin & vout & _ & _ & _ & _ & -> & ->).
    apply IH in H. rewrite length_app in H. cbn [length].
    destruct (passes _ _ _ _ _ _) eqn:E; cbn [length] in H; [|lia].
    apply passes_spec in E. destruct E as (_ & E2 & _).
    pose proof (filter_length_le in_range (values vout)).
    pose proof (values_length vout). lia.
Qed.

End FilterFacts.

Section FilterCompose.

Context {F : Type} {N : PyNum F}.

(** A missing key is met whatever the state and the known txids. *)
Lemma filter_tx_error (ex ex' : list String.string) st st' (t : tx F) k :
  filter_tx ex st t = KeyError k -> filter_tx ex' st' t = KeyError k.
Proof.
  destruct st as [f ids], st' as [f' ids']. unfold filter_tx.
  destruct (tx_txid t) as [txid|]; cbn [key and_then]; [|auto].
  destruct (tx_vin t) as [vin|]; cbn [key and_then]; [|auto].
  destruct (tx_vout t) as [vout|]; cbn [key and_then]; [|auto].
  cbv zeta. destruct (vals vout) as [vs|k']; cbn [and_then]; [|auto].
  destruct (passes _ _ _ _ _ _); discriminate.
Qed.

Lemma same_day_sets (ex ex' ids ids' ins : list String.string) :
  (forall x, mem x ex || mem x ids = mem x ex' || mem x ids') ->
  same_day ex ids ins = same_day ex' ids' ins.
Proof.
  intros H. unfold same_day. induction ins as [|i l IH]; cbn [existsb].
  - reflexivity.
  - now rewrite IH, H.
Qed.

Lemma add_sets (ex ex' ids ids' : list String.string) (txid : String.string) :
  (forall x, mem x ex || mem x ids = mem x ex' || mem x ids') ->
  forall x, mem x ex || mem x (add txid ids) = mem x ex' || mem x (add txid ids').
Proof.
  intros H x. rewrite !mem_add. specialize (H x).
  destruct (String.eqb x txid), (mem x ex), (mem x ids), (mem x ex'),
    (mem x ids'); cbn in *; congruence.
Qed.

(** The values a transaction adds depend on the two sets of txids only
    through their union. *)
Lemma filter_tx_sets (ex ex' ids ids' : list String.string) f f' (t : tx F)
  f1 ids1 :
  (forall x, mem x ex || mem x ids = mem x ex' || mem x ids') ->
  filter_tx ex (f, ids) t = Got (f1, ids1) ->
  exists d txid,
    tx_txid t = Some txid /\ f1 = f ++ d /\ ids1 = add txid ids
    /\ filter_tx ex' (f', ids') t = Got (f' ++ d, add txid ids').
Proof.
  intros Hsets H. apply filter_tx_inv in H.
  destruct H as (txid & vin & vout & Ht & Hi & Ho & Hall & -> & ->).
  eexists. exists txid. split; [exact Ht|]. split; [reflexivity|].
  split; [reflexivity|].
  unfold filter_tx. rewrite Ht, Hi, Ho. cbn [key and_then]. cbv zeta.
  rewrite (vals_total _ Hall). cbn [and_then].
  rewrite (same_day_sets ex' ex (add txid ids') (add txid ids) (input_txids vin)).
  - destruct (passes _ _ _ _ _ _); [reflexivity|]. now rewrite app_nil_r.
  - intros x. symmetry. now apply add_sets.
Qed.

Lemma filter_loop_sets (ex ex' : list String.string) :
  forall (txs : list (tx F)) f ids f' ids' g gids,
    (forall x, mem x ex || mem x ids = mem x ex' || mem x ids') ->
    for_all txs (filter_tx ex) (f, ids) = Got (g, gids) ->
    exists d gids',
      g = f ++ d
      /\ for_all txs (filter_tx ex') (f', ids') = Got (f' ++ d, gids').
Proof.
  induction txs as [|t txs IH]; intros f ids f' ids' g gids Hsets H;
    cbn [for_all] in H |- *.
  - injection H as <- <-. exists [], ids'. now rewrite !app_nil_r.
  - apply and_then_inv in H. destruct H as ([f1 ids1] & H1 & H).
    destruct (filter_tx_sets ex ex' ids ids' f f' t f1 ids1 Hsets H1)
      as (d & txid & Ht & -> & -> & E').
    rewrite E'. cbn [and_then].
    destruct (IH _ _ (f' ++ d) _ _ _ (add_sets _ _ _ _ txid Hsets) H)
      as (d' & gids' & -> & E2).
    exists (d ++ d'), gids'. rewrite !app_assoc. now split.
Qed.

Lemma filter_loop_error (ex ex' : list String.string) :
  forall (txs : list (tx F)) st st' k,
    for_all txs (filter_tx ex) st = KeyError k ->
    for_all txs (filter_tx ex') st' = KeyError k.
Proof.
  induction txs as [|t txs IH]; intros st st' k H; cbn [for_all] in H |- *.
  - discriminate.
  - destruct (filter_tx ex st t) as [st1|k1] eqn:E1; cbn [and_then] in H.
    + destruct (filter_tx ex' st' t) as [st1'|k1'] eqn:E1'; cbn [and_then].
      * now apply IH with st1.
      * apply (filter_tx_error ex' ex st' st) in E1'. congruence.
    + injection H as ->. now rewrite (filter_tx_error ex ex' st st' t k E1).
Qed.

End FilterCompose.

Section CollectFacts.

Context {F : Type} {N : PyNum F}.
Variable getblock : String.string -> block F.

Lemma record_fold (bn bt : Z) :
  forall (f outs : list F) (hs bs : list Z),
    fold_left (record bn bt) f (outs, hs, bs)
    = (outs ++ f, hs ++ repeat bn (length f), bs ++ repeat bt (length f)).
Proof.
  induction f as [|v f IH]; intros outs hs bs; cbn [fold_left length repeat].
  - now rewrite !app_nil_r.
  - cbn [record]. rewrite IH, <- !app_assoc. reflexivity.
Qed.

Lemma collect_step_inv outs hs bs etx bn bh bt outs' hs' bs' etx' :
  collect_step getblock (outs, hs, bs, etx) (bn, bh, bt) = Got (outs', hs', bs', etx') ->
  exists f btxids,
    filter_block (getblock bh) etx = Got (f, btxids)
    /\ outs' = outs ++ f
    /\ hs' = hs ++ repeat bn (length f)
    /\ bs' = bs ++ repeat bt (length f)
    /\ etx' = update etx btxids.
Proof.
  unfold collect_step. cbv zeta. intros H.
  apply and_then_inv in H. destruct H as ([f btxids] & Hf & H).
  rewrite record_fold in H. injection H as <- <- <- <-.
  exists f, btxids. now repeat split.
Qed.

Lemma zip_app {A B : Type} (xs : list A) (ys : list B) (xs' : list A)
  (ys' : list B) :
  length xs = length ys ->
  combine (xs ++ xs') (ys ++ ys') = combine xs ys ++ combine xs' ys'.
Proof.
  revert ys. induction xs as [|x xs IH]; intros [|y ys] H; cbn in H |- *;
    try discriminate; [reflexivity|]. f_equal. apply IH. lia.
Qed.

Lemma collect_loop_aligned :
  forall xs xs0 outs0 hs0 bs0 etx0 outs hs bs etx,
    for_all xs (collect_step getblock) (outs0, hs0, bs0, etx0)
    = Got (outs, hs, bs, etx) ->
    length hs0 = length outs0 -> length bs0 = length outs0 ->
    Forall (recorded getblock (xs0 ++ xs)) (combine (combine outs0 hs0) bs0) ->
    length hs = length outs /\ length bs = length outs
    /\ Forall (recorded getblock (xs0 ++ xs)) (combine (combine outs hs) bs).
Proof.
  induction xs as [|[[bn bh] bt] xs IH];
    intros xs0 outs0 hs0 bs0 etx0 outs hs bs etx H Hh Hb Hrec;
    cbn [for_all] in H.
  - injection H as <- <- <- <-. auto.
  - apply and_then_inv in H. destruct H as ([[[outs1 hs1] bs1] etx1] & H1 & H).
    apply collect_step_inv in H1.
    destruct H1 as (f & btxids & Hf & -> & -> & -> & ->).
    replace (xs0 ++ (bn, bh, bt) :: xs) with ((xs0 ++ [(bn, bh, bt)]) ++ xs)
      in * by now rewrite <- app_assoc.
    apply (IH _ _ _ _ _ _ _ _ _ H).
    + rewrite !length_app, repeat_length. lia.
    + rewrite !length_app, repeat_length. lia.
    + rewrite !zip_app by (rewrite ?length_combine; lia).
      apply Forall_app. split; [exact Hrec|].
      apply Forall_forall. intros [[v h] t] Hin.
      assert (Hv : In v f /\ h = bn /\ t = bt).
      { clear - Hin. induction f as [|w f IHf]; cbn in Hin; [contradiction|].
        destruct Hin as [E|Hin].
        - injection E as <- <- <-. split; [now left | auto].
        - destruct (IHf Hin) as (H1 & H2 & H3). split; [now right | auto]. }
      destruct Hv as (Hv & -> & ->). cbn [recorded].
      exists bh, etx0, f, btxids. split; [|now split].
      apply in_or_app. left. apply in_or_app. right. now left.
Qed.

(** The loop over the blocks is the loop over all their transactions
    in one block. *)
Lemma collect_loop_one_block :
  forall xs outs0 hs0 bs0 etx0 ids0 outs hs bs etx,
    for_all xs (collect_step getblock) (outs0, hs0, bs0, etx0)
    = Got (outs, hs, bs, etx) ->
    (forall t, mem t ids0 = mem t etx0) ->
    exists ids,
      for_all (flat_map (fun x => txs_of (getblock (snd (fst x)))) xs)
        (filter_tx []) (outs0, ids0) = Got (outs, ids)
      /\ forall t, mem t ids = mem t etx.
Proof.
  induction xs as [|[[bn bh] bt] xs IH];
    intros outs0 hs0 bs0 etx0 ids0 outs hs bs etx H Hids; cbn [for_all] in H.
  - injection H as <- <- <- <-. exists ids0. now split.
  - apply and_then_inv in H. destruct H as ([[[outs1 hs1] bs1] etx1] & H1 & H).
    apply collect_step_inv in H1.
    destruct H1 as (f & btxids & Hf & -> & -> & -> & ->).
    unfold filter_block in Hf. apply and_then_inv in Hf.
    destruct Hf as (txs & Htxs & Hf). apply key_inv in Htxs.
    cbn [flat_map fst snd]. unfold txs_of at 1. rewrite Htxs. cbn [get_or].
    rewrite for_all_app.
    assert (Hsets : forall x, mem x etx0 || mem x [] = mem x [] || mem x ids0).
    { intros x. rewrite Hids. cbn. now rewrite orb_false_r. }
    destruct (filter_loop_sets _ _ _ _ _ outs0 _ _ _ Hsets Hf) as (d & gids & Hd & E).
    cbn [app] in Hd. subst d. rewrite E. cbn [and_then].
    apply (IH _ _ _ _ _ _ _ _ _ H).
    intros t. rewrite mem_update.
    rewrite (proj2 (filter_loop_ids _ _ _ _ _ _ E) t).
    rewrite (proj2 (filter_loop_ids _ _ _ _ _ _ Hf) t). now rewrite Hids.
Qed.

End CollectFacts.

(** X1. Every value [filter_block] returns lies strictly between 1e-5
    and 1e5, and a block of [n] transactions yields at most [2 n]
    values. *)
Theorem filter_block_values_in_range {F : Type} {N : PyNum F}
  (block_json : block F) (existing_txids : list String.string)
  (filtered : list F) (block_txids : list String.string) :
  filter_block block_json existing_txids = Got (filtered, block_txids) ->
  Forall (fun v => flt (lit 1 5) v = true /\ flt v (lit 100000 0) = true) filtered
  /\ (length filtered <= 2 * length (txs_of block_json))%nat.
Proof.
  unfold filter_block. intros H. apply and_then_inv in H.
  destruct H as (txs & Htxs & H). apply key_inv in Htxs.
  unfold txs_of. rewrite Htxs. cbn [get_or]. split.
  - apply Forall_forall. intros v Hv.
    apply (filter_loop_values _ _ [] _ _ _ _ H (fun t => eq_refl)) in Hv.
    destruct Hv as [[]|(txs1 & t & txs2 & _ & Hs)].
    destruct Hs as (txid & vin & vout & o & _ & _ & _ & _ & _ & _ & _ & _ & _ & _ & _ & Hr).
    now apply andb_true_iff in Hr.
  - apply filter_loop_length in H. cbn [length] in H. lia.
Qed.

(** X2. The set of txids [filter_block] returns holds the txid of every
    transaction of the block, whether or not its values were kept and
    whatever the txids known before; it has no repetition. *)
Theorem filter_block_txids {F : Type} {N : PyNum F}
  (block_json : block F) (existing_txids : list String.string)
  (filtered : list F) (block_txids : list String.string) :
  filter_block block_json existing_txids = Got (filtered, block_txids) ->
  NoDup block_txids
  /\ forall i, In i block_txids
               <-> exists t, In t (txs_of block_json) /\ tx_txid t = Some i.
Proof.
  unfold filter_block. intros H. apply and_then_inv in H.
  destruct H as (txs & Htxs & H). apply key_inv in Htxs.
  unfold txs_of. rewrite Htxs. cbn [get_or].
  destruct (filter_loop_ids _ _ _ _ _ _ H) as [Hnd Hmem]. split.
  - apply Hnd. constructor.
  - intros i. rewrite <- mem_In, Hmem. cbn [mem existsb orb]. rewrite mem_In.
    unfold txids. rewrite in_flat_map. split.
    + intros (t & Ht & Hi). exists t. split; [assumption|].
      destruct (tx_txid t) as [j|]; [|contradiction].
      destruct Hi as [->|[]]. reflexivity.
    + intros (t & Ht & Hi). exists t. split; [assumption|]. rewrite Hi. now left.
Qed.

(** X3. A value is returned exactly when it is the value, strictly
    between 1e-5 and 1e5, of an output of a transaction of the block
    that has at most 5 inputs and exactly 2 outputs, is not a coinbase,
    has no [nulldata] output, stays within the witness limits, and
    spends no transaction known before, none that comes earlier in the
    block, and not itself. *)
Theorem filter_block_selects {F : Type} {N : PyNum F}
  (block_json : block F) (existing_txids : list String.string)
  (filtered : list F) (block_txids : list String.string) :
  filter_block block_json existing_txids = Got (filtered, block_txids) ->
  forall v,
    In v filtered
    <-> exists txs1 t txs2,
          txs_of block_json = txs1 ++ t :: txs2
          /\ selected existing_txids (txids txs1) t v.
Proof.
  unfold filter_block. intros H v. apply and_then_inv in H.
  destruct H as (txs & Htxs & H). apply key_inv in Htxs.
  unfold txs_of. rewrite Htxs. cbn [get_or].
  rewrite (filter_loop_values _ _ [] _ _ _ _ H (fun t => eq_refl) v).
  cbn [app In]. tauto.
Qed.

(** X4. [filter_block] returns exactly when the block has the key
    [tx], every transaction the keys [txid], [vin] and [vout], and every
    output the key [value]; otherwise it raises [KeyError], also for a
    transaction that the filter would have passed over. *)
Theorem filter_block_keys {F : Type} {N : PyNum F}
  (block_json : block F) (existing_txids : list String.string) :
  (exists r, filter_block block_json existing_txids = Got r)
  <-> block_complete block_json = true.
Proof.
  unfold filter_block, block_complete. split.
  - intros (r & H). apply and_then_inv in H. destruct H as (txs & Htxs & H).
    apply key_inv in Htxs. rewrite Htxs. now apply filter_loop_complete in H.
  - destruct (blk_tx block_json) as [txs|]; [|discriminate]. intros H.
    cbn [key and_then]. now apply filter_loop_total.
Qed.

(** X5. Filtering two blocks in a row, the second with the txids of the
    first added to the known ones, returns the values that filtering
    the block of all their transactions returns, and the same txids;
    a missing key in the second block raises the same [KeyError]. *)
Theorem filter_block_split {F : Type} {N : PyNum F}
  (existing_txids : list String.string) (txs1 txs2 : list (tx F))
  (f1 : list F) (ids1 : list String.string) :
  filter_block {| blk_tx := Some txs1 |} existing_txids = Got (f1, ids1) ->
  match filter_block {| blk_tx := Some txs2 |} (update existing_txids ids1),
        filter_block {| blk_tx := Some (txs1 ++ txs2) |} existing_txids with
  | Got (f2, ids2), Got (f, ids) =>
      f = f1 ++ f2 /\ forall t, mem t ids = mem t ids1 || mem t ids2
  | KeyError k2, KeyError k => k2 = k
  | _, _ => False
  end.
Proof.
  unfold filter_block. cbn [blk_tx key and_then]. intros H1.
  rewrite for_all_app, H1. cbn [and_then].
  assert (Hsets : forall x, mem x (update existing_txids ids1) || mem x []
                           = mem x existing_txids || mem x ids1).
  { intros x. rewrite mem_update. cbn. now rewrite orb_false_r. }
  destruct (for_all txs2 (filter_tx (update existing_txids ids1)) ([], [])) as [[f2 ids2]|k2] eqn:E2.
  - destruct (filter_loop_sets _ _ _ _ _ f1 _ _ _ Hsets E2) as (d & gids & Hd & E).
    cbn [app] in Hd. subst d. rewrite E. split; [reflexivity|].
    intros t. rewrite (proj2 (filter_loop_ids _ _ _ _ _ _ E) t).
    rewrite (proj2 (filter_loop_ids _ _ _ _ _ _ E2) t). reflexivity.
  - now rewrite (filter_loop_error _ existing_txids _ _ (f1, ids1) _ E2).
Qed.

(** X6. When the collection loop returns, the three lists have one
    length, and every value stands at the index of the height and the
    time of the block whose filter returned it. *)
Theorem collect_aligned {F : Type} {N : PyNum F}
  (getblock : String.string -> block F)
  (nums : list Z) (hashes : list String.string) (times : list Z)
  (outs : list F) (heights btimes : list Z) (etx : list String.string) :
  collect getblock nums hashes times = Got (outs, heights, btimes, etx) ->
  length heights = length outs /\ length btimes = length outs
  /\ Forall (recorded getblock (combine (combine nums hashes) times))
       (combine (combine outs heights) btimes).
Proof.
  unfold collect. intros H.
  apply (collect_loop_aligned getblock _ [] _ _ _ _ _ _ _ _ H); auto.
Qed.

(** X7. The values the collection loop gathers over the blocks of the
    window are those [filter_block] returns for one block made of all
    their transactions in order, with no txid known before; the txids
    gathered are the same. *)
Theorem collect_is_one_block {F : Type} {N : PyNum F}
  (getblock : String.string -> block F)
  (nums : list Z) (hashes : list String.string) (times : list Z)
  (outs : list F) (heights btimes : list Z) (etx : list String.string) :
  collect getblock nums hashes times = Got (outs, heights, btimes, etx) ->
  exists ids,
    filter_block
      {| blk_tx := Some (flat_map (fun x => txs_of (getblock (snd (fst x))))
                           (combine (combine nums hashes) times)) |} []
    = Got (outs, ids)
    /\ forall t, mem t ids = mem t etx.
Proof.
  unfold collect, filter_block. cbn [blk_tx key and_then]. intros H.
  apply (collect_loop_one_block getblock _ _ _ _ _ [] _ _ _ _ H).
  reflexivity.
Qed.

(* ================================================================== *)
(** * The manifest *)

Lemma dict_get_set {V} (d : list (String.string * V)) (k k' : String.string) (v : V) :
  dict_get (dict_set d k v) k' = if String.eqb k' k then Some v else dict_get d k'.
Proof.
  induction d as [|[k0 v0] d IH]; cbn [dict_set dict_get].
  - reflexivity.
  - destruct (String.eqb_spec k k0) as [->|Hne]; cbn [dict_get].
    + destruct (String.eqb_spec k' k0); reflexivity.
    + rewrite IH. destruct (String.eqb_spec k' k0) as [->|]; [|reflexivity].
      destruct (String.eqb_spec k0 k); [congruence | reflexivity].
Qed.

Lemma dict_set_keys {V} (d : list (String.string * V)) (k : String.string) (v : V) :
  NoDup (map fst d) -> NoDup (map fst (dict_set d k v)).
Proof.
  induction d as [|[k0 v0] d IH]; cbn [dict_set map fst]; intros H.
  - repeat constructor. intros [].
  - inversion H as [|? ? Hin Hnd]; subst.
    destruct (String.eqb_spec k k0) as [->|Hne]; cbn [map fst].
    + now constructor.
    + constructor; [|now apply IH].
      intros Hc. apply in_map_iff in Hc. destruct Hc as ([k1 v1] & E & Hc).
      cbn [fst] in E. subst k1. apply Hin.
      assert (Hg : dict_get (dict_set d k v) k0 <> None).
      { clear - Hc. induction (dict_set d k v) as [|[k2 v2] l IHl];
          [contradiction|]. cbn [dict_get].
        destruct (String.eqb_spec k0 k2); [discriminate|].
        destruct Hc as [E|Hc]; [congruence|]. now apply IHl. }
      rewrite dict_get_set in Hg.
      destruct (String.eqb_spec k0 k); [congruence|].
      clear - Hg. induction d as [|[k2 v2] d IHd]; [now elim Hg|].
      cbn [dict_get] in Hg. cbn [map fst In].
      destruct (String.eqb_spec k0 k2); [now left | right; now apply IHd].
Qed.

Lemma dict_set_sums (dirs : list (String.string * (Z * Z))) (k : String.string)
  (v : Z * Z) :
  let old := get_or (dict_get dirs k) (0, 0)%Z in
  counts (dict_set dirs k v) = (counts dirs - fst old + fst v)%Z
  /\ volumes (dict_set dirs k v) = (volumes dirs - snd old + snd v)%Z.
Proof.
  unfold counts, volumes.
  induction dirs as [|[k0 v0] d IH]; cbn [dict_set dict_get get_or map fold_right fst snd].
  - lia.
  - destruct (String.eqb_spec k k0) as [->|Hne]; cbn [map fold_right fst snd get_or].
    + lia.
    + cbv zeta in IH. lia.
Qed.

Lemma group_step_inv (dirs dirs' : list (String.string * (Z * Z))) (f : entry) :
  group_step dirs f = Got dirs' ->
  exists path size,
    e_path f = Some path /\ e_size f = Some size
    /\ (NoDup (map fst dirs) -> NoDup (map fst dirs'))
    /\ counts dirs' = (counts dirs + 1)%Z
    /\ volumes dirs' = (volumes dirs + size)%Z
    /\ forall d,
         dict_get dirs' d
         = if String.eqb d (first_component path)
           then Some (fst (get_or (dict_get dirs d) (0, 0)%Z) + 1,
                      snd (get_or (dict_get dirs d) (0, 0)%Z) + size)%Z
           else dict_get dirs d.
Proof.
  unfold group_step. intros H.
  apply and_then_inv in H. destruct H as (path & Hp & H). apply key_inv in Hp.
  cbv zeta in H. set (d := first_component path) in *.
  set (dirs1 := if has (dict_get dirs d) then dirs else dict_set dirs d (0, 0)%Z) in *.
  assert (H1 : dict_get dirs1 d = Some (get_or (dict_get dirs d) (0, 0)%Z)).
  { unfold dirs1. destruct (dict_get dirs d) as [v|] eqn:Ed; cbn [has get_or].
    - exact Ed.
    - now rewrite dict_get_set, String.eqb_refl. }
  assert (H1' : forall d', d' <> d -> dict_get dirs1 d' = dict_get dirs d').
  { intros d' Hd. unfold dirs1. destruct (has (dict_get dirs d)); [reflexivity|].
    rewrite dict_get_set. destruct (String.eqb_spec d' d); [contradiction | reflexivity]. }
  assert (S1 : counts dirs1 = counts dirs /\ volumes dirs1 = volumes dirs).
  { unfold dirs1. destruct (dict_get dirs d) as [v|] eqn:Ed; cbn [has]; [now split|].
    pose proof (dict_set_sums dirs d (0, 0)%Z) as S. cbv zeta in S.
    rewrite Ed in S. cbn [get_or fst snd] in S. lia. }
  assert (N1 : NoDup (map fst dirs) -> NoDup (map fst dirs1)).
  { unfold dirs1. destruct (has (dict_get dirs d)); [auto|]. apply dict_set_keys. }
  rewrite H1 in H. cbn [key and_then] in H.
  rewrite dict_get_set, String.eqb_refl in H. cbn [key and_then] in H.
  apply and_then_inv in H. destruct H as (size & Hs & H). apply key_inv in Hs.
  injection H as <-. cbn [fst snd].
  exists path, size. split; [assumption|]. split; [assumption|].
  set (old := get_or (dict_get dirs d) (0, 0)%Z) in *.
  pose proof (dict_set_sums dirs1 d (fst old + 1, snd old)%Z) as S2.
  cbv zeta in S2. rewrite H1 in S2. cbn [get_or fst snd] in S2.
  pose proof (dict_set_sums (dict_set dirs1 d (fst old + 1, snd old)%Z) d
                (fst old + 1, snd old + size)%Z) as S3.
  cbv zeta in S3. rewrite dict_get_set, String.eqb_refl in S3.
  cbn [get_or fst snd] in S3.
  split; [intros Hnd; now apply dict_set_keys, dict_set_keys, N1|].
  split; [lia|]. split; [lia|].
  intros d'. rewrite !dict_get_set. fold d. fold old.
  destruct (String.eqb_spec d' d) as [Hd|Hd]; [rewrite Hd; reflexivity|].
  now apply H1'.
Qed.

Lemma group_loop :
  forall (files : list entry) dirs0 dirs,
    for_all files group_step dirs0 = Got dirs ->
    (NoDup (map fst dirs0) -> NoDup (map fst dirs))
    /\ counts dirs = (counts dirs0 + Z.of_nat (length files))%Z
    /\ volumes dirs = (volumes dirs0 + total_size files)%Z
    /\ forall d,
         dict_get dirs d
         = if (length (under d files) =? 0)%nat then dict_get dirs0 d
           else Some (fst (get_or (dict_get dirs0 d) (0, 0)%Z)
                      + Z.of_nat (length (under d files)),
                      snd (get_or (dict_get dirs0 d) (0, 0)%Z)
                      + total_size (under d files))%Z.
Proof.
  induction files as [|f files IH]; intros dirs0 dirs H; cbn [for_all] in H.
  - injection H as <-. cbn [length under filter total_size map fold_right Nat.eqb].
    repeat split; auto; lia.
  - apply and_then_inv in H. destruct H as (dirs1 & H1 & H).
    apply group_step_inv in H1.
    destruct H1 as (path & size & Hp & Hs & N1 & C1 & V1 & G1).
    destruct (IH _ _ H) as (N2 & C2 & V2 & G2).
    split; [auto|]. split; [cbn [length]; lia|].
    split.
    { unfold total_size in *. cbn [map fold_right]. unfold size_of at 1.
      rewrite Hs. cbn [get_or]. lia. }
    intros d. rewrite G2, G1. unfold under. cbn [filter]. rewrite Hp.
    fold (under d files). rewrite (String.eqb_sym (first_component path) d).
    destruct (String.eqb_spec d (first_component path)) as [->|Hd].
    + cbn [length Nat.eqb get_or fst snd].
      unfold total_size at 2. cbn [map fold_right]. fold (total_size (under (first_component path) files)).
      unfold size_of at 1. rewrite Hs. cbn [get_or].
      destruct (Nat.eqb_spec (length (under (first_component path) files)) 0) as [E0|_].
      * rewrite E0. destruct (under (first_component path) files); [|discriminate].
        cbn [total_size map fold_right]. do 2 f_equal; lia.
      * do 2 f_equal; lia.
    + reflexivity.
Qed.

(** X16. When the directory table of [cmd_manifest] is built, its keys
    are distinct, the entry of a directory holds the number and the
    total size of the files whose path starts with it, a directory
    without a file has no entry, and the counts add up to the number of
    files and the sizes to their total. *)
Theorem group_by_directory_totals (m : manifest)
  (dirs : list (String.string * (Z * Z))) :
  group_by_directory m = Got dirs ->
  let files := get_or (m_files m) [] in
  NoDup (map fst dirs)
  /\ counts dirs = Z.of_nat (length files)
  /\ volumes dirs = total_size files
  /\ forall d,
       dict_get dirs d
       = if (length (under d files) =? 0)%nat then None
         else Some (Z.of_nat (length (under d files)), total_size (under d files)).
Proof.
  intros H files. unfold group_by_directory in H. fold files in H.
  destruct (group_loop _ _ _ H) as (N & C & V & G).
  split; [apply N; constructor|]. split; [exact C|]. split; [exact V|].
  intros d. rewrite G. cbn [dict_get get_or fst snd].
  destruct (_ =? _)%nat; reflexivity.
Qed.

(** ** The download plan *)

Lemma plan_loop (include_filters : bool) :
  forall (files : list entry) dl0 t0 dl t,
    for_all files (plan_step include_filters) (dl0, t0) = Got (dl, t) ->
    dl = dl0 ++ map pair_of (filter (listed include_filters) files)
    /\ t = (t0 + total_size (filter (listed include_filters) files))%Z.
Proof.
  induction files as [|f files IH]; intros dl0 t0 dl t H; cbn [for_all] in H.
  - injection H as <- <-. cbn. rewrite app_nil_r. split; [reflexivity | lia].
  - apply and_then_inv in H. destruct H as ([dl1 t1] & H1 & H).
    unfold plan_step in H1.
    apply and_then_inv in H1. destruct H1 as (path & Hp & H1). apply key_inv in Hp.
    apply and_then_inv in H1. destruct H1 as (size & Hs & H1). apply key_inv in Hs.
    destruct (IH _ _ _ _ H) as [-> ->].
    assert (Hl : listed include_filters f
                 = negb (negb include_filters && String.prefix "indexes/"%string path))
      by (unfold listed; now rewrite Hp).
    assert (Hpair : pair_of f = (path, size))
      by (unfold pair_of, size_of; now rewrite Hp, Hs).
    cbn [filter]. rewrite Hl.
    destruct (negb include_filters && String.prefix "indexes/"%string path);
      cbn [negb]; injection H1 as <- <-.
    + now split.
    + cbn [map]. rewrite Hpair. unfold total_size. cbn [map fold_right].
      replace (size_of f) with size by (unfold size_of; now rewrite Hs).
      rewrite <- app_assoc. split; [reflexivity | lia].
Qed.

Lemma downloaded_le (download_file : String.string -> bool) :
  forall (dl : list (String.string * Z)) (acc : Z),
    Forall (fun ps => (0 <= snd ps)%Z) dl ->
    (acc <= fold_left (fun a ps => if download_file (fst ps) then (a + snd ps)%Z else a)
              dl acc
     <= acc + fold_right Z.add 0%Z (map snd dl))%Z.
Proof.
  induction dl as [|[p s] dl IH]; intros acc H; cbn [fold_left map fold_right fst snd].
  - lia.
  - inversion H as [|? ? Hs Hdl]; subst. cbn [snd] in Hs.
    destruct (download_file p).
    + specialize (IH (acc + s)%Z Hdl). lia.
    + specialize (IH acc Hdl). lia.
Qed.

(** X17. The plan of [cmd_download] lists, in the order of the
    manifest, the files it will fetch with their sizes, and
    [total_size] is the sum of the listed sizes. With filters included
    every file is listed; without them exactly the files whose path
    starts with [indexes/] are left out. If no size is negative, the
    amount counted as downloaded lies between 0 and [total_size],
    whichever transfers succeed. *)
Theorem download_plan_lists (m : manifest) (include_filters : bool)
  (download_list : list (String.string * Z)) (total : Z)
  (download_file : String.string -> bool) :
  download_plan m include_filters = Got (download_list, total) ->
  let files := get_or (m_files m) [] in
  download_list = map pair_of (filter (listed include_filters) files)
  /\ total = fold_right Z.add 0%Z (map snd download_list)
  /\ (include_filters = true -> length download_list = length files)
  /\ (include_filters = false ->
      forall p s, In (p, s) download_list -> String.prefix "indexes/"%string p = false)
  /\ (Forall (fun ps => (0 <= snd ps)%Z) download_list ->
      (0 <= downloaded_total download_file download_list <= total)%Z).
Proof.
  intros H files. unfold download_plan in H. fold files in H. pose proof H as Hrun.
  apply plan_loop in H. destruct H as [Hdl Ht]. cbn [app] in Hdl.
  assert (Hsum : total = fold_right Z.add 0%Z (map snd download_list)).
  { rewrite Ht, Hdl. unfold total_size.
    replace (map snd (map pair_of (filter (listed include_filters) files)))
      with (map size_of (filter (listed include_filters) files))
      by (rewrite map_map; reflexivity).
    lia. }
  split; [exact Hdl|]. split; [exact Hsum|]. split; [|split].
  - intros ->. rewrite Hdl, length_map.
    assert (Hall : forall f, In f files -> listed true f = true).
    { clear - Hrun. revert Hrun.
      generalize (@nil (String.string * Z), 0%Z).
      induction files as [|f fs IH]; intros st Hrun g Hg; [contradiction|].
      cbn [for_all] in Hrun. apply and_then_inv in Hrun.
      destruct Hrun as (st1 & H1 & Hrun).
      destruct Hg as [->|Hg]; [|now apply (IH _ Hrun)].
      destruct st as [dl0 t0]. unfold plan_step in H1.
      apply and_then_inv in H1. destruct H1 as (path & Hp & _).
      apply key_inv in Hp. unfold listed. now rewrite Hp. }
    clear - Hall. induction files as [|f fs IH]; [reflexivity|].
    cbn [filter]. rewrite (Hall f) by now left. cbn [length]. f_equal.
    apply IH. intros g Hg. apply Hall. now right.
  - intros -> p s Hin. rewrite Hdl in Hin. apply in_map_iff in Hin.
    destruct Hin as (f & Ef & Hf). apply filter_In in Hf. destruct Hf as [_ Hl].
    unfold listed in Hl. unfold pair_of in Ef.
    destruct (e_path f) as [q|]; [|discriminate]. cbn [get_or] in Ef.
    injection Ef as <- _. cbn [negb andb] in Hl.
    now apply negb_true_iff in Hl.
  - intros Hpos. unfold downloaded_total.
    pose proof (downloaded_le download_file download_list 0 Hpos). lia.
Qed.

(** ** The three smallest files *)

Lemma insert_by_key_perm x l : Permutation (insert_by_key x l) (x :: l).
Proof.
  induction l as [|y l IH]; cbn [insert_by_key]; [reflexivity|].
  destruct (fst x <? fst y)%Z; [reflexivity|]. rewrite IH. apply perm_swap.
Qed.

Lemma insert_by_key_sorted x l :
  StronglySorted by_key l -> StronglySorted by_key (insert_by_key x l).
Proof.
  induction 1 as [|y l Hl IH Hy]; cbn [insert_by_key].
  - repeat constructor.
  - destruct (Z.ltb_spec (fst x) (fst y)) as [Hlt|Hge].
    + constructor; [now constructor|].
      constructor; [unfold by_key; lia|].
      eapply Forall_impl; [|exact Hy]. unfold by_key. intros z Hz. lia.
    + constructor; [assumption|].
      apply (Permutation_Forall (x := x :: l)).
      * symmetry. apply insert_by_key_perm.
      * constructor; [unfold by_key; lia | assumption].
Qed.

Lemma sorted_by_key_spec (l : list (Z * entry)) :
  Permutation (sorted_by_key l) l /\ StronglySorted by_key (sorted_by_key l).
Proof.
  unfold sorted_by_key.
  assert (H : forall acc, StronglySorted by_key acc ->
              Permutation (fold_left (fun acc x => insert_by_key x acc) l acc) (l ++ acc)
              /\ StronglySorted by_key
                   (fold_left (fun acc x => insert_by_key x acc) l acc)).
  { induction l as [|x l IH]; intros acc Hacc; cbn [fold_left app].
    - now split.
    - destruct (IH (insert_by_key x acc) (insert_by_key_sorted x acc Hacc)) as [P S].
      split; [|exact S]. rewrite P, insert_by_key_perm. symmetry.
      apply Permutation_middle. }
  destruct (H [] ltac:(constructor)) as [P S]. rewrite app_nil_r in P. now split.
Qed.

Lemma size_keys_inv (files : list entry) (keyed : list (Z * entry)) :
  size_keys files = Got keyed ->
  map snd keyed = files /\ Forall (fun kf => e_size (snd kf) = Some (fst kf)) keyed.
Proof.
  revert keyed. induction files as [|f files IH]; intros keyed H; cbn [size_keys] in H.
  - injection H as <-. split; [reflexivity | constructor].
  - apply and_then_inv in H. destruct H as (size & Hs & H). apply key_inv in Hs.
    apply and_then_inv in H. destruct H as (rest & Hr & H). injection H as <-.
    destruct (IH _ Hr) as [E Hall]. cbn [map snd]. rewrite E.
    split; [reflexivity|]. constructor; [exact Hs | exact Hall].
Qed.

Lemma firstn_In {A} (n : nat) (l : list A) (x : A) :
  In x (firstn n l) -> In x l.
Proof.
  intros H. rewrite <- (firstn_skipn n l). apply in_or_app. now left.
Qed.

Lemma sorted_firstn {A} (R : A -> A -> Prop) (l : list A) (n : nat) :
  StronglySorted R l -> StronglySorted R (firstn n l).
Proof.
  intros H. revert n. induction H as [|a l Hl IH Ha]; intros [|n]; cbn [firstn];
    try constructor.
  - apply IH.
  - rewrite Forall_forall in *. intros x Hx. apply Ha.
    now apply firstn_In with n.
Qed.

Lemma sorted_firstn_skipn {A} (R : A -> A -> Prop) (l : list A) (n : nat) :
  StronglySorted R l ->
  forall x y, In x (firstn n l) -> In y (skipn n l) -> R x y.
Proof.
  intros H. revert n. induction H as [|a l Hl IH Ha]; intros n x y Hx Hy.
  - destruct n; contradiction.
  - destruct n as [|n]; [contradiction|]. cbn [firstn skipn] in Hx, Hy.
    destruct Hx as [->|Hx].
    + rewrite Forall_forall in Ha. apply Ha.
      rewrite <- (firstn_skipn n l). apply in_or_app. now right.
    + now apply (IH n).
Qed.

(** X18. [cmd_receive] picks [min 3 n] of the [n] files of the
    manifest, in ascending order of size, and no file left out is
    smaller than a file picked. *)
Theorem small_files_smallest (m : manifest) (small : list entry) :
  small_files m = Got small ->
  let files := get_or (m_files m) [] in
  length small = Nat.min 3 (length files)
  /\ StronglySorted (fun f g => (size_of f <= size_of g)%Z) small
  /\ exists rest,
       Permutation (small ++ rest) files
       /\ forall f g, In f small -> In g rest -> (size_of f <= size_of g)%Z.
Proof.
  intros H files. unfold small_files in H. fold files in H.
  apply and_then_inv in H. destruct H as (keyed & Hk & H).
  assert (Hsmall : small = map snd (firstn 3 (sorted_by_key keyed)))
    by (injection H; intros <-; reflexivity).
  clear H. subst small.
  apply size_keys_inv in Hk. destruct Hk as [Hfiles Hsizes].
  destruct (sorted_by_key_spec keyed) as [Hperm Hsorted].
  set (s := sorted_by_key keyed) in *.
  assert (Hs : Forall (fun kf => e_size (snd kf) = Some (fst kf)) s).
  { apply (Permutation_Forall (x := keyed)); [now symmetry | assumption]. }
  assert (Hsize : forall kf, In kf s -> size_of (snd kf) = fst kf).
  { intros kf Hin. rewrite Forall_forall in Hs. unfold size_of.
    now rewrite (Hs kf Hin). }
  split.
  { rewrite length_map, length_firstn, (Permutation_length Hperm).
    now rewrite <- Hfiles, length_map. }
  split.
  { assert (Hss : StronglySorted by_key (firstn 3 s))
      by now apply sorted_firstn.
    assert (Hin3 : forall kf, In kf (firstn 3 s) -> In kf s).
    { intros kf Hkf. now apply firstn_In with 3%nat. }
    clear - Hss Hsize Hin3. induction Hss as [|a l Hl IH Ha]; cbn [map].
    - constructor.
    - constructor.
      + apply IH. intros kf Hkf. apply Hin3. now right.
      + rewrite Forall_forall in *. intros g Hg. apply in_map_iff in Hg.
        destruct Hg as (kf & <- & Hkf).
        rewrite (Hsize a) by (apply Hin3; now left).
        rewrite (Hsize kf) by (apply Hin3; now right). now apply Ha. }
  exists (map snd (skipn 3 s)). split.
  - rewrite <- map_app, firstn_skipn, <- Hfiles. now apply Permutation_map.
  - intros f g Hf Hg. apply in_map_iff in Hf, Hg.
    destruct Hf as (kf & <- & Hf), Hg as (kg & <- & Hg).
    assert (In kf s) by (rewrite <- (firstn_skipn 3 s); apply in_or_app; now left).
    assert (In kg s) by (rewrite <- (firstn_skipn 3 s); apply in_or_app; now right).
    rewrite !Hsize by assumption.
    now apply (sorted_firstn_skipn by_key s 3 Hsorted).
Qed.

(* ================================================================== *)
(** * A value that is not positive *)

Lemma for_each_raises {A S} (xs : list A) (body : S -> A -> result S) (a : A) :
  In a xs -> (forall s, exists e, body s a = Raise e) ->
  forall s r, for_each xs body s <> Ret r.
Proof.
  intros Hin Hbad. induction xs as [|x xs IH]; [contradiction|].
  intros s r. cbn [for_each]. destruct Hin as [->|Hin].
  - destruct (Hbad s) as (e & ->). discriminate.
  - destruct (body s x) as [s'|e]; cbn [bind]; [now apply IH | discriminate].
Qed.

Lemma hist_step_nonpositive {F : Type} {N : PyNum F} (L : Libm F)
  (edges bc : list F) (a : F) :
  fle a zero = true -> hist_step L edges bc a = Raise ValueError.
Proof. intros H. unfold hist_step, log10. now rewrite H. Qed.

(** X8. [math.log10] rejects a value that is not positive: if the
    first value is zero or negative [calc_price] raises [ValueError],
    and with such a value anywhere in the input it returns no price. *)
Theorem calc_price_nonpositive_raises {F : Type} {N : PyNum F} (L : Libm F)
  (raw : list F) (hs ts : list Z) (a : F) :
  fle a zero = true ->
  calc_price L (a :: raw) hs ts = Raise ValueError
  /\ (In a raw -> forall r, calc_price L raw hs ts <> Ret r).
Proof.
  intros Ha. split.
  - unfold calc_price, histogram. cbv zeta. cbn [for_each].
    now rewrite hist_step_nonpositive.
  - intros Hin r H. apply calc_price_ret in H.
    destruct H as (h & _ & _ & _ & _ & _ & _ & Hh & _).
    revert Hh. apply for_each_raises with a; [assumption|].
    intros s. exists ValueError. now apply hist_step_nonpositive.
Qed.

(* ================================================================== *)
(** * The refined price stays near the rough price *)

Section Near.

Context {F : Type} {N : PyNum F} {V : RealView F} {E : ExactLaws F}.

(** A split is [float(rough)] or one of the candidate prices. *)
Lemma fco_from (rough : Z) (op : list F) (pmin pmax : F) :
  fst (fco rough op pmin pmax) = of_Z rough \/ In (fst (fco rough op pmin pmax)) op.
Proof.
  unfold fco. set (f := window op pmin pmax).
  destruct (Nat.eqb_spec (length f) 0) as [H0|Hne]; [now left|].
  right. destruct (prefix_sums f) as [ps t]. cbn [fst].
  assert (Hf : f <> []) by (intros Hc; now rewrite Hc in Hne).
  destruct (best_index_spec f ps t Hf) as [Hbi _].
  assert (Hin : In (nth (best_index f ps t) f zero) f) by now apply nth_In.
  unfold f, window in Hin.
  apply (Permutation_in _ (sorted_perm _)) in Hin.
  apply filter_In in Hin. tauto.
Qed.

Lemma converge_from (rough : Z) (op : list F) :
  forall rounds cp2 avset,
    (cp2 = of_Z rough \/ In cp2 op) ->
    converge rough op rounds cp2 avset = of_Z rough
    \/ In (converge rough op rounds cp2 avset) op.
Proof.
  induction rounds as [|rounds IH]; intros cp2 avset H; cbn [converge].
  - exact H.
  - destruct (seen _ _).
    + apply fco_from.
    + apply IH. apply fco_from.
Qed.

Lemma refine_from (rough : Z) (op : list F) :
  refine rough op = of_Z rough \/ In (refine rough op) op.
Proof. unfold refine. apply converge_from. apply fco_from. Qed.

(** A pair inside the band of a positive rough price has its price
    between 4/5 and 4/3 of the rough price. *)
Lemma in_band_price (rough : Z) (n : F) (u : Z) :
  (0 < rough)%Z -> (0 < u)%Z -> in_band rough n u = true ->
  (4 / 5 * IZR rough < toR (price (n, u)) < 4 / 3 * IZR rough)%R.
Proof.
  intros Hr Hu Hb.
  pose proof (in_band_pos rough n u ltac:(lia) Hu Hb) as Hn.
  unfold in_band in Hb. rewrite andb_true_iff, !flt_spec in Hb.
  rewrite toR_sub, toR_add, toR_mul, toR_prw in Hb.
  assert (Hr' : (0 < IZR rough)%R) by now apply IZR_lt.
  assert (Hu' : (0 < IZR u)%R) by now apply IZR_lt.
  rewrite toR_quo in Hb by (rewrite toR_of_Z; lra). rewrite !toR_of_Z in Hb.
  unfold price. cbn [fst snd]. rewrite toR_quo by lra. rewrite toR_of_Z.
  set (x := toR n) in *. set (r := IZR rough) in *. set (w := IZR u) in *.
  destruct Hb as [Hlo Hhi].
  assert (Hlo' : (3 / 4 * w < x * r)%R).
  { apply Rmult_lt_compat_r with (r := r) in Hlo; [|assumption].
    replace ((w / r - 25 / 100 * (w / r)) * r)%R with (3 / 4 * w)%R in Hlo
      by (field; lra). lra. }
  assert (Hhi' : (x * r < 5 / 4 * w)%R).
  { apply Rmult_lt_compat_r with (r := r) in Hhi; [|assumption].
    replace ((w / r + 25 / 100 * (w / r)) * r)%R with (5 / 4 * w)%R in Hhi
      by (field; lra). lra. }
  split.
  - apply Rmult_lt_reg_r with x; [assumption|].
    replace (w / x * x)%R with w by (field; lra). nra.
  - apply Rmult_lt_reg_r with x; [assumption|].
    replace (w / x * x)%R with w by (field; lra). nra.
Qed.

(** No pair is inside the band of a negative rough price. *)
Lemma in_band_negative (rough : Z) (n : F) (u : Z) :
  (rough < 0)%Z -> (0 < u)%Z -> in_band rough n u = false.
Proof.
  intros Hr Hu. destruct (in_band rough n u) eqn:Hb; [|reflexivity]. exfalso.
  unfold in_band in Hb. rewrite andb_true_iff, !flt_spec in Hb.
  rewrite toR_sub, toR_add, toR_mul, toR_prw in Hb.
  assert (Hr' : (IZR rough < 0)%R) by now apply IZR_lt.
  assert (Hu' : (0 < IZR u)%R) by now apply IZR_lt.
  rewrite toR_quo in Hb by (rewrite toR_of_Z; lra). rewrite !toR_of_Z in Hb.
  assert (IZR u / IZR rough < 0)%R.
  { unfold Rdiv. apply Rmult_pos_neg; [assumption|].
    now apply Rinv_lt_0_compat. }
  lra.
Qed.

Lemma candidates_near (rough : Z) (mr raw op : list F) (p : F) :
  voter rough mr raw = Ret op -> In p op ->
  (0 < rough)%Z /\ (4 / 5 * IZR rough < toR p < 4 / 3 * IZR rough)%R.
Proof.
  intros Hv Hp. pose proof (voter_survivors _ _ _ _ Hv) as ->.
  assert (Hr0 : rough <> 0%Z).
  { apply (voter_rough_nonzero _ _ _ _ Hv). intros ->. contradiction. }
  apply in_map_iff in Hp. destruct Hp as ([n u] & <- & Hin).
  unfold survivors in Hin. apply filter_In in Hin. destruct Hin as [Hin Hf].
  apply in_prod_iff in Hin. destruct Hin as [_ Hu]. apply usds_pos in Hu.
  cbn [fst snd] in Hf. apply andb_true_iff in Hf. destruct Hf as [Hband _].
  assert (Hr : (0 < rough)%Z).
  { destruct (Z_lt_le_dec 0 rough) as [|Hle]; [assumption|].
    rewrite in_band_negative in Hband by lia. discriminate. }
  split; [exact Hr|]. now apply in_band_price.
Qed.

Lemma final_price_near (rough : Z) (mr raw op : list F) (final : Z) :
  voter rough mr raw = Ret op -> final_price rough op = Ret final ->
  final = rough
  \/ ((0 < rough)%Z /\ (4 * rough - 5 < 5 * final)%Z /\ (3 * final < 4 * rough)%Z).
Proof.
  intros Hv Hf. unfold final_price in Hf.
  destruct (refine_from rough op) as [Hr|Hin].
  - left. rewrite Hr, ftrunc_of_Z in Hf. now injection Hf.
  - right. destruct (candidates_near _ _ _ _ _ Hv Hin) as [Hpos [Hlo Hhi]].
    split; [exact Hpos|].
    destruct (ftrunc_spec (refine rough op)) as (z & Ez & Hz & _).
    rewrite Ez in Hf. injection Hf as <-.
    assert (Hr' : (0 < IZR rough)%R) by now apply IZR_lt.
    destruct (Hz ltac:(lra)) as [Hz1 Hz2]. split.
    + apply lt_IZR. rewrite minus_IZR, !mult_IZR. lra.
    + apply lt_IZR. rewrite !mult_IZR. lra.
Qed.

End Near.


(* ================================================================== *)
(** * The range of the rough price *)

Section Range.

Context {F : Type} {N : PyNum F} {V : RealView F} {E : ExactLaws F}.

(** The blend is a weighted mean of the two quotes. *)
Lemma blend_between (bss ts ns bu1 bu2 : F) (rough : Z) (lo hi : R) :
  (toR ts <= 342 * toR bss)%R -> (0 <= lo)%R ->
  (lo <= toR bu1 <= hi)%R -> (lo <= toR bu2 <= hi)%R ->
  blend bss ts ns bu1 bu2 = Ret rough ->
  (lo - 1 < IZR rough <= hi)%R.
Proof.
  intros Hts Hlo H1 H2. unfold blend. cbv zeta.
  set (avs := fquo ts (of_Z (201 - -141))).
  set (a1 := fsub bss avs). set (a2 := fabs (fsub ns avs)).
  intros H. unbind H as w1 Hw1. unbind H as w2 Hw2.
  apply fdiv_ret in Hw1, Hw2.
  destruct Hw1 as (Hden & _ & Ew1), Hw2 as (_ & _ & Ew2).
  assert (Havs : toR avs = (toR ts / 342)%R).
  { unfold avs. rewrite toR_quo; rewrite toR_of_Z; [reflexivity|].
    apply not_0_IZR. lia. }
  assert (Ha1 : (0 <= toR a1)%R).
  { unfold a1. rewrite toR_sub, Havs. lra. }
  assert (Ha2 : (0 <= toR a2)%R).
  { unfold a2. rewrite toR_abs. apply Rabs_pos. }
  rewrite toR_add in Hden, Ew1, Ew2.
  assert (Hsum : (0 < toR a1 + toR a2)%R) by lra.
  assert (Hw1 : (0 <= toR w1)%R).
  { rewrite Ew1. apply Rmult_le_pos; [assumption|].
    apply Rlt_le. now apply Rinv_0_lt_compat. }
  assert (Hw2 : (0 <= toR w2)%R).
  { rewrite Ew2. apply Rmult_le_pos; [assumption|].
    apply Rlt_le. now apply Rinv_0_lt_compat. }
  assert (Hone : (toR w1 + toR w2 = 1)%R).
  { rewrite Ew1, Ew2. field. lra. }
  destruct (ftrunc_spec (fadd (fmul w1 bu1) (fmul w2 bu2))) as (z & Ez & Hpos & _).
  rewrite Ez in H. injection H as <-.
  rewrite toR_add, !toR_mul in Hpos.
  assert (Hval : (lo <= toR w1 * toR bu1 + toR w2 * toR bu2 <= hi)%R) by nra.
  destruct (Hpos ltac:(lra)) as [Hz1 Hz2]. lra.
Qed.

Lemma anchor_quote_between (edges : list F) (i : Z) (u bu : F) (a b : F) :
  (0 < toR a)%R ->
  forallb (fun e => fle a e && fle e b) (slice edges 459 803) = true ->
  (459 <= i <= 802)%Z ->
  getitem edges i = Ret u -> fdiv (lit 100 0) u = Ret bu ->
  (100 / toR b <= toR bu <= 100 / toR a)%R.
Proof.
  intros Ha Hall Hi Hu Hbu.
  apply (getitem_inv _ _ _ zero) in Hu. destruct Hu as (k & Hk & Hlt & ->).
  apply py_index_nonneg_inv in Hk; [|lia]. destruct Hk as [-> _].
  rewrite forallb_forall in Hall.
  specialize (Hall _ (slice_In edges 459 803 (Z.to_nat i) zero ltac:(lia) Hlt)).
  apply andb_true_iff in Hall. destruct Hall as [Hlo Hhi].
  apply fle_spec in Hlo, Hhi.
  apply fdiv_ret in Hbu. destruct Hbu as (_ & _ & ->). rewrite toR_lit.
  change (IZR (10 ^ Z.of_nat 0)) with 1%R.
  set (x := toR (nth (Z.to_nat i) edges zero)) in *.
  assert (Hx : (0 < x)%R) by lra.
  assert (Hb : (0 < toR b)%R) by lra.
  split.
  - apply Rmult_le_reg_r with (toR b * x)%R; [nra|].
    replace (100 / toR b * (toR b * x))%R with (100 * x)%R by (field; lra).
    replace (100 / 1 / x * (toR b * x))%R with (100 * toR b)%R by (field; lra).
    lra.
  - apply Rmult_le_reg_r with (toR a * x)%R; [nra|].
    replace (100 / toR a * (toR a * x))%R with (100 * x)%R by (field; lra).
    replace (100 / 1 / x * (toR a * x))%R with (100 * toR a)%R by (field; lra).
    lra.
Qed.

Lemma anchor_between (ss sp edges bc : list F) (rough : Z) (a b : F) :
  (0 < toR a)%R ->
  forallb (fun e => fle a e && fle e b) (slice edges 459 803) = true ->
  anchor ss sp edges bc = Ret rough ->
  (100 / toR b - 1 < IZR rough <= 100 / toR a)%R.
Proof.
  intros Ha Hedges H. unfold anchor in H. cbv zeta in H.
  unbind H as best Hbest. destruct best as [[bsl bss] ts].
  unbind H as u1 Hu1. unbind H as bu1 Hbu1.
  unbind H as nb Hnb. destruct nb as [nus nds].
  unbind H as u2 Hu2. unbind H as bu2 Hbu2.
  apply best_shift_inv in Hbest. destruct Hbest as (Hbsl & _ & Hts).
  assert (Hbn : (bn2 nus nds = -1 \/ bn2 nus nds = 1)%Z).
  { unfold bn2. destruct (flt nus nds); auto. }
  assert (H1 : (100 / toR b <= toR bu1 <= 100 / toR a)%R).
  { apply (anchor_quote_between edges (cp + bsl) u1); auto. unfold cp. lia. }
  assert (H2 : (100 / toR b <= toR bu2 <= 100 / toR a)%R).
  { apply (anchor_quote_between edges (cp + bsl + bn2 nus nds) u2); auto.
    unfold cp. lia. }
  assert (Hab : (0 < toR b)%R).
  { assert (100 / toR b <= 100 / toR a)%R by lra.
    destruct (Rlt_le_dec 0 (toR b)) as [|Hle]; [assumption|]. exfalso.
    assert (0 < 100 / toR a)%R by (apply Rdiv_lt_0_compat; lra).
    destruct (Req_dec (toR b) 0) as [Hz|Hnz].
    - (* the quote of an edge equal to b = 0 is not defined *)
      apply (getitem_inv _ _ _ zero) in Hu1. destruct Hu1 as (k & Hk & Hlt & ->).
      apply py_index_nonneg_inv in Hk; [|unfold cp; lia]. destruct Hk as [-> _].
      rewrite forallb_forall in Hedges.
      specialize (Hedges _ (slice_In edges 459 803 (Z.to_nat (cp + bsl)) zero
                              ltac:(unfold cp; lia) Hlt)).
      apply andb_true_iff in Hedges. destruct Hedges as [Hlo Hhi].
      apply fle_spec in Hlo, Hhi. lra.
    - assert (toR b < 0)%R by lra.
      assert (100 / toR b < 0)%R.
      { unfold Rdiv. apply Rmult_pos_neg; [lra|]. now apply Rinv_lt_0_compat. }
      apply (getitem_inv _ _ _ zero) in Hu1. destruct Hu1 as (k & Hk & Hlt & ->).
      apply py_index_nonneg_inv in Hk; [|unfold cp; lia]. destruct Hk as [-> _].
      rewrite forallb_forall in Hedges.
      specialize (Hedges _ (slice_In edges 459 803 (Z.to_nat (cp + bsl)) zero
                              ltac:(unfold cp; lia) Hlt)).
      apply andb_true_iff in Hedges. destruct Hedges as [Hlo Hhi].
      apply fle_spec in Hlo, Hhi. lra. }
  apply (blend_between bss ts (fmax nus nds) bu1 bu2 rough (100 / toR b)%R
           (100 / toR a)%R Hts); try assumption.
  apply Rlt_le. apply Rdiv_lt_0_compat; lra.
Qed.

End Range.


(** ** The edges of the real model *)

Section RealEdges.

Local Open Scope R_scope.

(** [x <= 10^(p/q)] from [x^q <= 10^p], and the converse bound. *)
Lemma root_le (x : R) (p q : nat) :
  0 < x -> (0 < q)%nat -> x ^ q <= 10 ^ p -> x <= Rpower 10 (INR p / INR q).
Proof.
  intros Hx Hq H. pose proof ln_10_pos as H10.
  assert (Hq' : 0 < INR q) by (apply lt_0_INR; lia).
  assert (Hln : INR q * ln x <= INR p * ln 10).
  { rewrite <- !ln_pow by lra.
    destruct (Rle_lt_or_eq_dec _ _ H) as [Hlt|Heq].
    - left. apply ln_increasing; [now apply pow_lt | assumption].
    - right. now rewrite Heq. }
  rewrite <- (exp_ln x) at 1 by assumption. unfold Rpower.
  assert (Hle : ln x <= INR p / INR q * ln 10).
  { apply Rmult_le_reg_l with (INR q); [assumption|].
    replace (INR q * (INR p / INR q * ln 10)) with (INR p * ln 10) by (field; lra).
    assumption. }
  destruct (Rle_lt_or_eq_dec _ _ Hle) as [Hlt|Heq].
  - left. now apply exp_increasing.
  - right. now rewrite Heq.
Qed.

Lemma root_ge (x : R) (p q : nat) :
  0 < x -> (0 < q)%nat -> 10 ^ p <= x ^ q -> Rpower 10 (INR p / INR q) <= x.
Proof.
  intros Hx Hq H. pose proof ln_10_pos as H10.
  assert (Hq' : 0 < INR q) by (apply lt_0_INR; lia).
  assert (Hln : INR p * ln 10 <= INR q * ln x).
  { rewrite <- !ln_pow by lra.
    destruct (Rle_lt_or_eq_dec _ _ H) as [Hlt|Heq].
    - left. apply ln_increasing; [apply pow_lt; lra | assumption].
    - right. now rewrite Heq. }
  rewrite <- (exp_ln x) at 1 by assumption. unfold Rpower.
  assert (Hle : INR p / INR q * ln 10 <= ln x).
  { apply Rmult_le_reg_l with (INR q); [assumption|].
    replace (INR q * (INR p / INR q * ln 10)) with (INR p * ln 10) by (field; lra).
    assumption. }
  destruct (Rle_lt_or_eq_dec _ _ Hle) as [Hlt|Heq].
  - left. now apply exp_increasing.
  - right. now rewrite Heq.
Qed.

Lemma pow_ratio (a b : Z) (q : nat) :
  (0 < b)%Z -> (IZR a / IZR b) ^ q = IZR (a ^ Z.of_nat q) / IZR (b ^ Z.of_nat q).
Proof.
  intros Hb. assert (Hb' : IZR b <> 0) by (apply not_0_IZR; lia).
  rewrite <- !pow_IZR. unfold Rdiv. rewrite Rpow_mult_distr, pow_inv.
  reflexivity.
Qed.

Lemma ratio_pow_le (a b : Z) (p q : nat) :
  (0 < b)%Z -> (a ^ Z.of_nat q <= 10 ^ Z.of_nat p * b ^ Z.of_nat q)%Z ->
  (IZR a / IZR b) ^ q <= 10 ^ p.
Proof.
  intros Hb H. rewrite pow_ratio by assumption.
  assert (Hbq : 0 < IZR (b ^ Z.of_nat q)).
  { apply IZR_lt. apply Z.pow_pos_nonneg; lia. }
  apply Rmult_le_reg_r with (IZR (b ^ Z.of_nat q)); [assumption|].
  replace (IZR (a ^ Z.of_nat q) / IZR (b ^ Z.of_nat q) * IZR (b ^ Z.of_nat q))
    with (IZR (a ^ Z.of_nat q)) by (field; lra).
  replace (10 ^ p) with (IZR (10 ^ Z.of_nat p)) by (now rewrite <- pow_IZR).
  rewrite <- mult_IZR. now apply IZR_le.
Qed.

Lemma ratio_pow_ge (a b : Z) (p q : nat) :
  (0 < b)%Z -> (10 ^ Z.of_nat p * b ^ Z.of_nat q <= a ^ Z.of_nat q)%Z ->
  10 ^ p <= (IZR a / IZR b) ^ q.
Proof.
  intros Hb H. rewrite pow_ratio by assumption.
  assert (Hbq : 0 < IZR (b ^ Z.of_nat q)).
  { apply IZR_lt. apply Z.pow_pos_nonneg; lia. }
  apply Rmult_le_reg_r with (IZR (b ^ Z.of_nat q)); [assumption|].
  replace (IZR (a ^ Z.of_nat q) / IZR (b ^ Z.of_nat q) * IZR (b ^ Z.of_nat q))
    with (IZR (a ^ Z.of_nat q)) by (field; lra).
  replace (10 ^ p) with (IZR (10 ^ Z.of_nat p)) by (now rewrite <- pow_IZR).
  rewrite <- mult_IZR. now apply IZR_le.
Qed.

Lemma pow10_neg (n : nat) : Rpower 10 (- INR n) = / 10 ^ n.
Proof. rewrite Rpower_Ropp, Rpower_pow by lra. reflexivity. Qed.

(** 10^-3.71 and 10^-1.995 *)
Lemma edge_459 : 194984 / 1000000000 <= Rpower 10 (INR 458 / 200 - 6).
Proof.
  replace (INR 458 / 200 - 6) with (INR 29 / INR 100 + - INR 4).
  2:{ rewrite !INR_IZR_INZ. cbn [Z.of_nat Pos.of_succ_nat Pos.succ]. lra. }
  rewrite Rpower_plus, pow10_neg.
  assert (H : IZR 194984 / IZR 100000 <= Rpower 10 (INR 29 / INR 100)).
  { apply root_le; [lra | lia |]. apply ratio_pow_le; [lia|].
    apply Z.leb_le. vm_compute. reflexivity. }
  cbn [pow]. lra.
Qed.

Lemma edge_802 : Rpower 10 (INR 801 / 200 - 6) <= 10116 / 1000000.
Proof.
  replace (INR 801 / 200 - 6) with (INR 1 / INR 200 + - INR 2).
  2:{ rewrite !INR_IZR_INZ. cbn [Z.of_nat Pos.of_succ_nat Pos.succ]. lra. }
  rewrite Rpower_plus, pow10_neg.
  assert (H : Rpower 10 (INR 1 / INR 200) <= IZR 10116 / IZR 10000).
  { apply root_ge; [lra | lia |]. apply ratio_pow_ge; [lia|].
    apply Z.leb_le. vm_compute. reflexivity. }
  assert (0 < Rpower 10 (INR 1 / INR 200)) by apply exp_pos.
  cbn [pow]. lra.
Qed.

(** The exact powers of ten lie within the bounds on the edges. *)
Lemma ideal_edges_bounds :
  forallb (fun e : R => fle (lit 194984 9) e && fle e (lit 10116 6))
          (slice (bins Ideal.libm) 459 803) = true.
Proof.
  apply forallb_forall. intros e He.
  apply (In_slice _ _ _ _ 0%R) in He. destruct He as (k & Hk & _ & ->).
  destruct k as [|k]; [lia|]. rewrite bins_nth by lia.
  assert (Hk1 : INR 458 <= INR k) by (apply le_INR; lia).
  assert (Hk2 : INR k <= INR 801) by (apply le_INR; lia).
  apply andb_true_iff. split.
  - apply (fle_spec (F := R)). unfold toR, Ideal.view.
    cbn [lit of_Z fquo Ideal.num].
    apply Rle_trans with (Rpower 10 (INR 458 / 200 - 6)).
    + replace (IZR 194984 / IZR (10 ^ Z.of_nat 9)) with (194984 / 1000000000)
        by reflexivity.
      apply edge_459.
    + apply Rle_Rpower; lra.
  - apply (fle_spec (F := R)). unfold toR, Ideal.view.
    cbn [lit of_Z fquo Ideal.num].
    apply Rle_trans with (Rpower 10 (INR 801 / 200 - 6)).
    + apply Rle_Rpower; lra.
    + replace (IZR 10116 / IZR (10 ^ Z.of_nat 6)) with (10116 / 1000000)
        by reflexivity.
      apply edge_802.
Qed.

End RealEdges.

(* ================================================================== *)
(** * The range of the prices *)


(* ================================================================== *)
(** * A window without counts *)

Lemma range_cons (lo hi : Z) : (lo < hi)%Z -> range lo hi = lo :: range (lo + 1) hi.
Proof.
  intros H. unfold range.
  replace (Z.to_nat (hi - lo)) with (S (Z.to_nat (hi - (lo + 1)))) by lia.
  cbn [seq map]. f_equal; [lia|].
  rewrite <- seq_shift, map_map. apply map_ext. intros i. lia.
Qed.

Lemma Rsum_zero (l : list R) : (forall x, In x l -> x = 0%R) -> Rsum l = 0%R.
Proof.
  induction l as [|x l IH]; intros H; [reflexivity|].
  rewrite Rsum_cons, IH by (intros y Hy; apply H; now right).
  rewrite (H x) by now left. lra.
Qed.

Section Starved.

Context {F : Type} {N : PyNum F} {V : RealView F} {E : ExactLaws F}.

(** The loops of lines 49 and 50 set the bins of their range to zero. *)
Lemma zero_loop (bc : list F) (lo : Z) :
  (0 <= lo)%Z ->
  forall k : nat,
    (lo + Z.of_nat k <= Z.of_nat (length bc))%Z ->
    exists bc',
      for_each (range lo (lo + Z.of_nat k)) zero_bin bc = Ret bc'
      /\ length bc' = length bc
      /\ forall j : nat,
           nth j bc' zero
           = if ((lo <=? Z.of_nat j) && (Z.of_nat j <? lo + Z.of_nat k))%Z
             then zero else nth j bc zero.
Proof.
  intros Hlo. induction k as [|k IH]; intros Hk.
  - exists bc. replace (lo + Z.of_nat 0)%Z with lo by lia.
    unfold range. rewrite Z.sub_diag. cbn [Z.to_nat seq map for_each].
    split; [reflexivity|]. split; [reflexivity|].
    intros j. destruct (Z.leb_spec lo (Z.of_nat j)); cbn [andb]; [|reflexivity].
    destruct (Z.ltb_spec (Z.of_nat j) lo); [lia | reflexivity].
  - destruct IH as (bc1 & E1 & L1 & H1); [lia|].
    replace (lo + Z.of_nat (S k))%Z with (lo + Z.of_nat k + 1)%Z by lia.
    rewrite range_snoc by lia. rewrite for_each_app, E1. cbn [bind for_each].
    unfold zero_bin. rewrite setitem_ok by lia. cbn [bind].
    eexists. split; [reflexivity|]. split; [now rewrite upd_length|].
    intros j. rewrite nth_upd by lia.
    destruct (Nat.eqb_spec j (Z.to_nat (lo + Z.of_nat k))) as [->|Hne].
    + destruct (Z.leb_spec lo (Z.of_nat (Z.to_nat (lo + Z.of_nat k)))); [|lia].
      destruct (Z.ltb_spec (Z.of_nat (Z.to_nat (lo + Z.of_nat k)))
                  (lo + Z.of_nat k + 1)); [reflexivity | lia].
    + rewrite H1.
      destruct (Z.leb_spec lo (Z.of_nat j)); cbn [andb]; [|reflexivity].
      destruct (Z.ltb_spec (Z.of_nat j) (lo + Z.of_nat k));
        destruct (Z.ltb_spec (Z.of_nat j) (lo + Z.of_nat k + 1));
        try reflexivity; lia.
Qed.

Let empty_window (lo : nat) (l : list F) : Prop :=
  length l = 2401%nat
  /\ forall n, (lo <= n < 1601)%nat -> toR (nth n l zero) = 0%R.

Lemma repair_empty (bc : list F) (r : Z) :
  (201 <= r <= 1201)%Z -> empty_window 200 bc ->
  exists bc', repair bc r = Ret bc' /\ empty_window 200 bc'.
Proof.
  intros Hr [Hlen Hz]. unfold repair.
  rewrite (getitem_ok bc (r + 1) zero) by lia. cbn [bind].
  rewrite (getitem_ok bc (r - 1) zero) by lia. cbn [bind].
  rewrite setitem_ok by lia.
  eexists. split; [reflexivity|]. split; [now rewrite upd_length|].
  intros n Hn. rewrite nth_upd by lia.
  destruct (Nat.eqb_spec n (Z.to_nat r)) as [_|_]; [|now apply Hz].
  rewrite toR_mul, toR_add, !Hz by lia. lra.
Qed.

Lemma prepare_empty (h : list F) :
  empty_window 201 h -> exists rep, prepare h = Ret rep /\ empty_window 201 rep.
Proof.
  intros [Hlen Hz]. unfold prepare. cbv zeta.
  destruct (zero_loop h 0 ltac:(lia) 201 ltac:(lia)) as (bc1 & E1 & L1 & H1).
  change (0 + Z.of_nat 201)%Z with 201%Z in E1, H1. rewrite E1. cbn [bind].
  destruct (zero_loop bc1 1601 ltac:(lia) 800 ltac:(lia)) as (bc2 & E2 & L2 & H2).
  change (1601 + Z.of_nat 800)%Z with 2401%Z in E2, H2.
  rewrite Hlen. change (Z.of_nat 2401) with 2401%Z. rewrite E2. cbn [bind].
  assert (P2 : empty_window 200 bc2).
  { split; [congruence|]. intros n Hn. rewrite H2, H1.
    destruct (Z.leb_spec 1601 (Z.of_nat n)); [lia|]. cbn [andb].
    destruct (Z.leb_spec 0 (Z.of_nat n)); [|lia]. cbn [andb].
    destruct (Z.ltb_spec (Z.of_nat n) 201).
    - apply toR_zero.
    - apply Hz. lia. }
  destruct (for_each_total (empty_window 200) repaired_bins repair) with (s := bc2)
    as (rep & E3 & [L3 H3]); [|assumption|].
  - intros s r Hr Hs. apply repair_empty; [|assumption].
    now apply repaired_bins_range.
  - exists rep. split; [assumption|]. split; [assumption|].
    intros n Hn. apply H3. lia.
Qed.

(** With no count in the window the first division of line 55 fails. *)
Lemma condition_starved (h : list F) :
  length h = 2401%nat ->
  (forall n, (201 <= n < 1601)%nat -> toR (nth n h zero) = 0%R) ->
  condition h = Raise ZeroDivisionError.
Proof.
  intros Hlen Hz.
  destruct (prepare_empty h (conj Hlen Hz)) as (rep & Erep & [Lrep Hrep]).
  unfold condition. rewrite Erep. cbn [bind].
  assert (Hcs : toR (sum (slice rep 201 1601)) = 0%R).
  { rewrite toR_sum. apply Rsum_zero. intros x Hx.
    apply in_map_iff in Hx. destruct Hx as (y & <- & Hy).
    apply (In_slice _ _ _ _ zero) in Hy. destruct Hy as (k & Hk & _ & ->).
    now apply Hrep. }
  rewrite range_cons by lia. cbn [for_each]. unfold normalize_bin at 1.
  rewrite (getitem_ok rep 201 zero) by lia. cbn [bind].
  now rewrite (fdiv_zero _ _ Hcs).
Qed.

End Starved.

Section RealStarved.

Local Open Scope R_scope.

(** The body of the histogram loop in real arithmetic. *)
Lemma hist_step_real (bc : list R) (v : R) :
  length bc = 2401%nat ->
  1 / 1000000 <= v < Rpower 10 (5995 / 1000) ->
  exists b : nat,
    (1 <= b <= 2399)%nat
    /\ hist_step Ideal.libm (bins Ideal.libm) bc v = Ret (upd b (nth b bc 0 + 1) bc)
    /\ nth b (bins Ideal.libm) 0 <= v < nth (S b) (bins Ideal.libm) 0.
Proof.
  intros Hbc [Hlo Hhi]. set (edges := bins Ideal.libm).
  pose proof ln_10_pos as H10.
  assert (Hv : 0 < v) by lra.
  set (al := ln v / ln 10).
  assert (Hal_lo : -6 <= al).
  { apply log10_ge. rewrite pow10_neg6. exact Hlo. }
  assert (Hal_hi : al < 5995 / 1000) by (apply log10_lt; assumption).
  set (m := Int_part (200 * (al + 6))).
  destruct (base_Int_part (200 * (al + 6))) as [Hm1 Hm2]. fold m in Hm1, Hm2.
  assert (Hm_lo : (0 <= m)%Z).
  { assert (-1 < m)%Z by (apply lt_IZR; lra). lia. }
  assert (Hm_hi : (m <= 2398)%Z).
  { assert (m < 2399)%Z by (apply lt_IZR; lra). lia. }
  set (b := S (Z.to_nat m)).
  assert (Hb : INR (Z.to_nat m) = IZR m).
  { rewrite INR_IZR_INZ. f_equal. lia. }
  assert (Hbelow : forall j, (j <= b)%nat -> nth j edges 0 <= v).
  { intros [|j] Hj.
    - unfold edges. rewrite bins_0. lra.
    - unfold edges. rewrite bins_nth by (unfold b in Hj; lia).
      apply pow10_le; [assumption|]. fold al.
      assert (INR j <= INR (Z.to_nat m)) by (apply le_INR; unfold b in Hj; lia).
      lra. }
  assert (Habove : v < nth (S b) edges 0).
  { unfold edges. rewrite bins_nth by (unfold b; lia).
    apply pow10_gt; [assumption|]. fold al. unfold b. rewrite S_INR. lra. }
  exists b. split; [unfold b; lia|]. split; [|split; [apply Hbelow; lia | exact Habove]].
  unfold hist_step. cbv zeta.
  assert (Hlen : length edges = 2401%nat) by apply bins_length.
  rewrite Hlen.
  unfold log10. cbn [fle Ideal.num m_log10 Ideal.libm].
  destruct (Rle_dec v zero) as [Hc|_].
  { exfalso. unfold zero in Hc. cbn [of_Z Ideal.num] in Hc. lra. }
  cbn [bind]. fold al.
  set (val := fmul (fquo (fsub al (of_Z (-6))) (lit 12 0)) (of_Z (Z.of_nat 2401))).
  assert (Hval : val = (al + 6) / 12 * 2401).
  { unfold val. cbn [fmul fquo fsub of_Z lit Ideal.num].
    change (Z.of_nat 2401) with 2401%Z. lra. }
  destruct (ftrunc_spec val) as (z & Ez & Hpos & _).
  unfold toR, Ideal.view in Hpos. rewrite Ez. cbn [bind].
  destruct (Hpos ltac:(rewrite Hval; lra)) as [Hz1 Hz2].
  assert (Hz_lo : (0 <= z)%Z).
  { assert (-1 < z)%Z by (apply lt_IZR; rewrite Hval in Hz2; lra). lia. }
  assert (Hz_hi : (z <= m + 1)%Z).
  { assert (z < m + 2)%Z; [|lia].
    apply lt_IZR. rewrite plus_IZR. rewrite Hval in Hz1. lra. }
  rewrite <- (Z2Nat.id z Hz_lo).
  rewrite (scan_finds edges v b) with (n := (S b - Z.to_nat z)%nat).
  - cbn [bind].
    replace (Z.of_nat (S b) - 1)%Z with (Z.of_nat b) by lia.
    rewrite (getitem_ok bc (Z.of_nat b) 0) by (unfold b; lia). cbn [bind].
    rewrite setitem_ok by (unfold b; lia).
    rewrite Nat2Z.id. reflexivity.
  - rewrite Hlen. unfold b. lia.
  - exact Habove.
  - unfold b. lia.
  - intros j Hj. apply Hbelow. lia.
  - unfold b. lia.
Qed.

Lemma bins_201 : nth 201 (bins Ideal.libm) 0 = 1 / 100000.
Proof.
  rewrite (bins_nth 200) by lia.
  replace (INR 200 / 200 - 6) with (- INR 5).
  - rewrite pow10_neg. cbn [pow]. field.
  - rewrite !INR_IZR_INZ. cbn [Z.of_nat Pos.of_succ_nat Pos.succ]. lra.
Qed.

Lemma bins_1601 : nth 1601 (bins Ideal.libm) 0 = 100.
Proof.
  rewrite (bins_nth 1600) by lia.
  replace (INR 1600 / 200 - 6) with (INR 2).
  - rewrite Rpower_pow by lra. cbn [pow]. lra.
  - rewrite !INR_IZR_INZ. cbn [Z.of_nat Pos.of_succ_nat Pos.succ]. lra.
Qed.

Lemma bins_monotone (i j : nat) :
  (i <= j <= 2400)%nat -> nth i (bins Ideal.libm) 0 <= nth j (bins Ideal.libm) 0.
Proof.
  intros H. destruct (Nat.eq_dec i j) as [->|Hne]; [apply Rle_refl|].
  left. apply bins_increasing. lia.
Qed.

Lemma pow10_5995 : 100000 < Rpower 10 (5995 / 1000).
Proof.
  apply Rle_lt_trans with (Rpower 10 (INR 5)).
  - rewrite Rpower_pow by lra. cbn [pow]. lra.
  - apply Rpower_lt; [lra|]. rewrite INR_IZR_INZ. cbn [Z.of_nat Pos.of_succ_nat Pos.succ]. lra.
Qed.

Lemma hist_step_outside (bc : list R) (v : R) :
  length bc = 2401%nat -> outside_window v ->
  exists b : nat,
    ((1 <= b <= 200)%nat \/ (1601 <= b <= 2399)%nat)
    /\ hist_step Ideal.libm (bins Ideal.libm) bc v = Ret (upd b (nth b bc 0 + 1) bc).
Proof.
  intros Hlen Hv. pose proof pow10_5995 as H5.
  assert (Hdom : 1 / 1000000 <= v < Rpower 10 (5995 / 1000))
    by (destruct Hv; lra).
  destruct (hist_step_real bc v Hlen Hdom) as (b & Hb & Hstep & Hlo & Hhi).
  exists b. split; [|exact Hstep].
  destruct Hv as [Hv|Hv].
  - left. split; [lia|].
    destruct (Nat.le_gt_cases b 200) as [|Hgt]; [assumption|]. exfalso.
    pose proof (bins_monotone 201 b ltac:(lia)) as Hm. rewrite bins_201 in Hm. lra.
  - right. split; [|lia].
    destruct (Nat.le_gt_cases 1601 b) as [|Hlt]; [assumption|]. exfalso.
    pose proof (bins_monotone (S b) 1601 ltac:(lia)) as Hm. rewrite bins_1601 in Hm.
    lra.
Qed.

Lemma histogram_outside (raw : list R) :
  Forall outside_window raw ->
  exists h,
    histogram Ideal.libm (bins Ideal.libm) raw = Ret h
    /\ length h = 2401%nat
    /\ forall n, (201 <= n < 1601)%nat -> nth n h 0 = 0.
Proof.
  intros Hraw. unfold histogram.
  set (P := fun l : list R =>
              length l = 2401%nat
              /\ forall n, (201 <= n < 1601)%nat -> nth n l 0 = 0).
  destruct (for_each_total P raw (hist_step Ideal.libm (bins Ideal.libm)))
    with (s := repeat (zero : R) (length (bins Ideal.libm)))
    as (h & Eh & Ph).
  - intros s v Hin [Hs1 Hs2]. rewrite Forall_forall in Hraw.
    destruct (hist_step_outside s v Hs1 (Hraw v Hin)) as (b & Hb & ->).
    eexists. split; [reflexivity|]. split; [now rewrite upd_length|].
    intros n Hn. rewrite nth_upd_other by lia. now apply Hs2.
  - split; [now rewrite repeat_length, bins_length|].
    intros n Hn. rewrite bins_length.
    rewrite nth_repeat_lt by lia. reflexivity.
  - exists h. destruct Ph. now split.
Qed.

End RealStarved.


(* ================================================================== *)
(** * Counts out of the reach of the kernel *)

Section Reach.

Local Open Scope R_scope.

Lemma bins_1203 : nth 1203 (bins Ideal.libm) 0 = Rpower 10 (1 / 100).
Proof.
  rewrite (bins_nth 1202) by lia. f_equal.
  rewrite INR_IZR_INZ. cbn [Z.of_nat Pos.of_succ_nat Pos.succ]. lra.
Qed.

Lemma hist_step_out_of_reach (bc : list R) (v : R) :
  length bc = 2401%nat -> out_of_reach v ->
  exists b : nat,
    ((1 <= b <= 200)%nat \/ (1203 <= b <= 2399)%nat)
    /\ (1 / 100000 <= v < 100 -> (1203 <= b <= 1600)%nat)
    /\ hist_step Ideal.libm (bins Ideal.libm) bc v = Ret (upd b (nth b bc 0 + 1) bc).
Proof.
  intros Hlen Hv. pose proof pow10_5995 as H5.
  assert (Hp : 1 < Rpower 10 (1 / 100)).
  { rewrite <- (Rpower_O 10) at 1 by lra. apply Rpower_lt; lra. }
  assert (Hdom : 1 / 1000000 <= v < Rpower 10 (5995 / 1000))
    by (destruct Hv; lra).
  destruct (hist_step_real bc v Hlen Hdom) as (b & Hb & Hstep & Hlo & Hhi).
  exists b. split; [|split; [|exact Hstep]].
  - destruct Hv as [Hv|Hv].
    + left. split; [lia|].
      destruct (Nat.le_gt_cases b 200) as [|Hgt]; [assumption|]. exfalso.
      pose proof (bins_monotone 201 b ltac:(lia)) as Hm. rewrite bins_201 in Hm. lra.
    + right. split; [|lia].
      destruct (Nat.le_gt_cases 1203 b) as [|Hlt]; [assumption|]. exfalso.
      pose proof (bins_monotone (S b) 1203 ltac:(lia)) as Hm. rewrite bins_1203 in Hm.
      lra.
  - intros Hw. split.
    + destruct (Nat.le_gt_cases 1203 b) as [|Hlt]; [assumption|]. exfalso.
      destruct Hv as [Hv|Hv]; [lra|].
      pose proof (bins_monotone (S b) 1203 ltac:(lia)) as Hm.
      rewrite bins_1203 in Hm. lra.
    + destruct (Nat.le_gt_cases b 1600) as [|Hgt]; [assumption|]. exfalso.
      pose proof (bins_monotone 1601 b ltac:(lia)) as Hm. rewrite bins_1601 in Hm.
      lra.
Qed.

Lemma histogram_out_of_reach :
  forall (raw : list R) bc0,
    Forall out_of_reach raw -> unreached 201 bc0 ->
    exists h,
      for_each raw (hist_step Ideal.libm (bins Ideal.libm)) bc0 = Ret h
      /\ unreached 201 h
      /\ (forall n, nth n bc0 0 <= nth n h 0)
      /\ ((exists v, In v raw /\ 1 / 100000 <= v < 100) ->
          exists b, (1203 <= b <= 1600)%nat /\ 1 <= nth b h 0).
Proof.
  induction raw as [|v raw IH]; intros bc0 Hraw H0; cbn [for_each].
  - exists bc0. split; [reflexivity|]. split; [assumption|].
    split; [intros n; apply Rle_refl|]. intros (v & [] & _).
  - inversion Hraw as [|? ? Hv Hraw']; subst.
    destruct H0 as (Hlen & Hz & Hpos).
    destruct (hist_step_out_of_reach bc0 v Hlen Hv) as (b & Hb & Hb' & ->).
    cbn [bind].
    assert (H1 : unreached 201 (upd b (nth b bc0 0 + 1) bc0)).
    { split; [now rewrite upd_length|]. split.
      - intros n Hn. rewrite nth_upd_other by lia. now apply Hz.
      - intros n. rewrite nth_upd by lia.
        destruct (Nat.eqb_spec n b); [specialize (Hpos b); lra | apply Hpos]. }
    destruct (IH _ Hraw' H1) as (h & Eh & Hh & Hmono & Hhit).
    exists h. split; [exact Eh|]. split; [exact Hh|].
    assert (Hmono' : forall n, nth n bc0 0 <= nth n h 0).
    { intros n. apply Rle_trans with (nth n (upd b (nth b bc0 0 + 1) bc0) 0);
        [|apply Hmono].
      rewrite nth_upd by lia. destruct (Nat.eqb_spec n b) as [->|_]; lra. }
    split; [exact Hmono'|].
    intros (w & [<-|Hw] & Hrange).
    + exists b. split.
      * now apply Hb'.
      * apply Rle_trans with (nth b (upd b (nth b bc0 0 + 1) bc0) 0); [|apply Hmono].
        rewrite nth_upd_same by lia. specialize (Hpos b). lra.
    + apply Hhit. now exists w.
Qed.

Lemma repair_unreached (bc : list R) (r : Z) :
  (201 <= r <= 1201)%Z -> unreached 0 bc ->
  exists bc',
    repair bc r = Ret bc' /\ unreached 0 bc'
    /\ forall n, (1203 <= n)%nat -> nth n bc' 0 = nth n bc 0.
Proof.
  intros Hr (Hlen & Hz & Hpos). unfold repair.
  rewrite (getitem_ok bc (r + 1) 0) by lia. cbn [bind].
  rewrite (getitem_ok bc (r - 1) 0) by lia. cbn [bind].
  rewrite setitem_ok by lia.
  eexists. split; [reflexivity|].
  assert (Hv : fmul (lit 5 1) (fadd (nth (Z.to_nat (r + 1)) bc 0)
                                    (nth (Z.to_nat (r - 1)) bc 0)) = 0).
  { rewrite !Hz by lia. cbn [fmul fadd lit fquo of_Z Ideal.num]. lra. }
  rewrite Hv. split; [split; [now rewrite upd_length | split]|].
  - intros n Hn. rewrite nth_upd by lia.
    destruct (Nat.eqb_spec n (Z.to_nat r)); [reflexivity | now apply Hz].
  - intros n. rewrite nth_upd by lia.
    destruct (Nat.eqb_spec n (Z.to_nat r)); [lra | apply Hpos].
  - intros n Hn. apply nth_upd_other. lia.
Qed.

Lemma prepare_unreached (h : list R) :
  unreached 201 h ->
  exists rep,
    prepare h = Ret rep /\ unreached 0 rep
    /\ forall n, (1203 <= n < 1601)%nat -> nth n rep 0 = nth n h 0.
Proof.
  intros (Hlen & Hz & Hpos). unfold prepare. cbv zeta.
  destruct (zero_loop h 0 ltac:(lia) 201 ltac:(lia)) as (bc1 & E1 & L1 & H1).
  change (0 + Z.of_nat 201)%Z with 201%Z in E1, H1. rewrite E1. cbn [bind].
  destruct (zero_loop bc1 1601 ltac:(lia) 800 ltac:(lia)) as (bc2 & E2 & L2 & H2).
  change (1601 + Z.of_nat 800)%Z with 2401%Z in E2, H2.
  rewrite Hlen. change (Z.of_nat 2401) with 2401%Z. rewrite E2. cbn [bind].
  assert (G2 : forall n, nth n bc2 0
                         = if (n <? 201)%nat || (1601 <=? n)%nat then 0 else nth n h 0).
  { intros n. change (nth n bc2 0) with (nth n bc2 (zero : R)). rewrite H2.
    destruct (Z.leb_spec 1601 (Z.of_nat n)); cbn [andb].
    - destruct (Z.ltb_spec (Z.of_nat n) 2401).
      + replace (1601 <=? n)%nat with true by (symmetry; apply Nat.leb_le; lia).
        now rewrite orb_true_r.
      + rewrite H1.
        replace (1601 <=? n)%nat with true by (symmetry; apply Nat.leb_le; lia).
        rewrite orb_true_r.
        destruct (_ && _)%bool; [reflexivity|].
        apply nth_overflow. lia.
    - replace (1601 <=? n)%nat with false by (symmetry; apply Nat.leb_gt; lia).
      rewrite orb_false_r, H1.
      destruct (Z.leb_spec 0 (Z.of_nat n)); [|lia]. cbn [andb].
      destruct (Z.ltb_spec (Z.of_nat n) 201).
      + replace (n <? 201)%nat with true by (symmetry; apply Nat.ltb_lt; lia).
        reflexivity.
      + replace (n <? 201)%nat with false by (symmetry; apply Nat.ltb_ge; lia).
        reflexivity. }
  assert (P2 : unreached 0 bc2
               /\ forall n, (1203 <= n < 1601)%nat -> nth n bc2 0 = nth n h 0).
  { split; [split; [congruence | split]|].
    - intros n Hn. rewrite G2.
      destruct ((n <? 201)%nat || (1601 <=? n)%nat)%bool eqn:En; [reflexivity|].
      apply orb_false_iff in En. destruct En as [En _].
      apply Nat.ltb_ge in En. apply Hz. lia.
    - intros n. rewrite G2. destruct (_ || _)%bool; [lra | apply Hpos].
    - intros n Hn. rewrite G2.
      replace (n <? 201)%nat with false by (symmetry; apply Nat.ltb_ge; lia).
      replace (1601 <=? n)%nat with false by (symmetry; apply Nat.leb_gt; lia).
      reflexivity. }
  destruct P2 as [P2 K2].
  destruct (for_each_total
              (fun l => unreached 0 l
                        /\ forall n, (1203 <= n < 1601)%nat -> nth n l 0 = nth n h 0)
              repaired_bins repair) with (s := bc2) as (rep & E3 & P3 & K3).
  - intros s r Hr [Hs Ks]. apply repaired_bins_range in Hr.
    destruct (repair_unreached s r Hr Hs) as (s' & Es & Hs' & Ks').
    exists s'. split; [assumption|]. split; [assumption|].
    intros n Hn. rewrite Ks' by lia. now apply Ks.
  - now split.
  - exists rep. split; [exact E3|]. split; [exact P3 | exact K3].
Qed.

Lemma Rsum_ge_nth (l : list R) (i : nat) :
  (forall x, In x l -> 0 <= x) -> nth i l 0 <= Rsum l.
Proof.
  revert i. induction l as [|x l IH]; intros i H.
  - destruct i; cbn; lra.
  - rewrite Rsum_cons.
    assert (Hx : 0 <= x) by (apply H; now left).
    assert (Hl : 0 <= Rsum l).
    { specialize (IH 0%nat ltac:(intros y Hy; apply H; now right)).
      destruct l as [|y l']; [cbn; lra|].
      cbn [nth] in IH. assert (0 <= y) by (apply H; right; now left). lra. }
    destruct i as [|i]; cbn [nth]; [lra|].
    specialize (IH i ltac:(intros y Hy; apply H; now right)). lra.
Qed.

(** The conditioner on such counts: it returns, and no bin below 1203
    holds anything. *)
Lemma condition_unreached (h : list R) (b : nat) :
  unreached 201 h -> (1203 <= b <= 1600)%nat -> 1 <= nth b h 0 ->
  exists bc cs,
    condition h = Ret (bc, cs) /\ 0 < cs
    /\ length bc = 2401%nat
    /\ forall n, (n < 1203)%nat -> nth n bc 0 = 0.
Proof.
  intros Hh Hb Hhit.
  destruct (prepare_unreached h Hh) as (rep & Erep & (Lrep & Zrep & Prep) & Krep).
  set (cs := sum (slice rep 201 1601)).
  assert (Hcs : cs = Rsum (slice rep 201 1601)).
  { unfold cs. change (sum (slice rep 201 1601)) with (toR (sum (slice rep 201 1601))).
    rewrite toR_sum. now rewrite map_id. }
  assert (Hpos : 1 <= cs).
  { rewrite Hcs. apply Rle_trans with (nth (b - 201) (slice rep 201 1601) 0).
    - rewrite nth_slice by lia. replace (201 + (b - 201))%nat with b by lia.
      rewrite Krep by lia. exact Hhit.
    - apply Rsum_ge_nth. intros x Hx.
      apply (In_slice _ _ _ _ 0) in Hx. destruct Hx as (k & _ & _ & ->).
      apply Prep. }
  assert (Hne : toR cs <> 0) by (unfold toR, Ideal.view; lra).
  destruct (normalize_loop cs rep 201 Hne ltac:(lia) 1400
              ltac:(rewrite Lrep; lia)) as (bc & Ebc & Lbc & Hbc).
  change (201 + Z.of_nat 1400)%Z with 1601%Z in Ebc, Hbc.
  exists bc, cs. split.
  { unfold condition. rewrite Erep. cbn [bind]. fold cs. now rewrite Ebc. }
  split; [lra|]. split; [congruence|].
  intros n Hn. change (nth n bc 0) with (nth n bc (zero : R)). rewrite Hbc.
  change (nth n rep (zero : R)) with (nth n rep 0). rewrite (Zrep n) by lia.
  destruct (_ && _)%bool; [|reflexivity].
  unfold cap. cbn [flt fquo lit of_Z Ideal.num].
  destruct (Rlt_dec _ _) as [Hc|_].
  - exfalso. unfold Rdiv in Hc. rewrite Rmult_0_l in Hc.
    change (IZR (10 ^ Z.of_nat 3)) with 1000 in Hc. lra.
  - unfold Rdiv. apply Rmult_0_l.
Qed.

(** ** The shift detector on such counts *)

Lemma sp_length {F : Type} {N : PyNum F} : length (sp : list F) = 803%nat.
Proof.
  unfold sp.
  assert (H : forall (ivs : list (nat * F)) (l : list F),
             length (fold_left (fun sp iv => upd (fst iv) (snd iv) sp) ivs l)
             = length l).
  { induction ivs as [|iv ivs IH]; intros l; cbn [fold_left]; [reflexivity|].
    now rewrite IH, upd_length. }
  now rewrite H, repeat_length.
Qed.

Lemma ss_length {F : Type} {N : PyNum F} (L : Libm F) : length (ss L) = 803%nat.
Proof. unfold ss. now rewrite length_map, range_length. Qed.

Lemma kernel_flat (bc ks kp : list R) (sl : Z) (a b : R) :
  length bc = 2401%nat -> length ks = 803%nat -> length kp = 803%nat ->
  (forall n, (n < 1203)%nat -> nth n bc 0 = 0) ->
  (-141 <= sl <= 200)%Z ->
  for_each (range 0 ne) (kernel_step ks kp 199 bc sl) (a, b) = Ret (a, b).
Proof.
  intros Hbc Hks Hkp Hzero Hsl.
  destruct (for_each_total (fun st => st = (a, b)) (range 0 ne)
              (kernel_step ks kp 199 bc sl)) with (s := (a, b))
    as (st & E & ->); [|reflexivity|exact E].
  intros st n Hn ->. apply In_range in Hn. unfold ne in Hn.
  unfold kernel_step.
  rewrite (getitem_ok bc (199 + sl + n) 0) by lia. cbn [bind].
  rewrite (getitem_ok ks n 0) by lia. cbn [bind].
  rewrite (getitem_ok kp n 0) by lia. cbn [bind].
  rewrite Hzero by lia. eexists. split; [reflexivity|].
  cbn [fadd fmul Ideal.num]. f_equal; lra.
Qed.

Lemma weighted_flat (bc kp : list R) (base : Z) :
  length bc = 2401%nat -> length kp = 803%nat ->
  (forall n, (n < 1203)%nat -> nth n bc 0 = 0) ->
  (0 <= base <= 400)%Z ->
  for_each (range 0 ne) (weighted bc kp base) zero = Ret 0.
Proof.
  intros Hbc Hkp Hzero Hb.
  destruct (for_each_total (fun acc : R => acc = 0) (range 0 ne)
              (weighted bc kp base)) with (s := (zero : R))
    as (acc & E & ->); [|reflexivity|exact E].
  intros acc n Hn ->. apply In_range in Hn. unfold ne in Hn.
  unfold weighted.
  rewrite (getitem_ok bc (base + n) 0) by lia. cbn [bind].
  rewrite (getitem_ok kp n 0) by lia. cbn [bind].
  rewrite Hzero by lia. eexists. split; [reflexivity|].
  cbn [fadd fmul Ideal.num]. lra.
Qed.

Lemma best_shift_flat (bc ks kp : list R) :
  length bc = 2401%nat -> length ks = 803%nat -> length kp = 803%nat ->
  (forall n, (n < 1203)%nat -> nth n bc 0 = 0) ->
  best_shift ks kp 199 bc = Ret (0%Z, 0, 0).
Proof.
  intros Hbc Hks Hkp Hzero. unfold best_shift.
  destruct (for_each_total (fun st => st = (0%Z, 0, 0)) (range (-141) 201)
              (shift_step ks kp 199 bc)) with (s := (0%Z, (zero : R), (zero : R)))
    as (st & E & ->); [|reflexivity|exact E].
  intros st sl Hsl ->. apply In_range in Hsl.
  unfold shift_step. rewrite kernel_flat by (assumption || lia). cbn [bind].
  set (sco := if (sl <? 150)%Z then fadd zero (fmul zero (lit 65 2)) else zero).
  assert (Hsco : sco = 0).
  { unfold sco. destruct (sl <? 150)%Z; cbn [fadd fmul zero of_Z Ideal.num]; lra. }
  rewrite Hsco. cbn [flt Ideal.num].
  destruct (Rlt_dec 0 0) as [Hc|_]; [lra|].
  eexists. split; [reflexivity|]. cbn [fadd Ideal.num]. do 2 f_equal. lra.
Qed.

Lemma neighbor_scores_flat (bc kp : list R) :
  length bc = 2401%nat -> length kp = 803%nat ->
  (forall n, (n < 1203)%nat -> nth n bc 0 = 0) ->
  neighbor_scores kp 199 bc 0 = Ret (0, 0).
Proof.
  intros Hbc Hkp Hzero. unfold neighbor_scores.
  rewrite !weighted_flat by (assumption || lia). reflexivity.
Qed.

Lemma edge_positive (k : nat) : (1 <= k <= 2400)%nat -> 0 < nth k (bins Ideal.libm) 0.
Proof.
  intros Hk. destruct k as [|k]; [lia|]. rewrite bins_nth by lia. apply exp_pos.
Qed.

Lemma shift_detect_flat (bc : list R) :
  length bc = 2401%nat -> (forall n, (n < 1203)%nat -> nth n bc 0 = 0) ->
  shift_detect Ideal.libm (bins Ideal.libm) bc = Raise ZeroDivisionError.
Proof.
  intros Hlen Hzero. unfold shift_detect, anchor. cbv zeta.
  rewrite sp_length. change (cp - (Z.of_nat 803 + 1) / 2)%Z with 199%Z.
  rewrite (best_shift_flat bc (ss Ideal.libm) sp Hlen (ss_length _) sp_length Hzero).
  cbn [bind].
  pose proof (bins_length Ideal.libm) as Hbl.
  rewrite (getitem_ok (bins Ideal.libm) (cp + 0) 0) by (rewrite Hbl; unfold cp; lia).
  cbn [bind].
  rewrite fdiv_ok.
  2:{ unfold toR, Ideal.view. pose proof (edge_positive 601 ltac:(lia)).
      change (Z.to_nat (cp + 0)) with 601%nat. lra. }
  cbn [bind].
  rewrite (neighbor_scores_flat bc sp Hlen sp_length Hzero). cbn [bind].
  assert (Hbn : bn2 (0 : R) 0 = 1%Z).
  { unfold bn2. cbn [flt Ideal.num]. destruct (Rlt_dec 0 0); [lra | reflexivity]. }
  rewrite Hbn.
  rewrite (getitem_ok (bins Ideal.libm) (cp + 0 + 1) 0) by (rewrite Hbl; unfold cp; lia).
  cbn [bind].
  rewrite fdiv_ok.
  2:{ unfold toR, Ideal.view. pose proof (edge_positive 602 ltac:(lia)).
      change (Z.to_nat (cp + 0 + 1)) with 602%nat. lra. }
  cbn [bind]. unfold blend. cbv zeta.
  rewrite fdiv_zero; [reflexivity|].
  unfold toR, Ideal.view, fmax. cbn [flt fadd fsub fabs fquo of_Z Ideal.num].
  destruct (Rlt_dec 0 0); [lra|].
  replace (0 - 0 / IZR (201 - -141)) with 0 by (unfold Rdiv; ring).
  rewrite Rabs_R0. lra.
Qed.

Lemma out_of_reach_cases (raw : list R) :
  Forall out_of_reach raw ->
  Forall outside_window raw \/ exists v, In v raw /\ 1 / 100000 <= v < 100.
Proof.
  induction 1 as [|v raw Hv _ IH]; [left; constructor|].
  destruct IH as [IH|(w & Hw & Hr)]; [|right; exists w; split; [now right | assumption]].
  destruct Hv as [Hv|Hv].
  - left. constructor; [now left | assumption].
  - destruct (Rlt_le_dec v 100) as [Hlt|Hge].
    + right. exists v. split; [now left|].
      assert (1 < Rpower 10 (1 / 100)).
      { rewrite <- (Rpower_O 10) at 1 by lra. apply Rpower_lt; lra. }
      lra.
    + left. constructor; [right; lra | assumption].
Qed.

End Reach.


(* ================================================================== *)
(** * The order of the input *)

Lemma agree_refl {A} (x : result A) : agree x x.
Proof. destruct x; cbn; auto. Qed.

Lemma agree_trans {A} (x y z : result A) : agree x y -> agree y z -> agree x z.
Proof. destruct x, y, z; cbn; try tauto; congruence. Qed.

Lemma upd_comm {A} (i j : nat) (x y : A) (l : list A) :
  i <> j -> upd i x (upd j y l) = upd j y (upd i x l).
Proof.
  revert i j. induction l as [|z l IH]; intros [|i] [|j] H; cbn [upd];
    try reflexivity; try congruence.
  f_equal. apply IH. congruence.
Qed.

Lemma py_index_length {A B} (l : list A) (l' : list B) (i : Z) :
  length l = length l' -> py_index l i = py_index l' i.
Proof. intros H. unfold py_index. now rewrite H. Qed.

Lemma py_index_lt {A} (l : list A) (i : Z) (k : nat) :
  py_index l i = Ret k -> (k < length l)%nat.
Proof.
  unfold py_index.
  destruct ((0 <=? i) && (i <? Z.of_nat (length l)))%Z eqn:E1.
  - intros H. injection H as <-. apply andb_true_iff in E1.
    destruct E1 as [E1 E2]. apply Z.leb_le in E1. apply Z.ltb_lt in E2. lia.
  - destruct ((- Z.of_nat (length l) <=? i) && (i <? 0))%Z eqn:E2; [|discriminate].
    intros H. injection H as <-. apply andb_true_iff in E2.
    destruct E2 as [E2 E3]. apply Z.leb_le in E2. apply Z.ltb_lt in E3. lia.
Qed.

Section Order.

Context {F : Type} {N : PyNum F}.

(** The bin a value goes to, or the exception it raises, depends on
    the counts only through their number. *)
Lemma hist_step_cases (L : Libm F) (edges : list F) (a : F) (n : nat) :
  (exists k, (k < n)%nat
             /\ forall bc, length bc = n ->
                  hist_step L edges bc a
                  = Ret (upd k (fadd (nth k bc zero) (lit 1 0)) bc))
  \/ (exists e, forall bc, length bc = n -> hist_step L edges bc a = Raise e).
Proof.
  unfold hist_step. cbv zeta.
  destruct (log10 L a) as [al|e]; cbn [bind]; [|right; now exists e].
  destruct (ftrunc _) as [be|e]; cbn [bind]; [|right; now exists e].
  destruct (scan _ _ _ _) as [be'|e]; cbn [bind]; [|right; now exists e].
  destruct (py_index (repeat (zero : F) n) (be' - 1)) as [k|e] eqn:Ek.
  - left. exists k. pose proof (py_index_lt _ _ _ Ek) as Hk.
    rewrite repeat_length in Hk. split; [assumption|].
    intros bc Hbc.
    assert (Ek' : py_index bc (be' - 1) = Ret k).
    { rewrite <- Ek. apply py_index_length. now rewrite repeat_length. }
    unfold getitem, setitem. rewrite Ek'. cbn [bind].
    destruct (nth_error bc k) as [x|] eqn:Ex.
    + cbn [bind]. now rewrite (nth_error_nth _ _ zero Ex).
    + apply nth_error_None in Ex. lia.
  - right. exists e. intros bc Hbc.
    assert (Ek' : py_index bc (be' - 1) = Raise e).
    { rewrite <- Ek. apply py_index_length. now rewrite repeat_length. }
    unfold getitem. now rewrite Ek'.
Qed.

Lemma hist_step_swap (L : Libm F) (edges bc : list F) (x y : F) :
  agree (bind (hist_step L edges bc x) (fun bc1 => hist_step L edges bc1 y))
        (bind (hist_step L edges bc y) (fun bc1 => hist_step L edges bc1 x)).
Proof.
  destruct (hist_step_cases L edges x (length bc)) as [(kx & Hkx & Hx)|(ex & Hx)];
    destruct (hist_step_cases L edges y (length bc)) as [(ky & Hky & Hy)|(ey & Hy)].
  - rewrite (Hx bc eq_refl), (Hy bc eq_refl). cbn [bind].
    rewrite Hy by apply upd_length. rewrite Hx by apply upd_length.
    cbn [agree]. destruct (Nat.eq_dec kx ky) as [->|Hne].
    + now rewrite !nth_upd_same, !upd_upd by assumption.
    + rewrite !nth_upd_other by (assumption || congruence).
      now apply upd_comm.
  - rewrite (Hx bc eq_refl), (Hy bc eq_refl). cbn [bind].
    rewrite Hy by apply upd_length. exact I.
  - rewrite (Hx bc eq_refl), (Hy bc eq_refl). cbn [bind].
    rewrite Hx by apply upd_length. exact I.
  - rewrite (Hx bc eq_refl), (Hy bc eq_refl). exact I.
Qed.

Lemma histogram_perm (L : Libm F) (edges : list F) (raw raw' : list F) :
  Permutation raw raw' ->
  forall bc, agree (for_each raw (hist_step L edges) bc)
                   (for_each raw' (hist_step L edges) bc).
Proof.
  induction 1 as [|x l l' _ IH|x y l|l l' l'' _ IH1 _ IH2]; intros bc.
  - apply agree_refl.
  - cbn [for_each]. destruct (hist_step L edges bc x) as [bc1|e]; cbn [bind].
    + apply IH.
    + exact I.
  - cbn [for_each].
    pose proof (hist_step_swap L edges bc y x) as H.
    destruct (hist_step L edges bc y) as [b1|e1];
      destruct (hist_step L edges bc x) as [b2|e2]; cbn [bind] in *.
    + destruct (hist_step L edges b1 x) as [c1|e1];
        destruct (hist_step L edges b2 y) as [c2|e2]; cbn [bind agree] in *;
        try contradiction; [subst; apply agree_refl | exact I].
    + destruct (hist_step L edges b1 x); cbn [bind agree] in *;
        [contradiction | exact I].
    + destruct (hist_step L edges b2 y); cbn [bind agree] in *;
        [contradiction | exact I].
    + exact I.
  - eapply agree_trans; [apply IH1 | apply IH2].
Qed.

(** ** The candidate list *)

Lemma list_prod_perm {A B} (l l' : list A) (m : list B) :
  Permutation l l' -> Permutation (list_prod l m) (list_prod l' m).
Proof.
  induction 1 as [|x l l' _ IH|x y l|l l' l'' _ IH1 _ IH2]; cbn [list_prod].
  - constructor.
  - now apply Permutation_app_head.
  - rewrite !app_assoc. apply Permutation_app_tail. apply Permutation_app_comm.
  - now transitivity (list_prod l' m).
Qed.

Lemma filter_perm {A} (f : A -> bool) (l l' : list A) :
  Permutation l l' -> Permutation (filter f l) (filter f l').
Proof.
  induction 1 as [|x l l' _ IH|x y l|l l' l'' _ IH1 _ IH2]; cbn [filter].
  - constructor.
  - destruct (f x); [now constructor | assumption].
  - destruct (f x), (f y); try reflexivity. apply perm_swap.
  - now transitivity (filter f l').
Qed.

Lemma survivors_perm (rough : Z) (mr raw raw' : list F) :
  Permutation raw raw' ->
  Permutation (map price (survivors rough mr raw))
              (map price (survivors rough mr raw')).
Proof.
  intros H. apply Permutation_map. unfold survivors. apply filter_perm.
  now apply list_prod_perm.
Qed.

Lemma voter_zero (mr : list F) (n : F) (raw : list F) :
  voter 0 mr (n :: raw) = Raise ZeroDivisionError.
Proof. reflexivity. Qed.

Context {V : RealView F} {E : ExactLaws F}.

Lemma vote_total (rough : Z) (mr : list F) (n : F) (op : list F) (u : Z) :
  rough <> 0%Z -> (0 < u)%Z ->
  vote rough mr n op u
  = Ret (op ++ map price
           (filter (fun nu => in_band rough (fst nu) (snd nu) && ok mr (fst nu))
                   [(n, u)])).
Proof.
  intros Hr Hu. unfold vote, int_truediv.
  destruct (Z.eqb_spec rough 0) as [|_]; [contradiction|].
  cbn [bind filter fst snd].
  fold (in_band rough n u).
  destruct (in_band rough n u) eqn:Hb; cbn [andb].
  - destruct (ok mr n); cbn [map app].
    + pose proof (in_band_pos rough n u Hr Hu Hb) as Hn.
      rewrite fdiv_ok by lra. reflexivity.
    + now rewrite app_nil_r.
  - cbn [map]. now rewrite app_nil_r.
Qed.

Lemma votes_total (rough : Z) (mr : list F) (n : F) :
  rough <> 0%Z ->
  forall us op,
    Forall (fun u => (0 < u)%Z) us ->
    for_each us (vote rough mr n) op
    = Ret (op ++ map price
             (filter (fun nu => in_band rough (fst nu) (snd nu) && ok mr (fst nu))
                     (map (pair n) us))).
Proof.
  intros Hr. induction us as [|u us IH]; intros op Hus; cbn [for_each].
  - cbn. now rewrite app_nil_r.
  - inversion Hus; subst. rewrite vote_total by assumption. cbn [bind].
    rewrite IH by assumption. rewrite <- app_assoc. do 2 f_equal.
    cbn [map filter fst snd]. destruct (_ && _); reflexivity.
Qed.

Lemma voter_total (rough : Z) (mr raw : list F) :
  rough <> 0%Z -> voter rough mr raw = Ret (map price (survivors rough mr raw)).
Proof.
  intros Hr. unfold voter.
  assert (H : forall op0,
             for_each raw (fun op n => for_each usds (vote rough mr n) op) op0
             = Ret (op0 ++ map price (survivors rough mr raw))).
  { unfold survivors. induction raw as [|n raw IH]; intros op0; cbn [for_each].
    - cbn. now rewrite app_nil_r.
    - rewrite votes_total; [|assumption|].
      + cbn [bind]. rewrite IH, <- app_assoc. f_equal.
        cbn [list_prod]. now rewrite filter_app, map_app.
      + apply Forall_forall. intros u Hu. now apply usds_pos. }
  apply (H []).
Qed.

Lemma voter_perm (rough : Z) (mr raw raw' : list F) :
  Permutation raw raw' ->
  match voter rough mr raw, voter rough mr raw' with
  | Ret op, Ret op' => Permutation op op'
  | Raise _, Raise _ => True
  | _, _ => False
  end.
Proof.
  intros H. destruct (Z.eq_dec rough 0) as [->|Hr].
  - destruct raw as [|n raw].
    + apply Permutation_nil in H. subst. cbn. constructor.
    + destruct raw' as [|n' raw'].
      * symmetry in H. apply Permutation_nil in H. discriminate.
      * now rewrite !voter_zero.
  - rewrite !voter_total by assumption. now apply survivors_perm.
Qed.

End Order.

(** ** The refiner in real arithmetic *)

Section RealOrder.

Lemma sorted_unique (l l' : list R) :
  StronglySorted (le_F (F := R)) l -> StronglySorted (le_F (F := R)) l' ->
  Permutation l l' -> l = l'.
Proof.
  revert l'. induction l as [|x l IH]; intros l' Hs Hs' Hp.
  - apply Permutation_nil in Hp. now subst.
  - destruct l' as [|y l'].
    + symmetry in Hp. apply Permutation_nil in Hp. discriminate.
    + inversion Hs as [|? ? Hs1 Hx]; subst. inversion Hs' as [|? ? Hs1' Hy]; subst.
      assert (Hxy : x = y).
      { rewrite Forall_forall in Hx, Hy.
        assert (H1 : In y (x :: l)) by (apply (Permutation_in _ (Permutation_sym Hp)); now left).
        assert (H2 : In x (y :: l')) by (apply (Permutation_in _ Hp); now left).
        destruct H1 as [|H1]; [assumption|]. destruct H2 as [|H2]; [now symmetry|].
        specialize (Hx _ H1). specialize (Hy _ H2). unfold le_F, toR, Ideal.view in *.
        lra. }
      subst y. f_equal. apply IH; try assumption.
      now apply Permutation_cons_inv with x.
Qed.

Lemma window_perm (op op' : list R) (pmin pmax : R) :
  Permutation op op' -> window op pmin pmax = window op' pmin pmax.
Proof.
  intros H. apply sorted_unique; try apply sorted_sorted.
  unfold window. rewrite !sorted_perm. now apply filter_perm.
Qed.

Lemma fco_perm (rough : Z) (op op' : list R) (pmin pmax : R) :
  Permutation op op' -> fco rough op pmin pmax = fco rough op' pmin pmax.
Proof. intros H. unfold fco. now rewrite (window_perm op op' pmin pmax H). Qed.

Lemma converge_perm (rough : Z) (op op' : list R) :
  Permutation op op' ->
  forall rounds cp2 avset,
    converge rough op rounds cp2 avset = converge rough op' rounds cp2 avset.
Proof.
  intros H. induction rounds as [|rounds IH]; intros cp2 avset; cbn [converge].
  - reflexivity.
  - unfold resplit. rewrite (fco_perm rough op op' _ _ H).
    destruct (seen _ _); [reflexivity | apply IH].
Qed.

Lemma refine_perm (rough : Z) (op op' : list R) :
  Permutation op op' -> refine rough op = refine rough op'.
Proof.
  intros H. unfold refine, first_split. rewrite (fco_perm rough op op' _ _ H).
  now apply converge_perm.
Qed.

End RealOrder.


(* ================================================================== *)
(** * The round amounts *)

Section RoundAmounts.

Context {F : Type} {N : PyNum F} {V : RealView F} {E : ExactLaws F}.

(** A loop whose bound is [n] steps away runs [n] times. *)
Lemma while_lt_exact (hi step : F) :
  (0 < toR step)%R ->
  forall (n budget : nat) (ii : F) (mr : list F),
    toR hi = (toR ii + INR n * toR step)%R -> (n < budget)%nat ->
    exists l,
      while_lt budget ii hi step mr = Ret (mr ++ l)
      /\ map toR l = map (fun j => (toR ii + INR j * toR step)%R) (seq 0 n).
Proof.
  intros Hstep. induction n as [|n IH]; intros budget ii mr Hhi Hb;
    (destruct budget as [|budget]; [lia|]); cbn [while_lt].
  - assert (Hlt : flt ii hi = false).
    { destruct (flt ii hi) eqn:Elt; [|reflexivity].
      apply flt_spec in Elt. cbn [INR] in Hhi. lra. }
    rewrite Hlt. exists []. now rewrite app_nil_r.
  - assert (Hn : (0 <= INR n)%R) by apply pos_INR.
    assert (Hlt : flt ii hi = true).
    { apply flt_spec. rewrite Hhi, S_INR. nra. }
    rewrite Hlt.
    destruct (IH budget (fadd ii step) (mr ++ [ii])) as (l & El & Hl).
    + rewrite toR_add, Hhi, S_INR. lra.
    + lia.
    + exists (ii :: l). rewrite El, <- app_assoc. split; [reflexivity|].
      cbn [map seq]. rewrite Hl, <- seq_shift, map_map. f_equal.
      * cbn [INR]. lra.
      * apply map_ext. intros j. rewrite toR_add, S_INR. lra.
Qed.

Lemma round_amounts_exact :
  exists l : list F,
    mr = Ret l
    /\ map toR l
       = map (fun j => ((5 + INR j) / 100000)%R) (seq 0 5)
         ++ map (fun j => ((10 + INR j) / 100000)%R) (seq 0 90)
         ++ map (fun j => ((10 + INR j) / 10000)%R) (seq 0 90)
         ++ map (fun j => ((10 + INR j) / 1000)%R) (seq 0 90)
         ++ map (fun j => ((10 + INR j) / 100)%R) (seq 0 90).
Proof.
  assert (L54 : toR (lit 5 5 : F) = (5 / 100000)%R) by (rewrite toR_lit; reflexivity).
  assert (L15 : toR (lit 1 5 : F) = (1 / 100000)%R) by (rewrite toR_lit; reflexivity).
  assert (L14 : toR (lit 1 4 : F) = (1 / 10000)%R) by (rewrite toR_lit; reflexivity).
  assert (L13 : toR (lit 1 3 : F) = (1 / 1000)%R) by (rewrite toR_lit; reflexivity).
  assert (L12 : toR (lit 1 2 : F) = (1 / 100)%R) by (rewrite toR_lit; reflexivity).
  assert (L11 : toR (lit 1 1 : F) = (1 / 10)%R) by (rewrite toR_lit; reflexivity).
  assert (L10 : toR (lit 1 0 : F) = 1%R) by (rewrite toR_lit; cbn; lra).
  assert (I5 : INR 5 = 5%R) by (rewrite INR_IZR_INZ; reflexivity).
  assert (I90 : INR 90 = 90%R) by (rewrite INR_IZR_INZ; reflexivity).
  assert (P15 : (0 < toR (lit 1 5 : F))%R) by (rewrite L15; lra).
  assert (P14 : (0 < toR (lit 1 4 : F))%R) by (rewrite L14; lra).
  assert (P13 : (0 < toR (lit 1 3 : F))%R) by (rewrite L13; lra).
  assert (P12 : (0 < toR (lit 1 2 : F))%R) by (rewrite L12; lra).
  unfold mr.
  destruct (while_lt_exact (lit 1 4) (lit 1 5) P15 5 1000 (lit 5 5) [])
    as (l1 & E1 & H1); [rewrite L14, L54, L15, I5; lra | lia |].
  rewrite E1. cbn [bind app].
  destruct (while_lt_exact (lit 1 3) (lit 1 5) P15 90 1000 (lit 1 4) l1)
    as (l2 & E2 & H2); [rewrite L13, L14, L15, I90; lra | lia |].
  rewrite E2. cbn [bind].
  destruct (while_lt_exact (lit 1 2) (lit 1 4) P14 90 1000 (lit 1 3) (l1 ++ l2))
    as (l3 & E3 & H3); [rewrite L12, L13, L14, I90; lra | lia |].
  rewrite E3. cbn [bind].
  destruct (while_lt_exact (lit 1 1) (lit 1 3) P13 90 1000 (lit 1 2)
              ((l1 ++ l2) ++ l3))
    as (l4 & E4 & H4); [rewrite L11, L12, L13, I90; lra | lia |].
  rewrite E4. cbn [bind].
  destruct (while_lt_exact (lit 1 0) (lit 1 2) P12 90 1000 (lit 1 1)
              (((l1 ++ l2) ++ l3) ++ l4))
    as (l5 & E5 & H5); [rewrite L10, L11, L12, I90; lra | lia |].
  rewrite E5. eexists. split; [reflexivity|].
  rewrite !map_app, H1, H2, H3, H4, H5, <- !app_assoc.
  rewrite L54, L15, L14, L13, L12, L11.
  repeat (f_equal; [apply map_ext; intros j; lra|]).
  apply map_ext. intros j. lra.
Qed.

End RoundAmounts.


(** X14. In binary64 the same loops build 366 entries: the loop from
    0.001 in steps of 0.0001 reaches 0.009999999999999995, which is
    still below 0.01, and appends it before it stops; the next loop
    starts with 0.01 itself. *)
Theorem round_amounts_binary64 :
  exists l : list float,
    mr (N := Binary64.num) = Ret l
    /\ length l = 366%nat
    /\ nth 185 l zero = 0.009999999999999995%float
    /\ nth 186 l zero = 0.01%float
    /\ flt (nth 185 l zero) (nth 186 l zero) = true.
Proof.
  eexists. split; [vm_compute; reflexivity|]. vm_compute. repeat split.
Qed.

(* ================================================================== *)
(** * The filter feeds the histogram *)

Section RealFiltered.

Local Open Scope R_scope.

Lemma histogram_total_real (raw : list R) :
  Forall (fun v => 1 / 1000000 <= v < Rpower 10 (5995 / 1000)) raw ->
  exists h,
    histogram Ideal.libm (bins Ideal.libm) raw = Ret h /\ length h = 2401%nat.
Proof.
  intros Hraw. unfold histogram.
  destruct (for_each_total (fun l : list R => length l = 2401%nat) raw
              (hist_step Ideal.libm (bins Ideal.libm)))
    with (s := repeat (zero : R) (length (bins Ideal.libm)))
    as (h & Eh & Ph).
  - intros s v Hin Hs. rewrite Forall_forall in Hraw.
    destruct (hist_step_real s v Hs (Hraw v Hin)) as (b & Hb & -> & _).
    eexists. split; [reflexivity|]. now rewrite upd_length.
  - now rewrite repeat_length, bins_length.
  - now exists h.
Qed.

End RealFiltered.


(* ================================================================== *)
(** * Worked examples *)

Lemma calc_price_empty_counterexample :
  ~ exists r, calc_price Binary64.soft_libm [] [] [] = Ret r.
Proof.
  intros [r Hr].
  assert (H : calc_price Binary64.soft_libm [] [] [] = Raise ZeroDivisionError).
  { vm_compute. reflexivity. }
  rewrite H in Hr. clear H. discriminate Hr.
Qed.

Lemma tie_counterexample :
  exists bc0 bc cs bss ts,
    histogram Binary64.soft_libm (bins Binary64.soft_libm) [lit 565 3] = Ret bc0
    /\ condition bc0 = Ret (bc, cs)
    /\ bc = tie_histogram
    /\ best_shift (ss Binary64.soft_libm) sp 199 bc = Ret (151%Z, bss, ts)
    /\ neighbor_scores sp 199 bc 151 = Ret (zero, zero)
    /\ feq (zero : float) zero = true
    /\ bn2 (zero : float) zero = 1%Z.
Proof.
  eexists. eexists. eexists. eexists. eexists.
  split. (vm_compute; reflexivity).
  split. (vm_compute; reflexivity).
  split. (vm_compute; reflexivity).
  split. (rewrite best_shift_eq; vm_compute; reflexivity).
  split. (rewrite neighbor_scores_eq; vm_compute; reflexivity).
  split; reflexivity.
Qed.

Lemma tie_takes_upper_neighbor_witness :
  feq (zero : float) zero = true
  /\ bn2 (zero : float) zero = 1%Z.
Proof.
  split; [reflexivity|].
  refine (proj1 (tie_takes_upper_neighbor (N := Binary64.num) b64_eq_not_lt
            (ss Binary64.soft_libm) sp (bins Binary64.soft_libm) tie_histogram
            151%Z (fmul (lit 8 3) (lit 832244504868709 18))
            (fmul (lit 8 3) (lit 832244504868709 18)) zero zero _ _ _)).
  - rewrite best_shift_eq. vm_compute. reflexivity.
  - rewrite neighbor_scores_eq. vm_compute. reflexivity.
  - reflexivity.
Defined.










(* ================================================================== *)
(** * Worked examples: the filter, the price bounds, the manifest *)

Lemma filter_block_a :
  filter_block block_a [] = Got ([lit 565 3], ["t2"; "t1"; "cb"]%string).
Proof. vm_compute. reflexivity. Qed.

Lemma collect_node :
  collect node [100; 101]%Z ["ha"; "hb"]%string [1700000000; 1700000600]%Z
  = Got ([lit 565 3; lit 1 3; lit 11 4], [100; 101; 101]%Z,
         [1700000000; 1700000600; 1700000600]%Z,
         ["t3"; "t4"; "cb"; "t1"; "t2"]%string).
Proof. vm_compute. reflexivity. Qed.

Lemma filter_block_values_in_range_witness :
  Forall (fun v : Q => flt (lit 1 5) v = true /\ flt v (lit 100000 0) = true)
    [lit 565 3]
  /\ (length [lit 565 3 : Q] <= 2 * length (txs_of block_a))%nat.
Proof.
  exact (filter_block_values_in_range block_a [] [lit 565 3]
           ["t2"; "t1"; "cb"]%string filter_block_a).
Defined.

Lemma filter_block_txids_witness :
  NoDup ["t2"; "t1"; "cb"]%string
  /\ forall i, In i ["t2"; "t1"; "cb"]%string
               <-> exists t, In t (txs_of block_a) /\ tx_txid t = Some i.
Proof.
  exact (filter_block_txids block_a [] [lit 565 3]
           ["t2"; "t1"; "cb"]%string filter_block_a).
Defined.

Lemma filter_block_selects_witness :
  filter_block block_a [] = Got ([lit 565 3 : Q], ["t2"; "t1"; "cb"]%string)
  /\ forall v : Q,
       In v [lit 565 3]
       <-> exists txs1 t txs2,
             txs_of block_a = txs1 ++ t :: txs2
             /\ selected [] (txids txs1) t v.
Proof.
  exact (conj filter_block_a
           (filter_block_selects block_a [] [lit 565 3]
              ["t2"; "t1"; "cb"]%string filter_block_a)).
Defined.

Lemma filter_block_split_witness :
  filter_block block_b (update [] ["t2"; "t1"; "cb"]%string)
  = Got ([lit 1 3; lit 11 4], ["t4"; "t3"]%string)
  /\ match filter_block block_b (update [] ["t2"; "t1"; "cb"]%string),
           filter_block {| blk_tx := Some (txs_of block_a ++ txs_of block_b) |} []
     with
     | Got (f2, ids2), Got (f, ids) =>
         f = [lit 565 3 : Q] ++ f2
         /\ forall t, mem t ids = mem t ["t2"; "t1"; "cb"]%string || mem t ids2
     | KeyError k2, KeyError k => k2 = k
     | _, _ => False
     end.
Proof.
  split; [vm_compute; reflexivity|].
  exact (filter_block_split [] (txs_of block_a) (txs_of block_b) [lit 565 3]
           ["t2"; "t1"; "cb"]%string filter_block_a).
Defined.

Lemma collect_aligned_witness :
  length [100; 101; 101]%Z = length [lit 565 3 : Q; lit 1 3; lit 11 4]
  /\ length [1700000000; 1700000600; 1700000600]%Z
     = length [lit 565 3 : Q; lit 1 3; lit 11 4]
  /\ Forall (recorded node
               (combine (combine [100; 101]%Z ["ha"; "hb"]%string)
                  [1700000000; 1700000600]%Z))
       (combine (combine [lit 565 3 : Q; lit 1 3; lit 11 4] [100; 101; 101]%Z)
          [1700000000; 1700000600; 1700000600]%Z).
Proof.
  exact (collect_aligned node _ _ _ _ _ _ _ collect_node).
Defined.

Lemma collect_is_one_block_witness :
  exists ids,
    filter_block
      {| blk_tx := Some (flat_map (fun x => txs_of (node (snd (fst x))))
                           (combine (combine [100; 101]%Z ["ha"; "hb"]%string)
                              [1700000000; 1700000600]%Z)) |} []
    = Got ([lit 565 3 : Q; lit 1 3; lit 11 4], ids)
    /\ forall t, mem t ids = mem t ["t3"; "t4"; "cb"; "t1"; "t2"]%string.
Proof.
  exact (collect_is_one_block node _ _ _ _ _ _ _ collect_node).
Defined.

Lemma calc_price_nonpositive_raises_witness :
  calc_price Binary64.soft_libm [PrimFloat.opp (lit 1 0); lit 5 1] [] []
  = Raise ValueError
  /\ (In (PrimFloat.opp (lit 1 0)) [lit 5 1]
      -> forall r, calc_price Binary64.soft_libm [lit 5 1] [] [] <> Ret r).
Proof.
  exact (calc_price_nonpositive_raises Binary64.soft_libm [lit 5 1] [] []
           (PrimFloat.opp (lit 1 0)) eq_refl).
Defined.

Lemma six_outputs_votes :
  voter 99698 mr_exact six_outputs = Ret [(2000000 # 21)%Q]
  /\ final_price 99698 [(2000000 # 21)%Q] = Ret 95238%Z.
Proof. split; vm_compute; reflexivity. Qed.


Lemma tie_density_anchor :
  forallb (fun e : Q => fle (lit 194984 9) e && fle e (lit 10116 6))
    (slice (bins Exact.soft_libm) 459 803) = true
  /\ anchor (ss Exact.soft_libm) sp (bins Exact.soft_libm) tie_density
     = Ret 17578%Z.
Proof.
  split; [vm_compute; reflexivity|]. rewrite anchor_eq. vm_compute. reflexivity.
Qed.


Lemma one_output_run :
  forallb (fun e : Q => fle (lit 194984 9) e && fle e (lit 10116 6))
    (slice (bins Exact.soft_libm) 459 803) = true
  /\ calc_price Exact.soft_libm one_output [] []
     = Ret (17578%Z, 17578%Z, 0%nat, 1%Q, 1%Q).
Proof.
  split; [vm_compute; reflexivity|]. rewrite calc_price_eq. vm_compute. reflexivity.
Qed.







Lemma manifest_a_runs :
  group_by_directory manifest_a
  = Got [("blocks"%string, (2, 103)%Z); ("indexes"%string, (1, 40)%Z);
         ("chainstate"%string, (1, 7)%Z)]
  /\ download_plan manifest_a false
     = Got ([("blocks/blk0.dat"%string, 100%Z); ("chainstate/1.ldb"%string, 7%Z);
             ("blocks/rev0.dat"%string, 3%Z)], 110%Z)
  /\ small_files manifest_a
     = Got [file "blocks/rev0.dat" 3; file "chainstate/1.ldb" 7;
            file "indexes/filter/0.dat" 40].
Proof. repeat split; vm_compute; reflexivity. Qed.

Lemma group_by_directory_totals_witness :
  let dirs := [("blocks"%string, (2, 103)%Z); ("indexes"%string, (1, 40)%Z);
               ("chainstate"%string, (1, 7)%Z)] in
  let files := get_or (m_files manifest_a) [] in
  NoDup (map fst dirs)
  /\ counts dirs = Z.of_nat (length files)
  /\ volumes dirs = total_size files
  /\ forall d,
       dict_get dirs d
       = if (length (under d files) =? 0)%nat then None
         else Some (Z.of_nat (length (under d files)), total_size (under d files)).
Proof.
  exact (group_by_directory_totals manifest_a _ (proj1 manifest_a_runs)).
Defined.

Lemma download_plan_lists_witness :
  let download_list :=
    [("blocks/blk0.dat"%string, 100%Z); ("chainstate/1.ldb"%string, 7%Z);
     ("blocks/rev0.dat"%string, 3%Z)] in
  let files := get_or (m_files manifest_a) [] in
  download_list = map pair_of (filter (listed false) files)
  /\ 110%Z = fold_right Z.add 0%Z (map snd download_list)
  /\ (false = true -> length download_list = length files)
  /\ (false = false ->
      forall p s, In (p, s) download_list -> String.prefix "indexes/"%string p = false)
  /\ (Forall (fun ps => (0 <= snd ps)%Z) download_list ->
      (0 <= downloaded_total (fun _ => true) download_list <= 110)%Z).
Proof.
  exact (download_plan_lists manifest_a false _ 110 (fun _ => true)
           (proj1 (proj2 manifest_a_runs))).
Defined.

Lemma small_files_smallest_witness :
  let small := [file "blocks/rev0.dat" 3; file "chainstate/1.ldb" 7;
                file "indexes/filter/0.dat" 40] in
  let files := get_or (m_files manifest_a) [] in
  length small = Nat.min 3 (length files)
  /\ StronglySorted (fun f g => (size_of f <= size_of g)%Z) small
  /\ exists rest,
       Permutation (small ++ rest) files
       /\ forall f g, In f small -> In g rest -> (size_of f <= size_of g)%Z.
Proof.
  exact (small_files_smallest manifest_a _ (proj2 (proj2 manifest_a_runs))).
Defined.
